(** * SqueezySceney: the scene-geometry scaler of [scaler.py]

    A shallow embedding of [scaler.py] (classes [Point], [Scene],
    [AdventureBundle] and the six entity dataclasses) and the properties
    of the scaling transform.

    Layout:
    - [result]: Python exceptions as an error monad;
    - [Decimal]: the [decimal.Decimal] operations the program uses, in
      the default context (28 significant digits, ROUND_HALF_EVEN);
    - [json]: the values [orjson.loads] yields;
    - the entity dataclasses, [Point], [Scene] and its methods;
    - [AdventureBundle.perform_scaling] over a small model of the two
      archives it touches;
    - the vocabulary of the statements and some sample data;
    - the properties: facts about [Decimal] (digit counts, exact
      results, rounding to an integer), about the loops, about when
      [scale_scene] returns, then the statements C1 to C10 of the
      specification, each after the lemmas it rests on;
    - further properties of the code, X1 to X20: the rounding to an
      integer, the dilation (identity, fixed point, composition, order,
      round trip), the short wall and the frame of [scale_scene], what
      [create] accepts, whether the document written is read back, and
      the archive [perform_scaling] writes. *)

From Stdlib Require Import ZArith QArith Qabs Qpower Qround List String Ascii Bool Lia Lqa.
Import ListNotations.

Local Open Scope Z_scope.

(** ** Exceptions *)

(** The exception classes the modelled code can raise. *)
Inductive exn : Type :=
| TypeError
| AttributeError
| IndexError
| KeyError
| InvalidOperation      (* decimal.InvalidOperation *)
| JSONDecodeError       (* orjson.JSONDecodeError *)
| ValueError            (* int(Decimal('NaN')) *)
| OverflowError.        (* int(Decimal('Infinity')) *)

Inductive result (A : Type) : Type :=
| Ok (a : A)
| Raise (e : exn).

Arguments Ok {A} a.
Arguments Raise {A} e.

Definition bind {A B : Type} (m : result A) (k : A -> result B) : result B :=
  match m with
  | Ok a => k a
  | Raise e => Raise e
  end.

Notation "x <- m ;; k" := (bind m (fun x => k))
  (at level 61, m at next level, right associativity).

(** A [for] loop that appends one computed element per iteration and
    stops at the first exception. *)
Fixpoint for_each {A B : Type} (f : A -> result B) (xs : list A)
  : result (list B) :=
  match xs with
  | [] => Ok []
  | x :: xs' =>
      y <- f x ;;
      ys <- for_each f xs' ;;
      Ok (y :: ys)
  end.

(** ** decimal.Decimal in the default context *)

Module Decimal.

(** A finite decimal: [coeff * 10 ^ exp].  The sign lives in [coeff],
    so the sign of a zero is not recorded; it never reaches an integer
    the program stores.  NaN and the infinities cannot arise from the
    integers and a finite scale; a scale that is not finite, which
    [main.py] lets through for [nan], is outside this type, and so are
    the statements below about [scale_scene]: [value], further down,
    has the rounding expression of the program on such values.  The
    exponent limits of the context (Emax = 999999, Emin = -999999) are
    not modelled: the statements that say which exceptions are raised
    are about integers and scales far inside them. *)
Record t : Type := mk { coeff : Z; exp : Z }.

(** [getcontext().prec] *)
Definition prec : Z := 28.

(** [Decimal(n)] for an [int] n: exact, whatever its length. *)
Definition of_int (n : Z) : t := mk n 0.

(** [Decimal('0.5')] *)
Definition half : t := mk 5 (-1).

(** The rational a decimal denotes. *)
Definition to_Q (d : t) : Q := inject_Z (coeff d) * (10 # 1) ^ exp d.

Fixpoint ndigits_fuel (fuel : nat) (n : Z) : Z :=
  match fuel with
  | O => 1
  | S fuel' => if n <? 10 then 1 else 1 + ndigits_fuel fuel' (n / 10)
  end.

(** [len(str(abs(n)))]: the length of the coefficient. *)
Definition ndigits (n : Z) : Z :=
  ndigits_fuel (Z.to_nat (Z.log2 (Z.abs n))) (Z.abs n).

(** ROUND_HALF_EVEN of the quotient [n / p], [0 < p]: the digits kept
    are [n / p], the digits dropped [n mod p]; more than half rounds
    up, exactly half rounds to the even neighbour. *)
Definition zround (n p : Z) : Z :=
  let q := n / p in
  let r := n mod p in
  match 2 * r ?= p with
  | Lt => q
  | Gt => q + 1
  | Eq => if Z.even q then q else q + 1
  end.

(** Dropping the last [k] digits of a coefficient [0 <= n]. *)
Definition round_half_even (n k : Z) : Z := zround n (10 ^ k).

(** The same on a signed coefficient: the magnitude is rounded. *)
Definition round_signed (c k : Z) : Z :=
  Z.sgn c * round_half_even (Z.abs c) k.

(** [Decimal._fix]: round a result to [prec] digits.  When rounding
    carries into a further digit (99..9 -> 100..0) the last zero is
    dropped and the exponent bumped. *)
Definition fix_ (d : t) : t :=
  let n := ndigits (coeff d) in
  if n <=? prec then d
  else
    let k := n - prec in
    let c := round_signed (coeff d) k in
    if ndigits c <=? prec then mk c (exp d + k)
    else mk (Z.quot c 10) (exp d + k + 1).

(** [a * b] *)
Definition mul (a b : t) : t :=
  fix_ (mk (coeff a * coeff b) (exp a + exp b)).

(** The coefficient of a sum before it is rounded: the operands
    aligned on the smaller exponent. *)
Definition sum_coeff (a b : t) : Z :=
  let e := Z.min (exp a) (exp b) in
  coeff a * 10 ^ (exp a - e) + coeff b * 10 ^ (exp b - e).

(** [a + b] *)
Definition add (a b : t) : t :=
  fix_ (mk (sum_coeff a b) (Z.min (exp a) (exp b))).

(** [a.copy_negate()] *)
Definition neg (a : t) : t := mk (- coeff a) (exp a).

(** [a - b], which the library computes as [a + b.copy_negate()]. *)
Definition sub (a b : t) : t := add a (neg b).

(** [d.quantize(Decimal(1))]: rescale to exponent 0 with the context's
    rounding.  InvalidOperation (trapped in the default context) when
    the integer part needs more than [prec] digits, before or after
    rounding. *)
Definition quantize_1 (d : t) : result t :=
  if coeff d =? 0 then Ok (mk 0 0)
  else if prec <? ndigits (coeff d) + exp d then Raise InvalidOperation
  else
    let c := if 0 <=? exp d then coeff d * 10 ^ exp d
             else round_signed (coeff d) (- exp d) in
    if prec <? ndigits c then Raise InvalidOperation
    else Ok (mk c 0).

(** [int(d)]: truncation towards zero. *)
Definition to_int (d : t) : Z :=
  if 0 <=? exp d then coeff d * 10 ^ exp d
  else Z.quot (coeff d) (10 ^ (- exp d)).

(** [int(d.quantize(Decimal(1)))], the one rounding expression of the
    program. *)
Definition round_to_int (d : t) : result Z :=
  q <- quantize_1 d ;; Ok (to_int q).

(** Any [Decimal]: a finite one, an infinity or a NaN, quiet or
    signalling.  The program builds its decimals from integers, from
    ['0.5'] and from the scale it is given; the scale is the only one
    that can be an infinity or a NaN. *)
Inductive value : Type :=
| Finite (d : t)
| Infinity (negative : bool)
| NaN (signalling : bool).

(** [v.quantize(Decimal(1))] on any value.  An infinity and a signalling
    NaN signal InvalidOperation, which the default context traps; a
    quiet NaN is returned as it is. *)
Definition quantize_1_value (v : value) : result value :=
  match v with
  | Finite d => q <- quantize_1 d ;; Ok (Finite q)
  | Infinity _ => Raise InvalidOperation
  | NaN true => Raise InvalidOperation
  | NaN false => Ok (NaN false)
  end.

(** [int(v)] on any value: ValueError on a NaN, OverflowError on an
    infinity. *)
Definition int_value (v : value) : result Z :=
  match v with
  | Finite d => Ok (to_int d)
  | Infinity _ => Raise OverflowError
  | NaN _ => Raise ValueError
  end.

(** [int(v.quantize(Decimal(1)))] on any value. *)
Definition round_to_int_value (v : value) : result Z :=
  q <- quantize_1_value v ;; int_value q.

(** Reference definition, not from the source: the integer nearest to a
    rational, a tie going to the even neighbour.  [round_to_int] is
    compared with it below. *)
Definition Qround_half_even (q : Q) : Z :=
  let f := Qfloor q in
  match (q - inject_Z f ?= 1 # 2)%Q with
  | Lt => f
  | Gt => f + 1
  | Eq => if Z.even f then f else f + 1
  end.

End Decimal.

(** ** JSON values *)

#[local] Set Warnings "-register-all".

(** What [orjson.loads] returns: [None], [bool], [int], [float], [str],
    [list] and [dict] (string keys, each at most once).  A float is kept
    as the pair (m, e) of its value m * 2 ^ e; the program never computes
    with one. *)
Inductive json : Type :=
| JNull
| JBool (b : bool)
| JInt (n : Z)
| JFloat (m e : Z)
| JStr (s : string)
| JList (l : list json)
| JObj (d : list (string * json)).

(** [d[k]] on the pairs of a dict. *)
Fixpoint lookup (k : string) (d : list (string * json)) : option json :=
  match d with
  | [] => None
  | (k', v) :: d' => if String.eqb k k' then Some v else lookup k d'
  end.

(** ** The entity dataclasses

    The fields the transform computes with ([x], [y], [c]) have their
    annotated type [int]; every other field is carried as the JSON value
    it was loaded with. *)

Module Token.
Record T : Type := mk {
  _id : json; flags : json; name : json; displayName : json; img : json;
  tint : json; width : json; height : json; scale : json;
  x : Z; y : Z;
  elevation : json; lockRotation : json; rotation : json; effects : json;
  hidden : json; vision : json; dimSight : json; brightSight : json;
  dimLight : json; brightLight : json; sightAngle : json;
  lightAngle : json; lightAlpha : json; lightAnimation : json;
  actorId : json; actorLink : json; actorData : json; disposition : json;
  displayBars : json; bar1 : json; bar2 : json;
  mirrorX : json; mirrorY : json; lightColor : json
}.

(** [new = deepcopy(token); new.x = nx; new.y = ny] *)
Definition with_xy (token : T) (nx ny : Z) : T :=
  {| _id := _id token; flags := flags token; name := name token;
     displayName := displayName token; img := img token;
     tint := tint token; width := width token; height := height token;
     scale := scale token;
     x := nx; y := ny;
     elevation := elevation token; lockRotation := lockRotation token;
     rotation := rotation token; effects := effects token;
     hidden := hidden token; vision := vision token;
     dimSight := dimSight token; brightSight := brightSight token;
     dimLight := dimLight token; brightLight := brightLight token;
     sightAngle := sightAngle token; lightAngle := lightAngle token;
     lightAlpha := lightAlpha token;
     lightAnimation := lightAnimation token;
     actorId := actorId token; actorLink := actorLink token;
     actorData := actorData token; disposition := disposition token;
     displayBars := displayBars token; bar1 := bar1 token;
     bar2 := bar2 token;
     mirrorX := mirrorX token; mirrorY := mirrorY token;
     lightColor := lightColor token |}.
End Token.

Module Wall.
Record T : Type := mk {
  _id : json; flags : json;
  c : list Z;
  move : json; sense : json; door : json; ds : json; dir : json
}.

(** [new = deepcopy(wall); new.c = nc] *)
Definition with_c (wall : T) (nc : list Z) : T :=
  {| _id := _id wall; flags := flags wall;
     c := nc;
     move := move wall; sense := sense wall; door := door wall;
     ds := ds wall; dir := dir wall |}.
End Wall.

Module Light.
Record T : Type := mk {
  _id : json; flags : json; t : json;
  x : Z; y : Z;
  hidden : json; rotation : json; dim : json; bright : json;
  angle : json; darknessThreshold : json; tintAlpha : json;
  lightAnimation : json; tintColor : json
}.

Definition with_xy (light : T) (nx ny : Z) : T :=
  {| _id := _id light; flags := flags light; t := t light;
     x := nx; y := ny;
     hidden := hidden light; rotation := rotation light;
     dim := dim light; bright := bright light; angle := angle light;
     darknessThreshold := darknessThreshold light;
     tintAlpha := tintAlpha light;
     lightAnimation := lightAnimation light;
     tintColor := tintColor light |}.
End Light.

Module Sound.
Record T : Type := mk {
  _id : json; flags : json; path : json; repeat : json; volume : json;
  type : json;
  x : Z; y : Z;
  radius : json; easing : json
}.

Definition with_xy (sound : T) (nx ny : Z) : T :=
  {| _id := _id sound; flags := flags sound; path := path sound;
     repeat := repeat sound; volume := volume sound; type := type sound;
     x := nx; y := ny;
     radius := radius sound; easing := easing sound |}.
End Sound.

Module Note.
Record T : Type := mk {
  _id : json; flags : json; entryId : json;
  x : Z; y : Z;
  icon : json; iconSize : json; iconTint : json; text : json;
  fontFamily : json; fontSize : json; textAnchor : json;
  textColor : json
}.

Definition with_xy (note : T) (nx ny : Z) : T :=
  {| _id := _id note; flags := flags note; entryId := entryId note;
     x := nx; y := ny;
     icon := icon note; iconSize := iconSize note;
     iconTint := iconTint note; text := text note;
     fontFamily := fontFamily note; fontSize := fontSize note;
     textAnchor := textAnchor note; textColor := textColor note |}.
End Note.

Module Drawing.
Record T : Type := mk {
  _id : json; flags : json; type : json; author : json;
  x : Z; y : Z;
  width : json; height : json; rotation : json; z : json;
  hidden : json; locked : json; points : json; bezierFactor : json;
  fillType : json; fillColor : json; fillAlpha : json;
  strokeWidth : json; strokeColor : json; strokeAlpha : json;
  texture : json; text : json; fontFamily : json; fontSize : json;
  textColor : json; textAlpha : json
}.

Definition with_xy (drawing : T) (nx ny : Z) : T :=
  {| _id := _id drawing; flags := flags drawing; type := type drawing;
     author := author drawing;
     x := nx; y := ny;
     width := width drawing; height := height drawing;
     rotation := rotation drawing; z := z drawing;
     hidden := hidden drawing; locked := locked drawing;
     points := points drawing; bezierFactor := bezierFactor drawing;
     fillType := fillType drawing; fillColor := fillColor drawing;
     fillAlpha := fillAlpha drawing; strokeWidth := strokeWidth drawing;
     strokeColor := strokeColor drawing;
     strokeAlpha := strokeAlpha drawing; texture := texture drawing;
     text := text drawing; fontFamily := fontFamily drawing;
     fontSize := fontSize drawing; textColor := textColor drawing;
     textAlpha := textAlpha drawing |}.
End Drawing.

(** ** Point *)

Module Point.
Record T : Type := mk { x : Decimal.t; y : Decimal.t }.

Definition _translate_point (origin point : T) (scale : Decimal.t) : T :=
  let translated_x :=
    Decimal.add (Decimal.mul (x origin) (Decimal.sub (Decimal.of_int 1) scale))
                (Decimal.mul (x point) scale) in
  let translated_y :=
    Decimal.add (Decimal.mul (y origin) (Decimal.sub (Decimal.of_int 1) scale))
                (Decimal.mul (y point) scale) in
  mk translated_x translated_y.

Definition translate_point (self origin : T) (scale : Decimal.t) : T :=
  _translate_point origin self scale.

Definition get_point_from_token (token_data : Token.T) : T :=
  mk (Decimal.of_int (Token.x token_data))
     (Decimal.of_int (Token.y token_data)).

(** The source stores the four [int]s in the points as they are and
    [Decimal.__rmul__] converts them when they are multiplied; the
    conversion is the same [Decimal(n)].  [coords[k]] raises IndexError
    on a shorter list. *)
Definition get_points_from_walls (wall_data : Wall.T) : result (T * T) :=
  match Wall.c wall_data with
  | c0 :: c1 :: c2 :: c3 :: _ =>
      Ok (mk (Decimal.of_int c0) (Decimal.of_int c1),
          mk (Decimal.of_int c2) (Decimal.of_int c3))
  | _ => Raise IndexError
  end.

Definition get_point_from_light (light_data : Light.T) : T :=
  mk (Decimal.of_int (Light.x light_data))
     (Decimal.of_int (Light.y light_data)).

Definition get_point_from_sound (sound_data : Sound.T) : T :=
  mk (Decimal.of_int (Sound.x sound_data))
     (Decimal.of_int (Sound.y sound_data)).

Definition get_point_from_note (note_data : Note.T) : T :=
  mk (Decimal.of_int (Note.x note_data))
     (Decimal.of_int (Note.y note_data)).

Definition get_point_from_drawing (drawing_data : Drawing.T) : T :=
  mk (Decimal.of_int (Drawing.x drawing_data))
     (Decimal.of_int (Drawing.y drawing_data)).

Definition integer_x (self : T) : result Z := Decimal.round_to_int (x self).

Definition integer_y (self : T) : result Z := Decimal.round_to_int (y self).
End Point.

(** ** Scene *)

Module Scene.

(** The fields of the [Scene] dataclass.  Python does not check the
    annotations, so the object [create] builds holds whatever the
    document had: the record is generic in the type of the five sizing
    fields and of the members of the six collections.  [T] below is the
    instance with the annotated types, on which [scale_scene] computes;
    [Loaded] is what [create] returns. *)
Record T_ {Int Tok Wal Lig Sou Not Dra : Type} : Type := mk {
  _id : json;
  name : json;
  folder : json;
  sort : json;
  flags : json;
  description : json;
  navigation : json;
  nav_order : json;
  nav_name : json;
  active : json;
  initial : json;
  img : json;
  thumb : json;
  width : Int;
  height : Int;
  padding : json;
  background_color : json;
  tiles : json;
  grid_type : json;
  grid : Int;
  shift_x : Int;
  shift_y : Int;
  grid_color : json;
  grid_alpha : json;
  grid_distance : json;
  grid_units : json;
  tokens : list Tok;
  walls : list Wal;
  token_vision : json;
  fog_exploration : json;
  lights : list Lig;
  global_light : json;
  global_light_threshold : json;
  darkness : json;
  playlist : json;
  sounds : list Sou;
  templates : json;
  journal : json;
  notes : list Not;
  weather : json;
  drawings : list Dra;
  size : json
}.

Arguments mk {Int Tok Wal Lig Sou Not Dra}.

Definition T : Type :=
  @T_ Z Token.T Wall.T Light.T Sound.T Note.T Drawing.T.

Definition get_origin (self : T) : Point.T :=
  let x := Decimal.mul (Decimal.of_int (shift_x self)) Decimal.half in
  let y := Decimal.mul (Decimal.of_int (shift_y self)) Decimal.half in
  Point.mk x y.

(** The body of the loop of [_scale_tokens]. *)
Definition scale_token (origin : Point.T) (scale : Decimal.t)
    (token : Token.T) : result Token.T :=
  let token_point := Point.get_point_from_token token in
  let scaled_token_point := Point.translate_point token_point origin scale in
  nx <- Point.integer_x scaled_token_point ;;
  ny <- Point.integer_y scaled_token_point ;;
  Ok (Token.with_xy token nx ny).

(** Each [_scale_*] method returns the list it assigns to the
    attribute; [scale_scene] stores it. *)
Definition _scale_tokens (tokens : list Token.T) (origin : Point.T)
    (scale : Decimal.t) : result (list Token.T) :=
  for_each (scale_token origin scale) tokens.

(** The inner loop of [_scale_walls], over the two points of a wall. *)
Definition scale_wall_point (origin : Point.T) (scale : Decimal.t)
    (wall_point : Point.T) : result (list Z) :=
  let scaled_wall_point := Point.translate_point wall_point origin scale in
  ix <- Point.integer_x scaled_wall_point ;;
  iy <- Point.integer_y scaled_wall_point ;;
  Ok [ix; iy].

Definition scale_wall (origin : Point.T) (scale : Decimal.t)
    (wall : Wall.T) : result Wall.T :=
  wall_points <- Point.get_points_from_walls wall ;;
  first <- scale_wall_point origin scale (fst wall_points) ;;
  second <- scale_wall_point origin scale (snd wall_points) ;;
  Ok (Wall.with_c wall (first ++ second)).

Definition _scale_walls (walls : list Wall.T) (origin : Point.T)
    (scale : Decimal.t) : result (list Wall.T) :=
  for_each (scale_wall origin scale) walls.

Definition scale_light (origin : Point.T) (scale : Decimal.t)
    (light : Light.T) : result Light.T :=
  let light_point := Point.get_point_from_light light in
  let scaled_light_point := Point.translate_point light_point origin scale in
  nx <- Point.integer_x scaled_light_point ;;
  ny <- Point.integer_y scaled_light_point ;;
  Ok (Light.with_xy light nx ny).

Definition _scale_lights (lights : list Light.T) (origin : Point.T)
    (scale : Decimal.t) : result (list Light.T) :=
  for_each (scale_light origin scale) lights.

Definition scale_sound (origin : Point.T) (scale : Decimal.t)
    (sound : Sound.T) : result Sound.T :=
  let sound_point := Point.get_point_from_sound sound in
  let scaled_sound_point := Point.translate_point sound_point origin scale in
  nx <- Point.integer_x scaled_sound_point ;;
  ny <- Point.integer_y scaled_sound_point ;;
  Ok (Sound.with_xy sound nx ny).

Definition _scale_sounds (sounds : list Sound.T) (origin : Point.T)
    (scale : Decimal.t) : result (list Sound.T) :=
  for_each (scale_sound origin scale) sounds.

Definition scale_note (origin : Point.T) (scale : Decimal.t)
    (note : Note.T) : result Note.T :=
  let note_point := Point.get_point_from_note note in
  let scaled_note_point := Point.translate_point note_point origin scale in
  nx <- Point.integer_x scaled_note_point ;;
  ny <- Point.integer_y scaled_note_point ;;
  Ok (Note.with_xy note nx ny).

Definition _scale_notes (notes : list Note.T) (origin : Point.T)
    (scale : Decimal.t) : result (list Note.T) :=
  for_each (scale_note origin scale) notes.

Definition scale_drawing (origin : Point.T) (scale : Decimal.t)
    (drawing : Drawing.T) : result Drawing.T :=
  let drawing_point := Point.get_point_from_drawing drawing in
  let scaled_drawing_point :=
    Point.translate_point drawing_point origin scale in
  nx <- Point.integer_x scaled_drawing_point ;;
  ny <- Point.integer_y scaled_drawing_point ;;
  Ok (Drawing.with_xy drawing nx ny).

Definition _scale_drawings (drawings : list Drawing.T) (origin : Point.T)
    (scale : Decimal.t) : result (list Drawing.T) :=
  for_each (scale_drawing origin scale) drawings.

(** [int((n * scale).quantize(Decimal(1)))] for an [int] field n. *)
Definition scale_int (n : Z) (scale : Decimal.t) : result Z :=
  Decimal.round_to_int (Decimal.mul (Decimal.of_int n) scale).

(** [scale_scene] mutates [self]; the model returns the scene after the
    last assignment, or the exception that stopped it.  Every right-hand
    side reads attributes that no earlier statement has assigned. *)
Definition scale_scene (self : T) (scale : Decimal.t) : result T :=
  let origin := get_origin self in
  tokens' <- _scale_tokens (tokens self) origin scale ;;
  walls' <- _scale_walls (walls self) origin scale ;;
  lights' <- _scale_lights (lights self) origin scale ;;
  sounds' <- _scale_sounds (sounds self) origin scale ;;
  notes' <- _scale_notes (notes self) origin scale ;;
  drawings' <- _scale_drawings (drawings self) origin scale ;;
  width' <- scale_int (width self) scale ;;
  height' <- scale_int (height self) scale ;;
  grid' <- scale_int (grid self) scale ;;
  shift_x' <- scale_int (shift_x self) scale ;;
  shift_y' <- scale_int (shift_y self) scale ;;
  Ok {| _id := _id self; name := name self; folder := folder self;
        sort := sort self; flags := flags self;
        description := description self; navigation := navigation self;
        nav_order := nav_order self; nav_name := nav_name self;
        active := active self; initial := initial self; img := img self;
        thumb := thumb self;
        width := width'; height := height';
        padding := padding self;
        background_color := background_color self; tiles := tiles self;
        grid_type := grid_type self;
        grid := grid'; shift_x := shift_x'; shift_y := shift_y';
        grid_color := grid_color self; grid_alpha := grid_alpha self;
        grid_distance := grid_distance self;
        grid_units := grid_units self;
        tokens := tokens'; walls := walls';
        token_vision := token_vision self;
        fog_exploration := fog_exploration self;
        lights := lights';
        global_light := global_light self;
        global_light_threshold := global_light_threshold self;
        darkness := darkness self; playlist := playlist self;
        sounds := sounds';
        templates := templates self; journal := journal self;
        notes := notes';
        weather := weather self;
        drawings := drawings';
        size := size self |}.

(** *** Serialisation *)

(** What a key of [output_dict] holds: a carried JSON value, one of the
    five [int]s, or one of the six lists of dataclass instances. *)
Inductive value : Type :=
| VJson (j : json)
| VInt (n : Z)
| VTokens (l : list Token.T)
| VWalls (l : list Wall.T)
| VLights (l : list Light.T)
| VSounds (l : list Sound.T)
| VNotes (l : list Note.T)
| VDrawings (l : list Drawing.T).

(** [to_json] builds [output_dict] and hands it to [orjson.dumps], which
    writes the keys in this order; the model returns the dict.  What
    [orjson.dumps] writes for it is [document] below. *)
Definition to_json (self : T) : list (string * value) :=
  [ ("_id", VJson (_id self));
    ("name", VJson (name self));
    ("folder", VJson (folder self));
    ("sort", VJson (sort self));
    ("flags", VJson (flags self));
    ("description", VJson (description self));
    ("navigation", VJson (description self));
    ("navOrder", VJson (nav_order self));
    ("navName", VJson (nav_name self));
    ("active", VJson (active self));
    ("initial", VJson (initial self));
    ("img", VJson (img self));
    ("thumb", VJson (thumb self));
    ("width", VInt (width self));
    ("height", VInt (height self));
    ("padding", VJson (padding self));
    ("backgroundColor", VJson (background_color self));
    ("tiles", VJson (tiles self));
    ("gridType", VJson (grid_type self));
    ("grid", VInt (grid self));
    ("shiftX", VInt (shift_x self));
    ("shiftY", VInt (shift_y self));
    ("gridColor", VJson (grid_color self));
    ("gridAlpha", VJson (grid_alpha self));
    ("gridDistance", VJson (grid_distance self));
    ("gridUnits", VJson (grid_units self));
    ("tokens", VTokens (tokens self));
    ("walls", VWalls (walls self));
    ("tokenVision", VJson (token_vision self));
    ("fogExploration", VJson (fog_exploration self));
    ("lights", VLights (lights self));
    ("globalLight", VJson (global_light self));
    ("globalLightThreshold", VJson (global_light_threshold self));
    ("darkness", VJson (darkness self));
    ("playlist", VJson (playlist self));
    ("sounds", VSounds (sounds self));
    ("templates", VJson (templates self));
    ("journal", VJson (journal self));
    ("notes", VNotes (notes self));
    ("weather", VJson (weather self));
    ("drawings", VDrawings (drawings self));
    ("size", VJson (size self)) ]%string.

(** [output_dict[k]] *)
Fixpoint dict_get (k : string) (d : list (string * value)) : option value :=
  match d with
  | [] => None
  | (k', v) :: d' => if String.eqb k k' then Some v else dict_get k d'
  end.

(** *** The document written

    What the text [to_json] returns holds, when [orjson.dumps] returns
    it: the dict with its keys in order, an [int] as a number, a carried
    value as it was loaded, and a dataclass instance as an object of its
    attributes in declaration order, those whose name begins with an
    underscore left out, as [orjson] does. *)

Definition token_document (token : Token.T) : json :=
  JObj [ ("flags", Token.flags token);
         ("name", Token.name token);
         ("displayName", Token.displayName token);
         ("img", Token.img token);
         ("tint", Token.tint token);
         ("width", Token.width token);
         ("height", Token.height token);
         ("scale", Token.scale token);
         ("x", JInt (Token.x token));
         ("y", JInt (Token.y token));
         ("elevation", Token.elevation token);
         ("lockRotation", Token.lockRotation token);
         ("rotation", Token.rotation token);
         ("effects", Token.effects token);
         ("hidden", Token.hidden token);
         ("vision", Token.vision token);
         ("dimSight", Token.dimSight token);
         ("brightSight", Token.brightSight token);
         ("dimLight", Token.dimLight token);
         ("brightLight", Token.brightLight token);
         ("sightAngle", Token.sightAngle token);
         ("lightAngle", Token.lightAngle token);
         ("lightAlpha", Token.lightAlpha token);
         ("lightAnimation", Token.lightAnimation token);
         ("actorId", Token.actorId token);
         ("actorLink", Token.actorLink token);
         ("actorData", Token.actorData token);
         ("disposition", Token.disposition token);
         ("displayBars", Token.displayBars token);
         ("bar1", Token.bar1 token);
         ("bar2", Token.bar2 token);
         ("mirrorX", Token.mirrorX token);
         ("mirrorY", Token.mirrorY token);
         ("lightColor", Token.lightColor token) ]%string.

Definition wall_document (wall : Wall.T) : json :=
  JObj [ ("flags", Wall.flags wall);
         ("c", JList (map JInt (Wall.c wall)));
         ("move", Wall.move wall);
         ("sense", Wall.sense wall);
         ("door", Wall.door wall);
         ("ds", Wall.ds wall);
         ("dir", Wall.dir wall) ]%string.

Definition light_document (light : Light.T) : json :=
  JObj [ ("flags", Light.flags light);
         ("t", Light.t light);
         ("x", JInt (Light.x light));
         ("y", JInt (Light.y light));
         ("hidden", Light.hidden light);
         ("rotation", Light.rotation light);
         ("dim", Light.dim light);
         ("bright", Light.bright light);
         ("angle", Light.angle light);
         ("darknessThreshold", Light.darknessThreshold light);
         ("tintAlpha", Light.tintAlpha light);
         ("lightAnimation", Light.lightAnimation light);
         ("tintColor", Light.tintColor light) ]%string.

Definition sound_document (sound : Sound.T) : json :=
  JObj [ ("flags", Sound.flags sound);
         ("path", Sound.path sound);
         ("repeat", Sound.repeat sound);
         ("volume", Sound.volume sound);
         ("type", Sound.type sound);
         ("x", JInt (Sound.x sound));
         ("y", JInt (Sound.y sound));
         ("radius", Sound.radius sound);
         ("easing", Sound.easing sound) ]%string.

Definition note_document (note : Note.T) : json :=
  JObj [ ("flags", Note.flags note);
         ("entryId", Note.entryId note);
         ("x", JInt (Note.x note));
         ("y", JInt (Note.y note));
         ("icon", Note.icon note);
         ("iconSize", Note.iconSize note);
         ("iconTint", Note.iconTint note);
         ("text", Note.text note);
         ("fontFamily", Note.fontFamily note);
         ("fontSize", Note.fontSize note);
         ("textAnchor", Note.textAnchor note);
         ("textColor", Note.textColor note) ]%string.

Definition drawing_document (drawing : Drawing.T) : json :=
  JObj [ ("flags", Drawing.flags drawing);
         ("type", Drawing.type drawing);
         ("author", Drawing.author drawing);
         ("x", JInt (Drawing.x drawing));
         ("y", JInt (Drawing.y drawing));
         ("width", Drawing.width drawing);
         ("height", Drawing.height drawing);
         ("rotation", Drawing.rotation drawing);
         ("z", Drawing.z drawing);
         ("hidden", Drawing.hidden drawing);
         ("locked", Drawing.locked drawing);
         ("points", Drawing.points drawing);
         ("bezierFactor", Drawing.bezierFactor drawing);
         ("fillType", Drawing.fillType drawing);
         ("fillColor", Drawing.fillColor drawing);
         ("fillAlpha", Drawing.fillAlpha drawing);
         ("strokeWidth", Drawing.strokeWidth drawing);
         ("strokeColor", Drawing.strokeColor drawing);
         ("strokeAlpha", Drawing.strokeAlpha drawing);
         ("texture", Drawing.texture drawing);
         ("text", Drawing.text drawing);
         ("fontFamily", Drawing.fontFamily drawing);
         ("fontSize", Drawing.fontSize drawing);
         ("textColor", Drawing.textColor drawing);
         ("textAlpha", Drawing.textAlpha drawing) ]%string.

Definition value_document (v : value) : json :=
  match v with
  | VJson j => j
  | VInt n => JInt n
  | VTokens l => JList (map token_document l)
  | VWalls l => JList (map wall_document l)
  | VLights l => JList (map light_document l)
  | VSounds l => JList (map sound_document l)
  | VNotes l => JList (map note_document l)
  | VDrawings l => JList (map drawing_document l)
  end.

Definition document (self : T) : json :=
  JObj (map (fun kv => (fst kv, value_document (snd kv))) (to_json self)).

(** *** Construction *)

(** A dataclass instance as [__init__] leaves it: its fields, in
    declaration order, with the values bound to them. *)
Definition instance : Type := list (string * json).

Definition Loaded : Type :=
  @T_ json instance instance instance instance instance instance.

(** The parameters of a generated [__init__]: field name and default,
    [None] for a required field. *)
Definition signature : Type := list (string * option json).

Definition required (name : string) : string * option json := (name, None).

Definition Token_fields : signature :=
  map required
    [ "_id"; "flags"; "name"; "displayName"; "img"; "tint"; "width";
      "height"; "scale"; "x"; "y"; "elevation"; "lockRotation";
      "rotation"; "effects"; "hidden"; "vision"; "dimSight";
      "brightSight"; "dimLight"; "brightLight"; "sightAngle";
      "lightAngle"; "lightAlpha"; "lightAnimation"; "actorId";
      "actorLink"; "actorData"; "disposition"; "displayBars"; "bar1";
      "bar2" ]%string
  ++ [ ("mirrorX", Some JNull); ("mirrorY", Some JNull);
       ("lightColor", Some JNull) ]%string.

Definition Wall_fields : signature :=
  map required
    [ "_id"; "flags"; "c"; "move"; "sense"; "door"; "ds" ]%string
  ++ [ ("dir", Some (JInt 0)) ]%string.

Definition Light_fields : signature :=
  map required
    [ "_id"; "flags"; "t"; "x"; "y"; "hidden"; "rotation"; "dim";
      "bright"; "angle"; "darknessThreshold"; "tintAlpha";
      "lightAnimation" ]%string
  ++ [ ("tintColor", Some (JStr "")) ]%string.

Definition Sound_fields : signature :=
  map required
    [ "_id"; "flags"; "path"; "repeat"; "volume"; "type"; "x"; "y";
      "radius"; "easing" ]%string.

Definition Note_fields : signature :=
  map required
    [ "_id"; "flags"; "entryId"; "x"; "y"; "icon"; "iconSize";
      "iconTint"; "text"; "fontFamily"; "fontSize"; "textAnchor";
      "textColor" ]%string.

Definition Drawing_fields : signature :=
  map required
    [ "_id"; "flags"; "type"; "author"; "x"; "y"; "width"; "height";
      "rotation"; "z"; "hidden"; "locked"; "points"; "bezierFactor";
      "fillType"; "fillColor"; "fillAlpha"; "strokeWidth"; "strokeColor";
      "strokeAlpha"; "texture"; "text"; "fontFamily"; "fontSize";
      "textColor"; "textAlpha" ]%string.

Definition declares (fields : signature) (k : string) : bool :=
  existsb (fun f => String.eqb k (fst f)) fields.

(** One parameter of [__init__]: the keyword argument, else the
    default, else TypeError (missing required argument). *)
Definition bind_field (kwargs : list (string * json))
    (f : string * option json) : result (string * json) :=
  match lookup (fst f) kwargs with
  | Some v => Ok (fst f, v)
  | None =>
      match snd f with
      | Some v => Ok (fst f, v)
      | None => Raise TypeError
      end
  end.

(** The call [Cls] makes with the dict [kwargs] unpacked as keyword
    arguments: TypeError when [kwargs] is not a mapping, names a
    field the class does not declare, or lacks a required one.  The
    values are stored as they come. *)
Definition dataclass_init (fields : signature) (kwargs : json)
  : result instance :=
  match kwargs with
  | JObj d =>
      if forallb (fun kv => declares fields (fst kv)) d
      then for_each (bind_field d) fields
      else Raise TypeError
  | _ => Raise TypeError
  end.

Fixpoint characters (s : string) : list json :=
  match s with
  | EmptyString => []
  | String ch s' => JStr (String ch EmptyString) :: characters s'
  end.

(** [for item in v]: a list yields its members, a dict its keys, a str
    its characters; the other JSON values are not iterable. *)
Definition iterate (v : json) : result (list json) :=
  match v with
  | JList l => Ok l
  | JObj d => Ok (map (fun kv => JStr (fst kv)) d)
  | JStr s => Ok (characters s)
  | _ => Raise TypeError
  end.

(** The comprehension over [scene_data.get(key, [])] that builds one
    instance of the class per item. *)
Definition instances (fields : signature) (key : string)
    (d : list (string * json)) : result (list instance) :=
  items <- iterate (match lookup key d with
                    | Some v => v
                    | None => JList []
                    end) ;;
  for_each (dataclass_init fields) items.

(** [scene_data.get(key)]: the value, [None] for an absent key. *)
Definition get (d : list (string * json)) (key : string) : json :=
  match lookup key d with
  | Some v => v
  | None => JNull
  end.

(** [create]: a value without a [get] method (anything but a dict)
    raises AttributeError at the first argument.  On a dict no [get]
    raises, so the first exception, if any, comes from the six
    comprehensions, taken in the order written. *)
Definition create (scene_data : json) : result Loaded :=
  match scene_data with
  | JObj d =>
      tokens' <- instances Token_fields "tokens" d ;;
      walls' <- instances Wall_fields "walls" d ;;
      lights' <- instances Light_fields "lights" d ;;
      sounds' <- instances Sound_fields "sounds" d ;;
      notes' <- instances Note_fields "notes" d ;;
      drawings' <- instances Drawing_fields "drawings" d ;;
      Ok {| _id := get d "_id";
            name := get d "name";
            folder := get d "folder";
            sort := get d "sort";
            flags := get d "flags";
            description := get d "description";
            navigation := get d "navigation";
            nav_order := get d "navOrder";
            nav_name := get d "navName";
            active := get d "active";
            initial := get d "initial";
            img := get d "img";
            thumb := get d "thumb";
            width := get d "width";
            height := get d "height";
            padding := get d "padding";
            background_color := get d "backgroundColor";
            tiles := get d "tiles";
            grid_type := get d "gridType";
            grid := get d "grid";
            shift_x := get d "shiftX";
            shift_y := get d "shiftY";
            grid_color := get d "gridColor";
            grid_alpha := get d "gridAlpha";
            grid_distance := get d "gridDistance";
            grid_units := get d "gridUnits";
            tokens := tokens';
            walls := walls';
            token_vision := get d "tokenVision";
            fog_exploration := get d "fogExploration";
            lights := lights';
            global_light := get d "globalLight";
            global_light_threshold := get d "globalLightThreshold";
            darkness := get d "darkness";
            playlist := get d "playlist";
            sounds := sounds';
            templates := get d "templates";
            journal := get d "journal";
            notes := notes';
            weather := get d "weather";
            drawings := drawings';
            size := get d "size" |}
  | _ => Raise AttributeError
  end%string.

(** [from_json_string]: [orjson.loads] is taken as given; it returns
    the document or raises JSONDecodeError. *)
Definition from_json_string (loads : string -> result json)
    (json_string : string) : result Loaded :=
  scene_data <- loads json_string ;;
  create scene_data.

End Scene.

(** ** AdventureBundle *)

(** [Path(name).match('scene/*.json')] on a POSIX path: the last two
    components of the path are [scene] and a name ending in [.json]. *)
Module Path.

(** The components of a path: split at every slash, the empty
    components and the [.] components dropped. *)
Fixpoint split (acc : string) (s : string) : list string :=
  match s with
  | EmptyString => [acc]
  | String ch s' =>
      if Ascii.eqb ch "/"%char then acc :: split EmptyString s'
      else split (acc ++ String ch EmptyString)%string s'
  end.

Definition parts (s : string) : list string :=
  filter (fun p => negb (String.eqb p "" || String.eqb p "."))%string
         (split EmptyString s).

(** [fnmatch(name, '*.json')] *)
Definition ends_with_json (name : string) : bool :=
  let n := String.length name in
  (5 <=? n)%nat && String.eqb (substring (n - 5) 5 name) ".json".

Definition match_scene_json (name : string) : bool :=
  match rev (parts name) with
  | file :: dir :: _ => String.eqb dir "scene" && ends_with_json file
  | _ => false
  end.

End Path.

Module AdventureBundle.

(** A zip archive: its members, name and data, in archive order. *)
Definition archive : Type := list (string * string).

Section Bundle.

(** The [Scene] class as [perform_scaling] uses it: the three methods
    it calls.  [to_json] returns the text [orjson.dumps] makes of the
    dict, or raises what [orjson.dumps] raises. *)
Context {S : Type}.
Variable from_json_string : string -> result S.
Variable scale_scene : S -> Decimal.t -> result S.
Variable to_json : S -> result string.

(** [zip.namelist()] *)
Definition namelist (zip : archive) : list string := map fst zip.

(** [zip.read(name)]: the data of the last member of that name. *)
Definition read (zip : archive) (name : string) : result string :=
  match find (fun m => String.eqb name (fst m)) (rev zip) with
  | Some m => Ok (snd m)
  | None => Raise KeyError
  end.

(** [zip.writestr(name, data)] *)
Definition writestr (zip : archive) (name data : string) : archive :=
  zip ++ [(name, data)].

(** [scenes[name] = scene] on an insertion-ordered dict. *)
Fixpoint dict_set (scenes : list (string * S)) (name : string) (scene : S)
  : list (string * S) :=
  match scenes with
  | [] => [(name, scene)]
  | (k, v) :: scenes' =>
      if String.eqb name k then (k, scene) :: scenes'
      else (k, v) :: dict_set scenes' name scene
  end.

(** What the [with] block has built so far. *)
Record state : Type := mk_state {
  scenes : list (string * S);
  output_zip_file : archive
}.

(** The body of the first loop. *)
Definition read_item (input_zip_file : archive) (st : state)
    (compressed_item : string) : state * option exn :=
  match read input_zip_file compressed_item with
  | Raise e => (st, Some e)
  | Ok opened_file =>
      if Path.match_scene_json compressed_item then
        match from_json_string opened_file with
        | Raise e => (st, Some e)
        | Ok scene1 =>
            (mk_state (dict_set (scenes st) compressed_item scene1)
                      (output_zip_file st), None)
        end
      else
        (mk_state (scenes st)
                  (writestr (output_zip_file st) compressed_item
                            opened_file), None)
  end.

Fixpoint read_items (input_zip_file : archive) (st : state)
    (file_list : list string) : state * option exn :=
  match file_list with
  | [] => (st, None)
  | compressed_item :: rest =>
      match read_item input_zip_file st compressed_item with
      | (st', None) => read_items input_zip_file st' rest
      | stopped => stopped
      end
  end.

(** [scale_scenes]: every held scene is scaled in place. *)
Definition scale_scenes (scenes : list (string * S)) (scale : Decimal.t)
  : result (list (string * S)) :=
  for_each (fun entry =>
              scene' <- scale_scene (snd entry) scale ;;
              Ok (fst entry, scene')) scenes.

(** The last loop: [scene.to_json()] is evaluated before [writestr] is
    called, so a scene whose [to_json] raises stops the loop with the
    scenes before it written. *)
Fixpoint write_scenes (zip : archive) (scenes : list (string * S))
  : archive * option exn :=
  match scenes with
  | [] => (zip, None)
  | entry :: rest =>
      match to_json (snd entry) with
      | Raise e => (zip, Some e)
      | Ok text => write_scenes (writestr zip (fst entry) text) rest
      end
  end.

(** [copyfile(src, dst)]: [dst] now holds the bytes of [src]. *)
Definition copyfile (src : archive) : archive := src.

(** [ZipFile(path, mode="w")] truncates the file it opens; the archive
    starts with no member. *)
Definition ZipFile_w (file : archive) : archive := [].

(** The file at the output path and the exception raised, if any. *)
Record outcome : Type := mk_outcome {
  output_file : archive;
  raised : option exn
}.

(** [perform_scaling].  [self_scenes] is [self.scenes] on entry (empty
    on a fresh bundle).  Leaving the [with] block, normally or by an
    exception, closes both archives: the output file then holds the
    members written up to that point. *)
Definition perform_scaling (self_scenes : list (string * S))
    (input_file : archive) (scale : Decimal.t) : outcome :=
  let copied := copyfile input_file in
  let input_zip_file := input_file in
  let opened := ZipFile_w copied in
  let file_list := namelist input_zip_file in
  match read_items input_zip_file
                   (mk_state self_scenes opened) file_list with
  | (st, Some e) => mk_outcome (output_zip_file st) (Some e)
  | (st, None) =>
      match scale_scenes (scenes st) scale with
      | Raise e => mk_outcome (output_zip_file st) (Some e)
      | Ok scaled =>
          let written := write_scenes (output_zip_file st) scaled in
          mk_outcome (fst written) (snd written)
      end
  end.

End Bundle.

End AdventureBundle.

(** ** Vocabulary of the statements *)

(** The coefficient has at most [prec] digits: [Decimal._fix] returns
    such a result unrounded. *)
Definition fits (c : Z) : bool := Decimal.ndigits c <=? Decimal.prec.

(** No step of [o * (1 - s) + p * s] is rounded: the difference, the two
    products and the sum all fit the precision. *)
Definition exact_axis (o p s : Decimal.t) : bool :=
  let one_minus_s := Decimal.sub (Decimal.of_int 1) s in
  fits (Decimal.sum_coeff (Decimal.of_int 1) (Decimal.neg s))
  && fits (Decimal.coeff o * Decimal.coeff one_minus_s)
  && fits (Decimal.coeff p * Decimal.coeff s)
  && fits (Decimal.sum_coeff (Decimal.mul o one_minus_s) (Decimal.mul p s)).

(** [out] is [l] scaled member by member: as long as [l], and its i-th
    member is what [f] returns on the i-th member of [l]. *)
Definition scaled_copies {A : Type} (f : A -> result A) (l out : list A)
  : Prop :=
  List.length out = List.length l /\
  forall i a, nth_error l i = Some a ->
    exists b, nth_error out i = Some b /\ f a = Ok b.

(** The scene with another value in its [navigation] attribute. *)
Definition with_navigation (self : Scene.T) (v : json) : Scene.T :=
  {|  Scene._id := Scene._id self; Scene.name := Scene.name self;
      Scene.folder := Scene.folder self; Scene.sort := Scene.sort self;
      Scene.flags := Scene.flags self;
      Scene.description := Scene.description self; Scene.navigation := v;
      Scene.nav_order := Scene.nav_order self;
      Scene.nav_name := Scene.nav_name self;
      Scene.active := Scene.active self;
      Scene.initial := Scene.initial self; Scene.img := Scene.img self;
      Scene.thumb := Scene.thumb self; Scene.width := Scene.width self;
      Scene.height := Scene.height self;
      Scene.padding := Scene.padding self;
      Scene.background_color := Scene.background_color self;
      Scene.tiles := Scene.tiles self;
      Scene.grid_type := Scene.grid_type self;
      Scene.grid := Scene.grid self; Scene.shift_x := Scene.shift_x self;
      Scene.shift_y := Scene.shift_y self;
      Scene.grid_color := Scene.grid_color self;
      Scene.grid_alpha := Scene.grid_alpha self;
      Scene.grid_distance := Scene.grid_distance self;
      Scene.grid_units := Scene.grid_units self;
      Scene.tokens := Scene.tokens self; Scene.walls := Scene.walls self;
      Scene.token_vision := Scene.token_vision self;
      Scene.fog_exploration := Scene.fog_exploration self;
      Scene.lights := Scene.lights self;
      Scene.global_light := Scene.global_light self;
      Scene.global_light_threshold := Scene.global_light_threshold self;
      Scene.darkness := Scene.darkness self;
      Scene.playlist := Scene.playlist self;
      Scene.sounds := Scene.sounds self;
      Scene.templates := Scene.templates self;
      Scene.journal := Scene.journal self; Scene.notes := Scene.notes self;
      Scene.weather := Scene.weather self;
      Scene.drawings := Scene.drawings self;
      Scene.size := Scene.size self |}.

(** The scaled copy [b] agrees with the original [a] on every field but
    the positional ones; one relation per dataclass. *)
Definition same_but_position_token (a b : Token.T) : Prop :=
  Token._id b = Token._id a /\ Token.flags b = Token.flags a /\
  Token.name b = Token.name a /\ Token.displayName b = Token.displayName a /\
  Token.img b = Token.img a /\ Token.tint b = Token.tint a /\
  Token.width b = Token.width a /\ Token.height b = Token.height a /\
  Token.scale b = Token.scale a /\ Token.elevation b = Token.elevation a /\
  Token.lockRotation b = Token.lockRotation a /\
  Token.rotation b = Token.rotation a /\ Token.effects b = Token.effects a /\
  Token.hidden b = Token.hidden a /\ Token.vision b = Token.vision a /\
  Token.dimSight b = Token.dimSight a /\
  Token.brightSight b = Token.brightSight a /\
  Token.dimLight b = Token.dimLight a /\
  Token.brightLight b = Token.brightLight a /\
  Token.sightAngle b = Token.sightAngle a /\
  Token.lightAngle b = Token.lightAngle a /\
  Token.lightAlpha b = Token.lightAlpha a /\
  Token.lightAnimation b = Token.lightAnimation a /\
  Token.actorId b = Token.actorId a /\
  Token.actorLink b = Token.actorLink a /\
  Token.actorData b = Token.actorData a /\
  Token.disposition b = Token.disposition a /\
  Token.displayBars b = Token.displayBars a /\ Token.bar1 b = Token.bar1 a /\
  Token.bar2 b = Token.bar2 a /\ Token.mirrorX b = Token.mirrorX a /\
  Token.mirrorY b = Token.mirrorY a /\
  Token.lightColor b = Token.lightColor a.

Definition same_but_position_wall (a b : Wall.T) : Prop :=
  Wall._id b = Wall._id a /\ Wall.flags b = Wall.flags a /\
  Wall.move b = Wall.move a /\ Wall.sense b = Wall.sense a /\
  Wall.door b = Wall.door a /\ Wall.ds b = Wall.ds a /\
  Wall.dir b = Wall.dir a.

Definition same_but_position_light (a b : Light.T) : Prop :=
  Light._id b = Light._id a /\ Light.flags b = Light.flags a /\
  Light.t b = Light.t a /\ Light.hidden b = Light.hidden a /\
  Light.rotation b = Light.rotation a /\ Light.dim b = Light.dim a /\
  Light.bright b = Light.bright a /\ Light.angle b = Light.angle a /\
  Light.darknessThreshold b = Light.darknessThreshold a /\
  Light.tintAlpha b = Light.tintAlpha a /\
  Light.lightAnimation b = Light.lightAnimation a /\
  Light.tintColor b = Light.tintColor a.

Definition same_but_position_sound (a b : Sound.T) : Prop :=
  Sound._id b = Sound._id a /\ Sound.flags b = Sound.flags a /\
  Sound.path b = Sound.path a /\ Sound.repeat b = Sound.repeat a /\
  Sound.volume b = Sound.volume a /\ Sound.type b = Sound.type a /\
  Sound.radius b = Sound.radius a /\ Sound.easing b = Sound.easing a.

Definition same_but_position_note (a b : Note.T) : Prop :=
  Note._id b = Note._id a /\ Note.flags b = Note.flags a /\
  Note.entryId b = Note.entryId a /\ Note.icon b = Note.icon a /\
  Note.iconSize b = Note.iconSize a /\ Note.iconTint b = Note.iconTint a /\
  Note.text b = Note.text a /\ Note.fontFamily b = Note.fontFamily a /\
  Note.fontSize b = Note.fontSize a /\
  Note.textAnchor b = Note.textAnchor a /\
  Note.textColor b = Note.textColor a.

Definition same_but_position_drawing (a b : Drawing.T) : Prop :=
  Drawing._id b = Drawing._id a /\ Drawing.flags b = Drawing.flags a /\
  Drawing.type b = Drawing.type a /\ Drawing.author b = Drawing.author a /\
  Drawing.width b = Drawing.width a /\ Drawing.height b = Drawing.height a /\
  Drawing.rotation b = Drawing.rotation a /\ Drawing.z b = Drawing.z a /\
  Drawing.hidden b = Drawing.hidden a /\
  Drawing.locked b = Drawing.locked a /\
  Drawing.points b = Drawing.points a /\
  Drawing.bezierFactor b = Drawing.bezierFactor a /\
  Drawing.fillType b = Drawing.fillType a /\
  Drawing.fillColor b = Drawing.fillColor a /\
  Drawing.fillAlpha b = Drawing.fillAlpha a /\
  Drawing.strokeWidth b = Drawing.strokeWidth a /\
  Drawing.strokeColor b = Drawing.strokeColor a /\
  Drawing.strokeAlpha b = Drawing.strokeAlpha a /\
  Drawing.texture b = Drawing.texture a /\ Drawing.text b = Drawing.text a /\
  Drawing.fontFamily b = Drawing.fontFamily a /\
  Drawing.fontSize b = Drawing.fontSize a /\
  Drawing.textColor b = Drawing.textColor a /\
  Drawing.textAlpha b = Drawing.textAlpha a.

(** Every attribute [create] fills with [scene_data.get(key)] holds what
    the document has under the key, [None] when the key is absent. *)
Definition holds_document (d : list (string * json)) (s : Scene.Loaded)
  : Prop :=
  Scene._id s = Scene.get d "_id"
  /\ Scene.name s = Scene.get d "name"
  /\ Scene.folder s = Scene.get d "folder"
  /\ Scene.sort s = Scene.get d "sort"
  /\ Scene.flags s = Scene.get d "flags"
  /\ Scene.description s = Scene.get d "description"
  /\ Scene.navigation s = Scene.get d "navigation"
  /\ Scene.nav_order s = Scene.get d "navOrder"
  /\ Scene.nav_name s = Scene.get d "navName"
  /\ Scene.active s = Scene.get d "active"
  /\ Scene.initial s = Scene.get d "initial"
  /\ Scene.img s = Scene.get d "img"
  /\ Scene.thumb s = Scene.get d "thumb"
  /\ Scene.width s = Scene.get d "width"
  /\ Scene.height s = Scene.get d "height"
  /\ Scene.padding s = Scene.get d "padding"
  /\ Scene.background_color s = Scene.get d "backgroundColor"
  /\ Scene.tiles s = Scene.get d "tiles"
  /\ Scene.grid_type s = Scene.get d "gridType"
  /\ Scene.grid s = Scene.get d "grid"
  /\ Scene.shift_x s = Scene.get d "shiftX"
  /\ Scene.shift_y s = Scene.get d "shiftY"
  /\ Scene.grid_color s = Scene.get d "gridColor"
  /\ Scene.grid_alpha s = Scene.get d "gridAlpha"
  /\ Scene.grid_distance s = Scene.get d "gridDistance"
  /\ Scene.grid_units s = Scene.get d "gridUnits"
  /\ Scene.token_vision s = Scene.get d "tokenVision"
  /\ Scene.fog_exploration s = Scene.get d "fogExploration"
  /\ Scene.global_light s = Scene.get d "globalLight"
  /\ Scene.global_light_threshold s = Scene.get d "globalLightThreshold"
  /\ Scene.darkness s = Scene.get d "darkness"
  /\ Scene.playlist s = Scene.get d "playlist"
  /\ Scene.templates s = Scene.get d "templates"
  /\ Scene.journal s = Scene.get d "journal"
  /\ Scene.weather s = Scene.get d "weather"
  /\ Scene.size s = Scene.get d "size".

(** None of the six collection keys is in the document. *)
Definition no_collections (d : list (string * json)) : Prop :=
  lookup "tokens" d = None /\ lookup "walls" d = None
  /\ lookup "lights" d = None /\ lookup "sounds" d = None
  /\ lookup "notes" d = None /\ lookup "drawings" d = None.

Definition is_dict (v : json) : bool :=
  match v with
  | JObj _ => true
  | _ => false
  end.

(** No two members of the archive have the same name. *)
Definition distinct_names (zip : AdventureBundle.archive) : Prop :=
  NoDup (AdventureBundle.namelist zip).

(** What each statement of [scale_scene] left in the scene it returns. *)
Record scale_scene_steps (self : Scene.T) (scale : Decimal.t)
    (out : Scene.T) : Prop := {
  step_tokens :
    Scene._scale_tokens (Scene.tokens self) (Scene.get_origin self) scale
    = Ok (Scene.tokens out);
  step_walls :
    Scene._scale_walls (Scene.walls self) (Scene.get_origin self) scale
    = Ok (Scene.walls out);
  step_lights :
    Scene._scale_lights (Scene.lights self) (Scene.get_origin self) scale
    = Ok (Scene.lights out);
  step_sounds :
    Scene._scale_sounds (Scene.sounds self) (Scene.get_origin self) scale
    = Ok (Scene.sounds out);
  step_notes :
    Scene._scale_notes (Scene.notes self) (Scene.get_origin self) scale
    = Ok (Scene.notes out);
  step_drawings :
    Scene._scale_drawings (Scene.drawings self) (Scene.get_origin self) scale
    = Ok (Scene.drawings out);
  step_width : Scene.scale_int (Scene.width self) scale = Ok (Scene.width out);
  step_height :
    Scene.scale_int (Scene.height self) scale = Ok (Scene.height out);
  step_grid : Scene.scale_int (Scene.grid self) scale = Ok (Scene.grid out);
  step_shift_x :
    Scene.scale_int (Scene.shift_x self) scale = Ok (Scene.shift_x out);
  step_shift_y :
    Scene.scale_int (Scene.shift_y self) scale = Ok (Scene.shift_y out)
}.

(** [|d| <= 10 ^ m]: the decimal is zero, or its coefficient is at most
    [10 ^ (m - exp d)]. *)
Definition magnitude (d : Decimal.t) (m : Z) : Prop :=
  Decimal.coeff d = 0
  \/ (Decimal.exp d <= m
      /\ Z.abs (Decimal.coeff d) <= 10 ^ (m - Decimal.exp d)).

(** An integer of at most 20 digits, as every 64-bit integer is. *)
Definition int_range (n : Z) : Prop := Z.abs n <= 10 ^ 20.

(** A wall with its four coordinates. *)
Definition wall_range (wall : Wall.T) : Prop :=
  exists x1 y1 x2 y2 rest,
    Wall.c wall = x1 :: y1 :: x2 :: y2 :: rest
    /\ int_range x1 /\ int_range y1 /\ int_range x2 /\ int_range y2.

(** A scene whose integers are in range and whose walls have their four
    coordinates. *)
Definition scene_range (self : Scene.T) : Prop :=
  int_range (Scene.width self) /\ int_range (Scene.height self)
  /\ int_range (Scene.grid self)
  /\ int_range (Scene.shift_x self) /\ int_range (Scene.shift_y self)
  /\ Forall (fun e => int_range (Token.x e) /\ int_range (Token.y e))
       (Scene.tokens self)
  /\ Forall wall_range (Scene.walls self)
  /\ Forall (fun e => int_range (Light.x e) /\ int_range (Light.y e))
       (Scene.lights self)
  /\ Forall (fun e => int_range (Sound.x e) /\ int_range (Sound.y e))
       (Scene.sounds self)
  /\ Forall (fun e => int_range (Note.x e) /\ int_range (Note.y e))
       (Scene.notes self)
  /\ Forall (fun e => int_range (Drawing.x e) /\ int_range (Drawing.y e))
       (Scene.drawings self).

(** ** Sample data *)

Module Sample.

(** [Decimal(2.0)] *)
Definition two : Decimal.t := Decimal.mk 2 0.

(** [Decimal(0.5)] *)
Definition one_half : Decimal.t := Decimal.mk 5 (-1).

(** [Decimal(0.1)]: the float nearest to 0.1, written out in full, as
    [main.py] passes it for a scale ratio of 0.1. *)
Definition tenth : Decimal.t :=
  Decimal.mk 1000000000000000055511151231257827021181583404541015625 (-55).

(** [Decimal(2.2)]: the float nearest to 2.2, written out in full, as
    [main.py] passes it for a scale ratio of 2.2. *)
Definition two_point_two : Decimal.t :=
  Decimal.mk 220000000000000017763568394002504646778106689453125 (-50).

Definition token (x y : Z) : Token.T :=
  Token.mk (JStr "tok") (JObj []) (JStr "Goblin") (JInt 0)
    (JStr "goblin.png") JNull (JInt 1) (JInt 1) (JInt 1)
    x y
    (JInt 0) (JBool false) (JInt 0) (JList []) (JBool false)
    (JBool false) (JInt 0) (JInt 0) (JInt 0) (JInt 0) (JInt 360)
    (JInt 360) (JInt 1) (JObj []) (JStr "actor") (JBool false) (JObj [])
    (JInt (-1)) (JInt 0) (JObj []) (JObj []) JNull JNull JNull.

Definition wall (c : list Z) : Wall.T :=
  Wall.mk (JStr "wall") (JObj []) c (JInt 1) (JInt 1) (JInt 0) (JInt 0)
    (JInt 0).

Definition light (x y : Z) : Light.T :=
  Light.mk (JStr "light") (JObj []) (JStr "l") x y (JBool false) (JInt 0)
    (JInt 10) (JInt 5) (JInt 360) (JInt 0) (JInt 1) (JObj []) (JStr "").

Definition sound (x y : Z) : Sound.T :=
  Sound.mk (JStr "sound") (JObj []) (JStr "wind.ogg") (JBool true)
    (JInt 1) (JStr "l") x y (JInt 10) (JBool true).

Definition note (x y : Z) : Note.T :=
  Note.mk (JStr "note") (JObj []) (JStr "entry") x y (JStr "icon.svg")
    (JInt 40) (JStr "") (JStr "Here") (JStr "Signika") (JInt 48) (JInt 1)
    (JStr "#FFFFFF").

Definition drawing (x y : Z) : Drawing.T :=
  Drawing.mk (JStr "drawing") (JObj []) (JStr "r") (JStr "gm") x y
    (JInt 300) (JInt 200) (JInt 0) (JInt 0) (JBool false) (JBool false)
    (JList []) (JInt 0) (JInt 0) (JStr "#000000") (JInt 1) (JInt 8)
    (JStr "#FFFFFF") (JInt 1) (JStr "") (JStr "") (JStr "Signika")
    (JInt 48) (JStr "#FFFFFF") (JInt 1).

(** A scene of the given size and grid shift holding the given tokens
    and walls and one light, sound, note and drawing. *)
Definition scene (width height grid shift_x shift_y : Z)
    (tokens : list Token.T) (walls : list Wall.T) : Scene.T :=
  Scene.mk (JStr "scene") (JStr "Cave") JNull (JInt 0) (JObj [])
    (JStr "A damp cave") (JBool true) (JInt 0) (JStr "") (JBool false)
    JNull (JStr "cave.jpg") (JStr "thumb.png")
    width height
    (JFloat 1 (-2)) (JStr "#999999") (JList []) (JInt 1)
    grid shift_x shift_y
    (JStr "#000000") (JFloat 1 (-1)) (JInt 5) (JStr "ft")
    tokens walls
    (JBool true) (JBool true)
    [light 75 75]
    (JBool false) JNull (JInt 0) (JStr "")
    [sound 25 125]
    (JList []) (JStr "")
    [note 325 25]
    (JStr "")
    [drawing 26 24]
    JNull.

(** The scene of the worked example: grid shift (50, 50), width 1000,
    a token at (125, 25), a wall from (0, 0) to (100, 100). *)
Definition cave : Scene.T :=
  scene 1000 800 100 50 50 [token 125 25] [wall [0; 0; 100; 100]].

(** An archive of three members; the text of its scene is the JSON
    list [[]], not an object. *)
Definition bundle : AdventureBundle.archive :=
  [ ("thumb.png", "PNG"); ("scene/cave.json", "[]");
    ("module.json", "{}") ]%string.

(** A scene with a wall of three coordinates. *)
Definition pit : Scene.T :=
  scene 1000 800 100 50 50 [] [wall [0; 0; 100; 100]; wall [1; 2; 3]].

(** [Scene.from_json_string] on the texts of the two scenes above, which
    are written [<cave>] and [<pit>]; any other text here is not JSON. *)
Definition from_json_string (text : string) : result Scene.T :=
  if String.eqb text "<cave>" then Ok cave
  else if String.eqb text "<pit>" then Ok pit
  else Raise JSONDecodeError.

(** [Scene.to_json] on the scenes of the samples, whose integers
    [orjson.dumps] accepts; the text is written [<scene>]. *)
Definition to_json (self : Scene.T) : result string := Ok "<scene>"%string.

(** [orjson.loads] on the two JSON texts of [bundle]. *)
Definition loads (text : string) : result json :=
  if String.eqb text "[]" then Ok (JList [])
  else if String.eqb text "{}" then Ok (JObj [])
  else Raise JSONDecodeError.

End Sample.

(** ** Vocabulary of the further properties *)

(** The point reflected through (0, 0). *)
Definition reflect (p : Point.T) : Point.T :=
  Point.mk (Decimal.neg (Point.x p)) (Decimal.neg (Point.y p)).

(** Where an entity at (x, y) is put: the rounded image of the point
    under the dilation, as every [_scale_*] loop computes it. *)
Definition scaled_position (origin : Point.T) (scale : Decimal.t) (x y : Z)
  : result (Z * Z) :=
  let p :=
    Point.translate_point
      (Point.mk (Decimal.of_int x) (Decimal.of_int y)) origin scale in
  nx <- Point.integer_x p ;;
  ny <- Point.integer_y p ;;
  Ok (nx, ny).

(** A scale of magnitude at most 10 written with at most five decimal
    places, as 2, 1.5 or 0.125 are. *)
Definition short_scale (s : Decimal.t) : Prop :=
  -5 <= Decimal.exp s <= 0
  /\ Z.abs (Decimal.coeff s) <= 10 ^ (1 - Decimal.exp s).

(** The image of the coordinate [x] under the dilation of ratio [s]
    about half the shift, in rational arithmetic. *)
Definition dilated (shift x : Z) (s : Decimal.t) : Q :=
  (inject_Z shift * (1 # 2) * (1 - Decimal.to_Q s)
   + inject_Z x * Decimal.to_Q s)%Q.

(** No operation of [translate_point] rounds, on either axis. *)
Definition exact_point (origin point : Point.T) (s : Decimal.t) : bool :=
  exact_axis (Point.x origin) (Point.x point) s
  && exact_axis (Point.y origin) (Point.y point) s.

(** Every wall of the scene has exactly its four coordinates. *)
Definition four_coordinates (self : Scene.T) : Prop :=
  Forall (fun wall => List.length (Wall.c wall) = 4%nat) (Scene.walls self).

(** The scene [b] agrees with the scene [a] on every attribute that is
    neither a sizing field nor a collection. *)
Definition same_but_geometry (a b : Scene.T) : Prop :=
  Scene._id b = Scene._id a
  /\ Scene.name b = Scene.name a
  /\ Scene.folder b = Scene.folder a
  /\ Scene.sort b = Scene.sort a
  /\ Scene.flags b = Scene.flags a
  /\ Scene.description b = Scene.description a
  /\ Scene.navigation b = Scene.navigation a
  /\ Scene.nav_order b = Scene.nav_order a
  /\ Scene.nav_name b = Scene.nav_name a
  /\ Scene.active b = Scene.active a
  /\ Scene.initial b = Scene.initial a
  /\ Scene.img b = Scene.img a
  /\ Scene.thumb b = Scene.thumb a
  /\ Scene.padding b = Scene.padding a
  /\ Scene.background_color b = Scene.background_color a
  /\ Scene.tiles b = Scene.tiles a
  /\ Scene.grid_type b = Scene.grid_type a
  /\ Scene.grid_color b = Scene.grid_color a
  /\ Scene.grid_alpha b = Scene.grid_alpha a
  /\ Scene.grid_distance b = Scene.grid_distance a
  /\ Scene.grid_units b = Scene.grid_units a
  /\ Scene.token_vision b = Scene.token_vision a
  /\ Scene.fog_exploration b = Scene.fog_exploration a
  /\ Scene.global_light b = Scene.global_light a
  /\ Scene.global_light_threshold b = Scene.global_light_threshold a
  /\ Scene.darkness b = Scene.darkness a
  /\ Scene.playlist b = Scene.playlist a
  /\ Scene.templates b = Scene.templates a
  /\ Scene.journal b = Scene.journal a
  /\ Scene.weather b = Scene.weather a
  /\ Scene.size b = Scene.size a.

(** A wall with fewer than four coordinates. *)
Definition short_wall (wall : Wall.T) : Prop :=
  (List.length (Wall.c wall) < 4)%nat.

(** The member is a scene of the archive: its name matches
    [scene/*.json]. *)
Definition is_scene (m : string * string) : bool :=
  Path.match_scene_json (fst m).

(** The members the first loop writes as they are, in archive order. *)
Definition pass_through (zip : AdventureBundle.archive)
  : AdventureBundle.archive :=
  filter (fun m => negb (is_scene m)) zip.

(** The members the first loop parses, in archive order. *)
Definition scene_members (zip : AdventureBundle.archive)
  : AdventureBundle.archive :=
  filter is_scene zip.

(** The entry [p] of [self.scenes] is the member [m] parsed. *)
Definition parsed_as {S : Type} (from_json_string : string -> result S)
    (m : string * string) (p : string * S) : Prop :=
  fst p = fst m /\ from_json_string (snd m) = Ok (snd p).

(** The entry [q] of [self.scenes] after [scale_scenes] is the member
    [m] parsed and scaled. *)
Definition scaled_as {S : Type} (from_json_string : string -> result S)
    (scale_scene : S -> Decimal.t -> result S) (scale : Decimal.t)
    (m : string * string) (q : string * S) : Prop :=
  fst q = fst m
  /\ exists scene,
       from_json_string (snd m) = Ok scene
       /\ scale_scene scene scale = Ok (snd q).

(** The member [out] is the entry [q] as the last loop writes it. *)
Definition written_as {S : Type} (to_json : S -> result string)
    (q : string * S) (out : string * string) : Prop :=
  fst out = fst q /\ to_json (snd q) = Ok (snd out).

(** The scene member [m] parses, its scene scales and the scaled scene
    is serialised. *)
Definition serialises {S : Type} (from_json_string : string -> result S)
    (scale_scene : S -> Decimal.t -> result S)
    (to_json : S -> result string) (scale : Decimal.t)
    (m : string * string) : Prop :=
  exists scene scaled text,
    from_json_string (snd m) = Ok scene
    /\ scale_scene scene scale = Ok scaled
    /\ to_json scaled = Ok text.

(** The member [out] has the name of [m] and for data the text of the
    scene of [m], scaled. *)
Definition rewritten {S : Type} (from_json_string : string -> result S)
    (scale_scene : S -> Decimal.t -> result S)
    (to_json : S -> result string)
    (scale : Decimal.t) (m out : string * string) : Prop :=
  fst out = fst m
  /\ exists scene scaled,
       from_json_string (snd m) = Ok scene
       /\ scale_scene scene scale = Ok scaled
       /\ to_json scaled = Ok (snd out).

(** The name of one path component: it has no slash. *)
Fixpoint no_slash (s : string) : bool :=
  match s with
  | EmptyString => true
  | String ch s' => negb (Ascii.eqb ch "/"%char) && no_slash s'
  end.

(** A component that [Path] keeps: not empty and not the dot. *)
Definition component (s : string) : bool :=
  no_slash s && negb (String.eqb s "" || String.eqb s ".")%string.

(** What [__init__] binds to the field [f] from the keyword arguments
    [d]: the argument of that name, else the default of the field. *)
Definition bound_value (d : list (string * json))
    (f : string * option json) : option json :=
  match lookup (fst f) d with
  | Some v => Some v
  | None => snd f
  end.

(** The keyword arguments [d] fit the signature: every name is a
    declared field and every field without default is given. *)
Definition accepts (fields : Scene.signature) (d : list (string * json))
  : Prop :=
  (forall kv, In kv d -> Scene.declares fields (fst kv) = true)
  /\ (forall f, In f fields -> bound_value d f <> None).

(** The instance holds the fields of the signature, in its order, each
    with the value bound to it. *)
Definition initialised (fields : Scene.signature) (d : list (string * json))
    (inst : Scene.instance) : Prop :=
  Forall2 (fun f kv => fst kv = fst f /\ bound_value d f = Some (snd kv))
          fields inst.

(** The value under [key] is one [create] can build a collection from:
    no value, a list of items the dataclass accepts, or a dict or str
    with nothing to iterate over. *)
Definition accepted_collection (fields : Scene.signature) (key : string)
    (d : list (string * json)) : Prop :=
  match lookup key d with
  | None => True
  | Some (JList items) =>
      Forall (fun item => exists inst,
                Scene.dataclass_init fields item = Ok inst) items
  | Some (JObj o) => o = []
  | Some (JStr s) => s = EmptyString
  | Some _ => False
  end.

(** The collection holds one instance per item of the list under [key],
    in the order of the list, and nothing when there is no list. *)
Definition built_from (fields : Scene.signature) (key : string)
    (d : list (string * json)) (insts : list Scene.instance) : Prop :=
  match lookup key d with
  | Some (JList items) =>
      Forall2 (fun item inst => Scene.dataclass_init fields item = Ok inst)
              items insts
  | _ => insts = []
  end.

(** How far scaling by n and then by its inverse [s'] moves a
    coordinate, in a scene of grid shift 2h: [h * (n - 2 + 1/n)]. *)
Definition drift (h n : Z) (s' : Decimal.t) : Q :=
  (inject_Z h * (inject_Z n - 2 + Decimal.to_Q s'))%Q.

(** The scene holds at least one entity. *)
Definition has_entity (self : Scene.T) : Prop :=
  Scene.tokens self <> [] \/ Scene.walls self <> []
  \/ Scene.lights self <> [] \/ Scene.sounds self <> []
  \/ Scene.notes self <> [] \/ Scene.drawings self <> [].

(** The coordinates [scale_wall] reads are in range: the wall has fewer
    than four coordinates, or its first four have at most 20 digits. *)
Definition wall_range_or_short (wall : Wall.T) : Prop :=
  short_wall wall \/ wall_range wall.

(** A scene whose integers are in range, whatever the length of its
    walls. *)
Definition scene_range_any_walls (self : Scene.T) : Prop :=
  int_range (Scene.width self) /\ int_range (Scene.height self)
  /\ int_range (Scene.grid self)
  /\ int_range (Scene.shift_x self) /\ int_range (Scene.shift_y self)
  /\ Forall (fun e => int_range (Token.x e) /\ int_range (Token.y e))
       (Scene.tokens self)
  /\ Forall wall_range_or_short (Scene.walls self)
  /\ Forall (fun e => int_range (Light.x e) /\ int_range (Light.y e))
       (Scene.lights self)
  /\ Forall (fun e => int_range (Sound.x e) /\ int_range (Sound.y e))
       (Scene.sounds self)
  /\ Forall (fun e => int_range (Note.x e) /\ int_range (Note.y e))
       (Scene.notes self)
  /\ Forall (fun e => int_range (Drawing.x e) /\ int_range (Drawing.y e))
       (Scene.drawings self).

(** The entity at (x, y) is put at (nx, ny): the integers [integer_x]
    and [integer_y] return for the image of its point under the dilation
    about [origin]. *)
Definition placed (origin : Point.T) (scale : Decimal.t) (x y nx ny : Z)
  : Prop :=
  Point.integer_x
    (Point.translate_point
       (Point.mk (Decimal.of_int x) (Decimal.of_int y)) origin scale)
  = Ok nx
  /\ Point.integer_y
       (Point.translate_point
          (Point.mk (Decimal.of_int x) (Decimal.of_int y)) origin scale)
     = Ok ny.

(** The collection [out] is the collection [l] with every entity put at
    the image of its position under the dilation about [origin]; [px]
    and [py] read the position of an entity. *)
Definition moved_about {A : Type} (origin : Point.T) (scale : Decimal.t)
    (px py : A -> Z) (l out : list A) : Prop :=
  List.length out = List.length l
  /\ forall i a, nth_error l i = Some a ->
       exists b, nth_error out i = Some b
                 /\ placed origin scale (px a) (py a) (px b) (py b).

(** The same for the walls, whose two endpoints are both moved. *)
Definition walls_moved_about (origin : Point.T) (scale : Decimal.t)
    (l out : list Wall.T) : Prop :=
  List.length out = List.length l
  /\ forall i a, nth_error l i = Some a ->
       exists b x1 y1 x2 y2 rest nx1 ny1 nx2 ny2,
         nth_error out i = Some b
         /\ Wall.c a = x1 :: y1 :: x2 :: y2 :: rest
         /\ Wall.c b = [nx1; ny1; nx2; ny2]
         /\ placed origin scale x1 y1 nx1 ny1
         /\ placed origin scale x2 y2 nx2 ny2.

(** Every entity of [l] whose position has at most 20 digits is, in
    [out], at the image of its position under the dilation of ratio
    [scale] about half the grid shift of [self], taken in rational
    arithmetic and rounded half to even. *)
Definition dilated_about_half_shift {A : Type} (self : Scene.T)
    (scale : Decimal.t) (px py : A -> Z) (l out : list A) : Prop :=
  forall i a, nth_error l i = Some a ->
    int_range (px a) -> int_range (py a) ->
    exists b,
      nth_error out i = Some b
      /\ px b = Decimal.Qround_half_even
                  (dilated (Scene.shift_x self) (px a) scale)
      /\ py b = Decimal.Qround_half_even
                  (dilated (Scene.shift_y self) (py a) scale).

(** * Properties *)

(** ** The length of a coefficient *)

Module DecimalFacts.
Import Decimal.

Lemma ndigits_fuel_spec (fuel : nat) :
  forall n, 0 < n -> Z.log2 n <= Z.of_nat fuel ->
    1 <= ndigits_fuel fuel n /\
    10 ^ (ndigits_fuel fuel n - 1) <= n < 10 ^ ndigits_fuel fuel n.
Proof.
  induction fuel as [|fuel IH]; intros n Hn Hlog.
  - assert (n = 1).
    { destruct (Z.eq_dec n 1) as [->|Hne]; [reflexivity|].
      assert (1 <= Z.log2 n) by (apply (Z.log2_le_mono 2 n); lia).
      simpl in Hlog. lia. }
    subst n. simpl. lia.
  - cbn [ndigits_fuel]. destruct (Z.ltb_spec n 10) as [Hlt|Hge].
    + change (1 - 1) with 0. change (10 ^ 0) with 1. change (10 ^ 1) with 10. lia.
    + assert (Hdiv : 0 < n / 10) by (apply Z.div_str_pos; lia).
      assert (Hlog' : Z.log2 (n / 10) <= Z.of_nat fuel).
      { assert (Z.log2 (n / 10) <= Z.log2 (n / 2)).
        { apply Z.log2_le_mono.
          apply Z.div_le_compat_l; lia. }
        assert (Z.log2 (n / 2) = Z.log2 n - 1).
        { replace (n / 2) with (Z.shiftr n 1)
            by (rewrite Z.shiftr_div_pow2 by lia; reflexivity).
          rewrite Z.log2_shiftr by lia.
          assert (1 <= Z.log2 n) by (apply (Z.log2_le_mono 2 n); lia).
          lia. }
        lia. }
      destruct (IH (n / 10) Hdiv Hlog') as [H1 [Hlo Hhi]].
      set (d := ndigits_fuel fuel (n / 10)) in *.
      split; [lia|].
      replace (1 + d - 1) with (Z.succ (d - 1)) by lia.
      replace (1 + d) with (Z.succ d) by lia.
      rewrite !Z.pow_succ_r by lia.
      pose proof (Z.div_mod n 10 ltac:(lia)) as Hdm.
      pose proof (Z.mod_pos_bound n 10 ltac:(lia)) as Hmod.
      lia.
Qed.

Lemma ndigits_pos (c : Z) : 1 <= ndigits c.
Proof.
  unfold ndigits. destruct (Z.eq_dec c 0) as [->|Hc].
  - simpl. lia.
  - apply ndigits_fuel_spec; [lia|].
    rewrite Z2Nat.id by apply Z.log2_nonneg. lia.
Qed.

Lemma ndigits_bounds (c : Z) :
  c <> 0 -> 10 ^ (ndigits c - 1) <= Z.abs c < 10 ^ ndigits c.
Proof.
  intros Hc. unfold ndigits. apply ndigits_fuel_spec; [lia|].
  rewrite Z2Nat.id by apply Z.log2_nonneg. lia.
Qed.

(** A coefficient below [10 ^ m] has at most [m] digits. *)
Lemma ndigits_le (c m : Z) : 1 <= m -> Z.abs c < 10 ^ m -> ndigits c <= m.
Proof.
  intros Hm Hlt. destruct (Z.eq_dec c 0) as [->|Hc].
  - change (ndigits 0) with 1. lia.
  - pose proof (ndigits_bounds c Hc) as [Hlo _].
    pose proof (ndigits_pos c) as Hpos.
    destruct (Z_le_gt_dec (ndigits c) m) as [|Hgt]; [assumption|].
    exfalso.
    assert (10 ^ m <= 10 ^ (ndigits c - 1)) by (apply Z.pow_le_mono_r; lia).
    lia.
Qed.

(** *** The value of a result *)

Lemma Qpower10_nonneg (e : Z) :
  0 <= e -> ((10 # 1) ^ e == inject_Z (10 ^ e))%Q.
Proof.
  intros He. rewrite Zpower_Qpower by assumption. reflexivity.
Qed.

Lemma Qten_nonzero : ~ ((10 # 1) == 0)%Q.
Proof. discriminate. Qed.

(** A result that fits the precision is returned as it is. *)
Lemma fix_exact (d : t) : ndigits (coeff d) <= prec -> fix_ d = d.
Proof.
  intros H. unfold fix_.
  destruct (Z.leb_spec (ndigits (coeff d)) prec); [reflexivity|lia].
Qed.

Lemma to_Q_of_int (n : Z) : (to_Q (of_int n) == inject_Z n)%Q.
Proof. unfold to_Q, of_int. simpl. ring. Qed.

Lemma to_Q_neg (a : t) : (to_Q (neg a) == - to_Q a)%Q.
Proof.
  unfold to_Q, neg. simpl. rewrite inject_Z_opp. ring.
Qed.

Lemma to_Q_product (a b : t) :
  (to_Q (mk (coeff a * coeff b) (exp a + exp b)) == to_Q a * to_Q b)%Q.
Proof.
  unfold to_Q. simpl.
  rewrite inject_Z_mult, Qpower_plus by apply Qten_nonzero. ring.
Qed.

Lemma to_Q_shift (c e e' : Z) :
  e' <= e ->
  (inject_Z (c * 10 ^ (e - e')) * (10 # 1) ^ e' == inject_Z c * (10 # 1) ^ e)%Q.
Proof.
  intros Hle.
  rewrite inject_Z_mult, <- Qpower10_nonneg by lia.
  rewrite <- Qmult_assoc, <- Qpower_plus by apply Qten_nonzero.
  replace (e - e' + e') with e by lia. reflexivity.
Qed.

Lemma to_Q_sum (a b : t) :
  (to_Q (mk (sum_coeff a b) (Z.min (exp a) (exp b))) == to_Q a + to_Q b)%Q.
Proof.
  unfold to_Q, sum_coeff. simpl.
  rewrite inject_Z_plus, Qmult_plus_distr_l.
  rewrite !to_Q_shift by lia. reflexivity.
Qed.

(** [a * b] is exact when the product of the coefficients fits. *)
Lemma to_Q_mul_exact (a b : t) :
  ndigits (coeff a * coeff b) <= prec ->
  (to_Q (mul a b) == to_Q a * to_Q b)%Q.
Proof.
  intros H. unfold mul. rewrite fix_exact by exact H. apply to_Q_product.
Qed.

(** [a + b] is exact when the aligned sum fits. *)
Lemma to_Q_add_exact (a b : t) :
  ndigits (sum_coeff a b) <= prec ->
  (to_Q (add a b) == to_Q a + to_Q b)%Q.
Proof.
  intros H. unfold add. rewrite fix_exact by exact H. apply to_Q_sum.
Qed.

Lemma to_Q_sub_exact (a b : t) :
  ndigits (sum_coeff a (neg b)) <= prec ->
  (to_Q (sub a b) == to_Q a - to_Q b)%Q.
Proof.
  intros H. unfold sub. rewrite to_Q_add_exact by exact H.
  rewrite to_Q_neg. reflexivity.
Qed.

(** *** Rounding to an integer *)

Lemma round_half_even_zround (n k : Z) :
  round_half_even n k = zround n (10 ^ k).
Proof. reflexivity. Qed.

Lemma even_succ_negb (q : Z) : Z.even (q + 1) = negb (Z.even q).
Proof.
  rewrite Z.add_1_r, Z.even_succ, <- Z.negb_even. reflexivity.
Qed.

(** Rounding the magnitude and restoring the sign is rounding the
    signed quotient: half-even is symmetric. *)
Lemma sgn_zround (c p : Z) :
  0 < p -> Z.sgn c * zround (Z.abs c) p = zround c p.
Proof.
  intros Hp. destruct (Z.lt_trichotomy c 0) as [Hc|[->|Hc]].
  - rewrite Z.sgn_neg, Z.abs_neq by lia. unfold zround.
    pose proof (Z.mod_pos_bound c p Hp) as Hm.
    destruct (Z.eq_dec (c mod p) 0) as [Hz|Hnz].
    + rewrite Z.mod_opp_l_z, Z.div_opp_l_z by lia.
      rewrite Hz. simpl (2 * 0).
      destruct (Z.compare_spec 0 p); lia.
    + rewrite Z.mod_opp_l_nz, Z.div_opp_l_nz by lia.
      destruct (Z.compare_spec (2 * (p - c mod p)) p);
        destruct (Z.compare_spec (2 * (c mod p)) p); try lia.
      replace (- (c / p) - 1) with (- (c / p + 1)) by lia.
      rewrite Z.even_opp, even_succ_negb.
      destruct (Z.even (c / p)); cbn [negb]; lia.
  - simpl. unfold zround. rewrite Z.mod_0_l, Z.div_0_l by lia.
    destruct (Z.compare_spec (2 * 0) p); cbn [Z.even]; lia.
  - rewrite Z.sgn_pos, Z.abs_eq by lia. lia.
Qed.

Lemma zround_1 (c : Z) : zround c 1 = c.
Proof.
  unfold zround. rewrite Z.mod_1_r, Z.div_1_r. reflexivity.
Qed.

Lemma Qround_half_even_comp (q q' : Q) :
  (q == q')%Q -> Qround_half_even q = Qround_half_even q'.
Proof.
  intros H. unfold Qround_half_even.
  rewrite (Qfloor_comp _ _ H).
  assert (Hc : ((q - inject_Z (Qfloor q') ?= 1 # 2)
                = (q' - inject_Z (Qfloor q') ?= 1 # 2))%Q)
    by (rewrite H; reflexivity).
  rewrite Hc. reflexivity.
Qed.

Lemma Qround_half_even_frac (c : Z) (p : positive) :
  Qround_half_even (c # p) = zround c (Z.pos p).
Proof.
  unfold Qround_half_even, zround. cbn [Qfloor].
  assert (Hc : ((c # p) - inject_Z (c / Z.pos p) ?= 1 # 2)%Q
               = (2 * (c mod Z.pos p) ?= Z.pos p)).
  { unfold Qcompare, Qminus, Qplus, Qopp, inject_Z. cbn [Qnum Qden].
    rewrite Z.mod_eq by lia.
    rewrite Pos.mul_1_r.
    f_equal; lia. }
  rewrite Hc. reflexivity.
Qed.

Lemma to_Q_negative_exp (c e : Z) :
  e < 0 ->
  (inject_Z c * (10 # 1) ^ e == c # Z.to_pos (10 ^ (- e)))%Q.
Proof.
  intros He.
  assert (Hp : 0 < 10 ^ (- e)) by (apply Z.pow_pos_nonneg; lia).
  rewrite (Qmake_Qdiv c), Z2Pos.id by exact Hp.
  replace e with (- - e) at 1 by lia.
  rewrite Qpower_opp, Qpower10_nonneg by lia. reflexivity.
Qed.

(** The coefficient [quantize_1] computes is the half-even rounding of
    the value. *)
Lemma rescaled_spec (c e : Z) :
  (if 0 <=? e then c * 10 ^ e else round_signed c (- e))
  = Qround_half_even (inject_Z c * (10 # 1) ^ e).
Proof.
  destruct (Z.leb_spec 0 e) as [He|He].
  - rewrite (Qround_half_even_comp _ ((c * 10 ^ e) # 1)).
    + rewrite Qround_half_even_frac, zround_1. reflexivity.
    + rewrite Qpower10_nonneg, <- inject_Z_mult by exact He. reflexivity.
  - assert (Hp : 0 < 10 ^ (- e)) by (apply Z.pow_pos_nonneg; lia).
    rewrite (Qround_half_even_comp _ _ (to_Q_negative_exp c e He)).
    rewrite Qround_half_even_frac, Z2Pos.id by exact Hp.
    unfold round_signed. rewrite round_half_even_zround.
    apply sgn_zround. exact Hp.
Qed.

Lemma quantize_1_spec (d q : t) :
  quantize_1 d = Ok q ->
  exp q = 0 /\ coeff q = Qround_half_even (to_Q d).
Proof.
  unfold quantize_1, to_Q. destruct d as [c e]. cbn [coeff exp].
  pose proof (rescaled_spec c e) as Hspec.
  destruct (Z.eqb_spec c 0) as [->|Hc].
  - intros [= <-]. cbn [coeff exp]. split; [reflexivity|].
    rewrite <- Hspec. unfold round_signed. simpl.
    destruct (0 <=? e); reflexivity.
  - destruct (prec <? ndigits c + e); [discriminate|].
    destruct (prec <? ndigits _); [discriminate|].
    intros [= <-]. cbn [coeff exp]. split; [reflexivity|exact Hspec].
Qed.

(** [int(d.quantize(Decimal(1)))], when it does not raise, is the
    half-even rounding of the value of [d]. *)
Lemma round_to_int_spec (d : t) (r : Z) :
  round_to_int d = Ok r -> r = Qround_half_even (to_Q d).
Proof.
  unfold round_to_int. destruct (quantize_1 d) as [q|err] eqn:Hq;
    [|discriminate].
  cbn [bind]. intros [= <-].
  destruct (quantize_1_spec d q Hq) as [He Hc].
  unfold to_int. rewrite He. cbn. lia.
Qed.

(** Half-way between [n] and [n + 1] the even one is taken. *)
Lemma Qround_half_even_tie (q : Q) (n : Z) :
  (q == inject_Z n + (1 # 2))%Q ->
  Qround_half_even q = if Z.even n then n else n + 1.
Proof.
  intros H.
  rewrite (Qround_half_even_comp _ ((2 * n + 1) # 2)).
  - rewrite Qround_half_even_frac. unfold zround.
    assert (Hd : (2 * n + 1) / 2 = n)
      by (symmetry; apply (Z.div_unique _ _ _ 1); lia).
    assert (Hm : (2 * n + 1) mod 2 = 1)
      by (symmetry; apply (Z.mod_unique _ _ n); lia).
    rewrite Hd, Hm. reflexivity.
  - rewrite H. unfold Qeq, Qplus, inject_Z. cbn [Qnum Qden]. lia.
Qed.

(** *** When rounding to an integer does not raise *)

Lemma zround_bound (n p B : Z) :
  0 < p -> 0 <= n -> n <= B * p -> 0 <= zround n p <= B.
Proof.
  intros Hp Hn HB. unfold zround.
  pose proof (Z.div_mod n p ltac:(lia)) as Hdm.
  pose proof (Z.mod_pos_bound n p Hp) as Hm.
  assert (Hq : 0 <= n / p) by (apply Z.div_pos; lia).
  assert (HqB : n / p <= B).
  { apply Z.div_le_upper_bound; [exact Hp|lia]. }
  destruct (Z.eq_dec (n / p) B) as [Heq|Hne].
  - assert (n mod p = 0) by nia.
    destruct (Z.compare_spec (2 * (n mod p)) p); lia.
  - destruct (Z.compare_spec (2 * (n mod p)) p); try lia.
    destruct (Z.even (n / p)); lia.
Qed.

Lemma abs_round_signed (c k : Z) :
  Z.abs (round_signed c k) = Z.abs (Z.sgn c) * Z.abs (round_half_even (Z.abs c) k).
Proof. unfold round_signed. apply Z.abs_mul. Qed.

(** [quantize_1] does not raise when the integer part has at most 28
    digits, before and after rounding. *)
Lemma quantize_1_total (c e : Z) :
  (0 <= e -> Z.abs c * 10 ^ e <= 10 ^ prec - 1) ->
  (e < 0 -> Z.abs c <= (10 ^ prec - 1) * 10 ^ (- e)) ->
  exists q, quantize_1 (mk c e) = Ok q.
Proof.
  intros Hnonneg Hneg. unfold quantize_1. cbn [coeff exp].
  destruct (Z.eqb_spec c 0) as [->|Hc]; [eauto|].
  pose proof (ndigits_bounds c Hc) as [Hlo _].
  pose proof (ndigits_pos c) as Hnd.
  destruct (Z.leb_spec 0 e) as [He|He].
  - pose proof (Hnonneg He) as Hz.
    assert (Hpe : 0 < 10 ^ e) by (apply Z.pow_pos_nonneg; lia).
    assert (Hfit : ndigits c + e <= prec).
    { destruct (Z_le_gt_dec (ndigits c + e) prec) as [|Hgt];
        [assumption|exfalso].
      assert (H : 10 ^ prec <= 10 ^ (ndigits c - 1 + e))
        by (apply Z.pow_le_mono_r; lia).
      rewrite Z.pow_add_r in H by lia. nia. }
    destruct (Z.ltb_spec prec (ndigits c + e)); [lia|].
    assert (ndigits (c * 10 ^ e) <= prec).
    { apply ndigits_le; [unfold prec; lia|].
      rewrite Z.abs_mul, (Z.abs_eq (10 ^ e)) by lia. lia. }
    destruct (Z.ltb_spec prec (ndigits (c * 10 ^ e))); [lia|eauto].
  - pose proof (Hneg He) as Hz.
    assert (Hp : 0 < 10 ^ (- e)) by (apply Z.pow_pos_nonneg; lia).
    assert (Hfit : ndigits c + e <= prec).
    { assert (ndigits c <= prec + - e); [|lia].
      apply ndigits_le; [unfold prec; lia|].
      rewrite Z.pow_add_r by (unfold prec; lia). lia. }
    destruct (Z.ltb_spec prec (ndigits c + e)); [lia|].
    assert (ndigits (round_signed c (- e)) <= prec).
    { apply ndigits_le; [unfold prec; lia|].
      rewrite abs_round_signed, round_half_even_zround.
      pose proof (zround_bound (Z.abs c) (10 ^ (- e)) (10 ^ prec - 1)
                    Hp (Z.abs_nonneg c) Hz) as Hr.
      rewrite (Z.abs_eq (zround _ _)) by lia.
      assert (Z.abs (Z.sgn c) = 1) by lia. lia. }
    destruct (Z.ltb_spec prec (ndigits (round_signed c (- e)))); [lia|eauto].
Qed.

(** A decimal of magnitude at most [10 ^ 28 - 1] rounds to an integer
    without InvalidOperation. *)
Lemma round_to_int_total (d : t) :
  (Qabs (to_Q d) <= inject_Z (10 ^ prec - 1))%Q ->
  exists r, round_to_int d = Ok r.
Proof.
  intros Hbound.
  assert (Hq : exists q, quantize_1 d = Ok q);
    [|destruct Hq as [q Hq]; unfold round_to_int; rewrite Hq;
      cbn [bind]; eauto].
  unfold to_Q in Hbound. destruct d as [c e]. cbn [coeff exp] in *.
  apply quantize_1_total; intros He.
  - rewrite Qpower10_nonneg, <- inject_Z_mult in Hbound by exact He.
    assert (Hz : Z.abs (c * 10 ^ e) <= 10 ^ prec - 1).
    { rewrite Zle_Qle. exact Hbound. }
    assert (Hpe : 0 < 10 ^ e) by (apply Z.pow_pos_nonneg; lia).
    rewrite Z.abs_mul, (Z.abs_eq (10 ^ e)) in Hz by lia. exact Hz.
  - assert (Hp : 0 < 10 ^ (- e)) by (apply Z.pow_pos_nonneg; lia).
    rewrite (to_Q_negative_exp c e He) in Hbound.
    unfold Qabs, Qle, inject_Z in Hbound. cbn [Qnum Qden] in Hbound.
    rewrite Z2Pos.id in Hbound by exact Hp. lia.
Qed.

End DecimalFacts.

(** ** Loops *)

Section ForEach.
Context {A B : Type} (f : A -> result B).

Lemma for_each_cons_inv (a : A) (l : list A) (out : list B) :
  for_each f (a :: l) = Ok out ->
  exists b out', out = b :: out' /\ f a = Ok b /\ for_each f l = Ok out'.
Proof.
  cbn [for_each]. destruct (f a) as [b|e]; [|discriminate].
  cbn [bind]. destruct (for_each f l) as [out'|e]; [|discriminate].
  cbn [bind]. intros [= <-]. eauto.
Qed.

Lemma for_each_length (l : list A) (out : list B) :
  for_each f l = Ok out -> List.length out = List.length l.
Proof.
  revert out. induction l as [|a l IH]; intros out H.
  - injection H as <-. reflexivity.
  - apply for_each_cons_inv in H as (b & out' & -> & _ & H).
    cbn [List.length]. f_equal. apply IH. exact H.
Qed.

Lemma for_each_nth (l : list A) (out : list B) :
  for_each f l = Ok out ->
  forall i a, nth_error l i = Some a ->
    exists b, nth_error out i = Some b /\ f a = Ok b.
Proof.
  revert out. induction l as [|a l IH]; intros out H i x Hi.
  - destruct i; discriminate.
  - apply for_each_cons_inv in H as (b & out' & -> & Hb & H).
    destruct i as [|i].
    + injection Hi as <-. exists b. split; [reflexivity|exact Hb].
    + cbn [nth_error] in *. eapply IH; eassumption.
Qed.

(** A loop raises what one of its iterations raised. *)
Lemma for_each_raise (l : list A) (e : exn) :
  for_each f l = Raise e -> exists a, In a l /\ f a = Raise e.
Proof.
  induction l as [|a l IH]; [discriminate|].
  cbn [for_each]. destruct (f a) as [b|e'] eqn:Ha.
  - cbn [bind]. destruct (for_each f l) as [out|e'']; [discriminate|].
    cbn [bind]. intros [= <-].
    destruct (IH eq_refl) as (x & Hin & Hx). exists x. split;
      [right; exact Hin|exact Hx].
  - cbn [bind]. intros [= <-]. exists a. split; [left; reflexivity|exact Ha].
Qed.

(** A loop whose iterations all return does return. *)
Lemma for_each_total (l : list A) :
  (forall a, In a l -> exists b, f a = Ok b) ->
  exists out, for_each f l = Ok out.
Proof.
  induction l as [|a l IH]; intros H; [eexists; reflexivity|].
  destruct (H a (or_introl eq_refl)) as [b Hb].
  destruct IH as [out Hout]; [intros x Hx; apply H; right; exact Hx|].
  exists (b :: out). cbn [for_each]. rewrite Hb, Hout. reflexivity.
Qed.

End ForEach.

Lemma for_each_scaled_copies {A : Type} (f : A -> result A) (l out : list A) :
  for_each f l = Ok out -> scaled_copies f l out.
Proof.
  intros H. split; [eapply for_each_length|eapply for_each_nth]; exact H.
Qed.

(** ** [scale_scene], statement by statement *)

Lemma bind_Ok {A B : Type} (m : result A) (k : A -> result B) (b : B) :
  bind m k = Ok b -> exists a, m = Ok a /\ k a = Ok b.
Proof.
  destruct m as [a|e]; [|discriminate]. cbn [bind]. eauto.
Qed.

Lemma scale_scene_inv (self out : Scene.T) (scale : Decimal.t) :
  Scene.scale_scene self scale = Ok out -> scale_scene_steps self scale out.
Proof.
  unfold Scene.scale_scene. intros H.
  repeat (apply bind_Ok in H as (? & ? & H)).
  injection H as <-. constructor; cbn; assumption.
Qed.

(** ** When [scale_scene] returns *)

Module MagnitudeFacts.
Import Decimal DecimalFacts.

Lemma magnitude_mono (d : t) (m n : Z) :
  m <= n -> magnitude d m -> magnitude d n.
Proof.
  intros Hmn [Hz|[He Hc]]; [left; exact Hz|right].
  split; [lia|].
  eapply Z.le_trans; [exact Hc|]. apply Z.pow_le_mono_r; lia.
Qed.

Lemma magnitude_of_int (n m : Z) :
  0 <= m -> Z.abs n <= 10 ^ m -> magnitude (of_int n) m.
Proof.
  intros Hm Hn. right. cbn [of_int coeff exp].
  rewrite Z.sub_0_r. split; assumption.
Qed.

Lemma magnitude_neg (d : t) (m : Z) : magnitude d m -> magnitude (neg d) m.
Proof.
  intros [Hz|[He Hc]]; [left|right]; cbn [neg coeff exp].
  - lia.
  - rewrite Z.abs_opp. split; assumption.
Qed.

(** Rounding to the precision does not pass a power of ten. *)
Lemma magnitude_fix (d : t) (m : Z) : magnitude d m -> magnitude (fix_ d) m.
Proof.
  intros Hmag. unfold fix_.
  destruct (Z.leb_spec (ndigits (coeff d)) prec) as [|Hlong];
    [exact Hmag|].
  destruct d as [c e]. unfold magnitude in *. cbn [coeff exp] in *.
  destruct Hmag as [->|[He Hc]]; [change (ndigits 0) with 1 in Hlong;
                                  unfold prec in Hlong; lia|].
  assert (Hc0 : c <> 0)
    by (intros ->; change (ndigits 0) with 1 in Hlong;
        unfold prec in Hlong; lia).
  pose proof (ndigits_bounds c Hc0) as [Hlo _].
  set (n := ndigits c) in *. set (j := m - e) in *.
  assert (Hnj : n - 1 <= j).
  { apply (Z.pow_le_mono_r_iff 10); lia. }
  set (k := n - prec). unfold prec in *.
  assert (Hk : 0 <= k <= j) by (subst k; lia).
  assert (Hp : 0 < 10 ^ k) by (apply Z.pow_pos_nonneg; lia).
  assert (Hr : Z.abs (round_signed c k) <= 10 ^ (j - k)).
  { rewrite abs_round_signed, round_half_even_zround.
    assert (Hle : Z.abs c <= 10 ^ (j - k) * 10 ^ k).
    { rewrite <- Z.pow_add_r by lia.
      replace (j - k + k) with j by lia. exact Hc. }
    pose proof (zround_bound (Z.abs c) (10 ^ k) (10 ^ (j - k))
                  Hp (Z.abs_nonneg c) Hle) as Hb.
    rewrite (Z.abs_eq (zround _ _)) by lia.
    assert (Z.abs (Z.sgn c) = 1) by lia. lia. }
  destruct (ndigits (round_signed c k) <=? 28).
  - right. cbn [coeff exp]. split; [lia|].
    replace (m - (e + k)) with (j - k) by lia. exact Hr.
  - right. cbn [coeff exp].
    assert (Hjk : 27 <= j - k) by (subst k; lia).
    split; [lia|].
    replace (m - (e + k + 1)) with (j - k - 1) by lia.
    replace (j - k) with (Z.succ (j - k - 1)) in Hr by lia.
    rewrite Z.pow_succ_r in Hr by lia.
    rewrite <- Z.quot_abs by lia. change (Z.abs 10) with 10.
    apply Z.quot_le_upper_bound; lia.
Qed.

Lemma magnitude_mul (a b : t) (m n : Z) :
  magnitude a m -> magnitude b n -> magnitude (mul a b) (m + n).
Proof.
  intros Ha Hb. apply magnitude_fix. cbn.
  destruct Ha as [Ha|[Hea Hca]]; [left; cbn; lia|].
  destruct Hb as [Hb|[Heb Hcb]]; [left; cbn; lia|].
  right. cbn [coeff exp]. split; [lia|].
  rewrite Z.abs_mul.
  replace (m + n - (exp a + exp b)) with ((m - exp a) + (n - exp b)) by lia.
  rewrite Z.pow_add_r by lia.
  apply Z.mul_le_mono_nonneg; try apply Z.abs_nonneg; assumption.
Qed.

Lemma aligned_bound (c e e' m : Z) :
  e' <= e -> magnitude (mk c e) m ->
  c = 0 \/ (e' <= m /\ Z.abs (c * 10 ^ (e - e')) <= 10 ^ (m - e')).
Proof.
  intros Hle [Hz|[He Hc]]; cbn [coeff exp] in *; [left; exact Hz|right].
  split; [lia|].
  assert (0 < 10 ^ (e - e')) by (apply Z.pow_pos_nonneg; lia).
  rewrite Z.abs_mul, (Z.abs_eq (10 ^ (e - e'))) by lia.
  replace (m - e') with ((m - e) + (e - e')) by lia.
  rewrite Z.pow_add_r by lia.
  apply Z.mul_le_mono_nonneg_r; lia.
Qed.

Lemma magnitude_add (a b : t) (m : Z) :
  magnitude a m -> magnitude b m -> magnitude (add a b) (m + 1).
Proof.
  intros Ha Hb. apply magnitude_fix. unfold sum_coeff.
  destruct a as [ca ea], b as [cb eb]. cbn [coeff exp] in *.
  set (e := Z.min ea eb).
  apply (aligned_bound ca ea e m) in Ha; [|subst e; lia].
  apply (aligned_bound cb eb e m) in Hb; [|subst e; lia].
  assert (Hpow : forall x, 0 <= x -> 2 * 10 ^ x <= 10 ^ (x + 1)).
  { intros x Hx. rewrite Z.pow_add_r by lia. change (10 ^ 1) with 10.
    assert (0 < 10 ^ x) by (apply Z.pow_pos_nonneg; lia). lia. }
  destruct Ha as [->|[Hea Hca]], Hb as [->|[Heb Hcb]].
  - left. cbn [coeff]. lia.
  - right. cbn [coeff exp]. split; [lia|].
    rewrite Z.mul_0_l, Z.add_0_l.
    replace (m + 1 - e) with (m - e + 1) by lia.
    pose proof (Hpow (m - e) ltac:(lia)).
    assert (0 < 10 ^ (m - e)) by (apply Z.pow_pos_nonneg; lia). lia.
  - right. cbn [coeff exp]. split; [lia|].
    rewrite Z.mul_0_l, Z.add_0_r.
    replace (m + 1 - e) with (m - e + 1) by lia.
    pose proof (Hpow (m - e) ltac:(lia)).
    assert (0 < 10 ^ (m - e)) by (apply Z.pow_pos_nonneg; lia). lia.
  - right. cbn [coeff exp]. split; [lia|].
    replace (m + 1 - e) with (m - e + 1) by lia.
    pose proof (Hpow (m - e) ltac:(lia)).
    pose proof (Z.abs_triangle (ca * 10 ^ (ea - e)) (cb * 10 ^ (eb - e))).
    lia.
Qed.

Lemma magnitude_sub (a b : t) (m : Z) :
  magnitude a m -> magnitude b m -> magnitude (sub a b) (m + 1).
Proof.
  intros Ha Hb. apply magnitude_add; [exact Ha|].
  apply magnitude_neg. exact Hb.
Qed.

(** A decimal of magnitude at most [10 ^ 27] rounds to an integer. *)
Lemma magnitude_round_to_int (d : t) :
  magnitude d 27 -> exists r, round_to_int d = Ok r.
Proof.
  intros Hmag.
  assert (Hq : exists q, quantize_1 d = Ok q);
    [|destruct Hq as [q Hq]; unfold round_to_int; rewrite Hq;
      cbn [bind]; eauto].
  destruct d as [c e].
  destruct Hmag as [Hz|[He Hc]]; cbn [coeff exp] in *.
  - subst c. unfold quantize_1. cbn. eauto.
  - apply quantize_1_total; intros Hsign; unfold prec.
    + assert (0 < 10 ^ e) by (apply Z.pow_pos_nonneg; lia).
      assert (Z.abs c * 10 ^ e <= 10 ^ (27 - e) * 10 ^ e)
        by (apply Z.mul_le_mono_nonneg_r; lia).
      rewrite <- Z.pow_add_r in H0 by lia.
      replace (27 - e + e) with 27 in H0 by lia. lia.
    + replace (27 - e) with (27 + - e) in Hc by lia.
      rewrite Z.pow_add_r in Hc by lia.
      assert (0 < 10 ^ (- e)) by (apply Z.pow_pos_nonneg; lia).
      nia.
Qed.

End MagnitudeFacts.

Module ReturnFacts.
Import Decimal MagnitudeFacts.

Lemma magnitude_half : magnitude half 0.
Proof. right. cbn. lia. Qed.

Lemma magnitude_axis (o p s : Decimal.t) :
  magnitude o 20 -> magnitude p 20 -> magnitude s 1 ->
  exists r, round_to_int (add (mul o (sub (of_int 1) s)) (mul p s)) = Ok r.
Proof.
  intros Ho Hp Hs. apply magnitude_round_to_int.
  apply (magnitude_mono _ 23); [lia|].
  apply (magnitude_add _ _ 22).
  - apply (magnitude_mul o _ 20 2); [exact Ho|].
    apply (magnitude_sub _ _ 1); [|exact Hs].
    apply magnitude_of_int; simpl; lia.
  - apply (magnitude_mono _ 21); [lia|].
    apply (magnitude_mul p s 20 1); assumption.
Qed.

Lemma magnitude_int (n : Z) : int_range n -> magnitude (of_int n) 20.
Proof. intros H. apply magnitude_of_int; [lia|exact H]. Qed.

Lemma magnitude_origin (self : Scene.T) :
  int_range (Scene.shift_x self) -> int_range (Scene.shift_y self) ->
  magnitude (Point.x (Scene.get_origin self)) 20
  /\ magnitude (Point.y (Scene.get_origin self)) 20.
Proof.
  intros Hx Hy. unfold Scene.get_origin. cbn [Point.x Point.y].
  split; apply (magnitude_mul _ half 20 0);
    auto using magnitude_int, magnitude_half.
Qed.

(** A point of integers in range is scaled and rounded without raising. *)
Lemma translate_returns (origin : Point.T) (scale : Decimal.t) (x y : Z) :
  magnitude (Point.x origin) 20 -> magnitude (Point.y origin) 20 ->
  magnitude scale 1 -> int_range x -> int_range y ->
  let p := Point.translate_point (Point.mk (of_int x) (of_int y))
             origin scale in
  exists nx ny, Point.integer_x p = Ok nx /\ Point.integer_y p = Ok ny.
Proof.
  intros Hox Hoy Hs Hx Hy p.
  destruct (magnitude_axis (Point.x origin) (of_int x) scale)
    as [nx Hnx]; auto using magnitude_int.
  destruct (magnitude_axis (Point.y origin) (of_int y) scale)
    as [ny Hny]; auto using magnitude_int.
  exists nx, ny. split; assumption.
Qed.

Lemma scale_int_returns (n : Z) (scale : Decimal.t) :
  int_range n -> magnitude scale 1 -> exists r, Scene.scale_int n scale = Ok r.
Proof.
  intros Hn Hs. apply magnitude_round_to_int.
  apply (magnitude_mono _ 21); [lia|].
  apply (magnitude_mul _ scale 20 1); auto using magnitude_int.
Qed.

Ltac entity_returns :=
  match goal with
  | Hox : magnitude (Point.x ?o) 20, Hoy : magnitude (Point.y ?o) 20,
    Hs : magnitude ?s 1, Hx : int_range ?x, Hy : int_range ?y |- _ =>
      destruct (translate_returns o s x y Hox Hoy Hs Hx Hy)
        as (nx & ny & Hnx & Hny)
  end.

Section Entities.
Variables (origin : Point.T) (scale : Decimal.t).
Hypothesis Hox : magnitude (Point.x origin) 20.
Hypothesis Hoy : magnitude (Point.y origin) 20.
Hypothesis Hs : magnitude scale 1.

Lemma scale_token_returns (e : Token.T) :
  int_range (Token.x e) /\ int_range (Token.y e) ->
  exists out, Scene.scale_token origin scale e = Ok out.
Proof.
  intros [Hx Hy]. entity_returns. unfold Scene.scale_token.
  unfold Point.get_point_from_token. rewrite Hnx, Hny. cbn [bind]. eauto.
Qed.

Lemma scale_light_returns (e : Light.T) :
  int_range (Light.x e) /\ int_range (Light.y e) ->
  exists out, Scene.scale_light origin scale e = Ok out.
Proof.
  intros [Hx Hy]. entity_returns. unfold Scene.scale_light.
  unfold Point.get_point_from_light. rewrite Hnx, Hny. cbn [bind]. eauto.
Qed.

Lemma scale_sound_returns (e : Sound.T) :
  int_range (Sound.x e) /\ int_range (Sound.y e) ->
  exists out, Scene.scale_sound origin scale e = Ok out.
Proof.
  intros [Hx Hy]. entity_returns. unfold Scene.scale_sound.
  unfold Point.get_point_from_sound. rewrite Hnx, Hny. cbn [bind]. eauto.
Qed.

Lemma scale_note_returns (e : Note.T) :
  int_range (Note.x e) /\ int_range (Note.y e) ->
  exists out, Scene.scale_note origin scale e = Ok out.
Proof.
  intros [Hx Hy]. entity_returns. unfold Scene.scale_note.
  unfold Point.get_point_from_note. rewrite Hnx, Hny. cbn [bind]. eauto.
Qed.

Lemma scale_drawing_returns (e : Drawing.T) :
  int_range (Drawing.x e) /\ int_range (Drawing.y e) ->
  exists out, Scene.scale_drawing origin scale e = Ok out.
Proof.
  intros [Hx Hy]. entity_returns. unfold Scene.scale_drawing.
  unfold Point.get_point_from_drawing. rewrite Hnx, Hny. cbn [bind]. eauto.
Qed.

Lemma scale_wall_returns (e : Wall.T) :
  wall_range e -> exists out, Scene.scale_wall origin scale e = Ok out.
Proof.
  intros (x1 & y1 & x2 & y2 & rest & Hc & H1 & H2 & H3 & H4).
  destruct (translate_returns origin scale x1 y1 Hox Hoy Hs H1 H2)
    as (a & b & Ha & Hb).
  destruct (translate_returns origin scale x2 y2 Hox Hoy Hs H3 H4)
    as (c & d & Hcx & Hd).
  unfold Scene.scale_wall, Point.get_points_from_walls. rewrite Hc.
  cbn [bind fst snd]. unfold Scene.scale_wall_point.
  rewrite Ha, Hb. cbn [bind]. rewrite Hcx, Hd. cbn [bind]. eauto.
Qed.

End Entities.

Lemma for_each_Forall {A B : Type} (f : A -> result B) (P : A -> Prop)
    (l : list A) :
  (forall a, P a -> exists b, f a = Ok b) -> Forall P l ->
  exists out, for_each f l = Ok out.
Proof.
  intros Hf Hall. apply for_each_total. intros a Hin. apply Hf.
  rewrite Forall_forall in Hall. apply Hall. exact Hin.
Qed.

End ReturnFacts.

(** [scale_scene] returns, without raising, on every scene whose integers
    have at most 20 digits (as all 64-bit integers have) and whose walls
    have their four coordinates, for every scale of magnitude at most 10,
    the largest ratio the command line accepts. *)
Theorem scale_scene_returns (self : Scene.T) (scale : Decimal.t) :
  scene_range self -> magnitude scale 1 ->
  exists out, Scene.scale_scene self scale = Ok out.
Proof.
  intros (Hw & Hh & Hg & Hsx & Hsy & Ht & Hwl & Hl & Hso & Hn & Hd) Hs.
  destruct (ReturnFacts.magnitude_origin self Hsx Hsy) as [Hox Hoy].
  unfold Scene.scale_scene, Scene._scale_tokens, Scene._scale_walls,
    Scene._scale_lights, Scene._scale_sounds, Scene._scale_notes,
    Scene._scale_drawings.
  destruct (ReturnFacts.for_each_Forall _ _ _
              (ReturnFacts.scale_token_returns _ scale Hox Hoy Hs) Ht)
    as [? ->].
  destruct (ReturnFacts.for_each_Forall _ _ _
              (ReturnFacts.scale_wall_returns _ scale Hox Hoy Hs) Hwl)
    as [? ->].
  destruct (ReturnFacts.for_each_Forall _ _ _
              (ReturnFacts.scale_light_returns _ scale Hox Hoy Hs) Hl)
    as [? ->].
  destruct (ReturnFacts.for_each_Forall _ _ _
              (ReturnFacts.scale_sound_returns _ scale Hox Hoy Hs) Hso)
    as [? ->].
  destruct (ReturnFacts.for_each_Forall _ _ _
              (ReturnFacts.scale_note_returns _ scale Hox Hoy Hs) Hn)
    as [? ->].
  destruct (ReturnFacts.for_each_Forall _ _ _
              (ReturnFacts.scale_drawing_returns _ scale Hox Hoy Hs) Hd)
    as [? ->].
  destruct (ReturnFacts.scale_int_returns _ scale Hw Hs) as [? ->].
  destruct (ReturnFacts.scale_int_returns _ scale Hh Hs) as [? ->].
  destruct (ReturnFacts.scale_int_returns _ scale Hg Hs) as [? ->].
  destruct (ReturnFacts.scale_int_returns _ scale Hsx Hs) as [? ->].
  destruct (ReturnFacts.scale_int_returns _ scale Hsy Hs) as [? ->].
  cbn [bind]. eauto.
Qed.

(** Checking by evaluation that a concrete scene is in range. *)
Ltac in_range := unfold int_range; vm_compute; discriminate.

Ltac wall_in_range :=
  do 5 eexists; split; [reflexivity|];
  split; [in_range|]; split; [in_range|]; split; in_range.

Ltac all_in_range :=
  repeat (apply Forall_cons; [first [split; in_range | wall_in_range]|]);
  apply Forall_nil.

Ltac scene_in_range :=
  unfold scene_range;
  do 5 (split; [in_range|]);
  do 5 (split; [all_in_range|]); all_in_range.


(** ** The scaled point *)

Module PointFacts.
Import Decimal DecimalFacts.

Lemma fits_true (c : Z) : fits c = true -> ndigits c <= prec.
Proof. unfold fits. intros H. apply Z.leb_le. exact H. Qed.

(** One axis of [_translate_point], none of its four operations
    rounded. *)
Lemma axis_exact (o p s : Decimal.t) :
  exact_axis o p s = true ->
  (to_Q (add (mul o (sub (of_int 1) s)) (mul p s))
   == to_Q o * (1 - to_Q s) + to_Q p * to_Q s)%Q.
Proof.
  unfold exact_axis. intros H.
  apply andb_prop in H as [H Hsum].
  apply andb_prop in H as [H Hp].
  apply andb_prop in H as [Hsub Ho].
  apply fits_true in Hsum, Hp, Hsub, Ho.
  rewrite to_Q_add_exact by exact Hsum.
  rewrite !to_Q_mul_exact by assumption.
  rewrite to_Q_sub_exact by exact Hsub.
  rewrite to_Q_of_int. reflexivity.
Qed.

End PointFacts.

(** C1, as the spec words it, fails: with the scale ratio 0.1 of the
    command line, which [main.py] passes as [Decimal(0.1)], the point
    (1, 0) scaled about (0, 0) does not have the abscissa
    [0 * (1 - s) + 1 * s]; the product is rounded to 28 digits. *)
Lemma C1_translate_point_not_exact :
  let origin := Point.mk (Decimal.of_int 0) (Decimal.of_int 0) in
  let point := Point.mk (Decimal.of_int 1) (Decimal.of_int 0) in
  let s := Sample.tenth in
  Point.x (Point.translate_point point origin s)
    = Decimal.mk 1000000000000000055511151231 (-28) /\
  ~ (Decimal.to_Q (Point.x (Point.translate_point point origin s))
     == Decimal.to_Q (Point.x origin) * (1 - Decimal.to_Q s)
        + Decimal.to_Q (Point.x point) * Decimal.to_Q s)%Q.
Proof.
  split; [vm_compute; reflexivity|].
  vm_compute. discriminate.
Qed.

(** C1 (amended): [translate_point] returns [O * (1 - s) + P * s]
    component-wise in the decimal arithmetic of the default context, each
    of the four operations rounded half-even to 28 significant digits; it
    is exactly that rational whenever no operation has to round.  In the
    scene with grid shift (50, 50) the origin is (25, 25) and the token at
    (125, 25) scaled by 2.0 ends at (225, 25). *)
Theorem C1_translate_point (self origin : Point.T) (scale : Decimal.t) :
  Point.translate_point self origin scale
  = Point.mk
      (Decimal.add
         (Decimal.mul (Point.x origin) (Decimal.sub (Decimal.of_int 1) scale))
         (Decimal.mul (Point.x self) scale))
      (Decimal.add
         (Decimal.mul (Point.y origin) (Decimal.sub (Decimal.of_int 1) scale))
         (Decimal.mul (Point.y self) scale))
  /\ (exact_axis (Point.x origin) (Point.x self) scale = true ->
      (Decimal.to_Q (Point.x (Point.translate_point self origin scale))
       == Decimal.to_Q (Point.x origin) * (1 - Decimal.to_Q scale)
          + Decimal.to_Q (Point.x self) * Decimal.to_Q scale)%Q)
  /\ (exact_axis (Point.y origin) (Point.y self) scale = true ->
      (Decimal.to_Q (Point.y (Point.translate_point self origin scale))
       == Decimal.to_Q (Point.y origin) * (1 - Decimal.to_Q scale)
          + Decimal.to_Q (Point.y self) * Decimal.to_Q scale)%Q)
  /\ (forall (scene : Scene.T) (token : Token.T),
        Scene.shift_x scene = 50 -> Scene.shift_y scene = 50 ->
        Token.x token = 125 -> Token.y token = 25 ->
        Scene.scale_token (Scene.get_origin scene) Sample.two token
        = Ok (Token.with_xy token 225 25)).
Proof.
  split; [reflexivity|].
  split; [apply PointFacts.axis_exact|].
  split; [apply PointFacts.axis_exact|].
  intros scene token Hsx Hsy Hx Hy.
  unfold Scene.scale_token, Scene.get_origin, Point.get_point_from_token.
  rewrite Hsx, Hsy, Hx, Hy. reflexivity.
Qed.

Lemma C1_translate_point_witness :
  exact_axis (Decimal.mk 25 0) (Decimal.of_int 125) Sample.two = true
  /\ (Decimal.to_Q
        (Point.x (Point.translate_point
                    (Point.mk (Decimal.of_int 125) (Decimal.of_int 25))
                    (Point.mk (Decimal.mk 25 0) (Decimal.mk 25 0))
                    Sample.two))
      == 225)%Q
  /\ Scene.scale_token (Scene.get_origin Sample.cave) Sample.two
       (Sample.token 125 25)
     = Ok (Token.with_xy (Sample.token 125 25) 225 25).
Proof.
  pose proof (C1_translate_point
                (Point.mk (Decimal.of_int 125) (Decimal.of_int 25))
                (Point.mk (Decimal.mk 25 0) (Decimal.mk 25 0))
                Sample.two) as (_ & Hx & _ & Hex).
  split; [reflexivity|].
  split.
  - rewrite Hx by reflexivity. reflexivity.
  - apply Hex; reflexivity.
Defined.

(** ** The origin of the dilation *)

Module OriginFacts.
Import Decimal DecimalFacts.

(** Half of an integer of at most 27 digits is exact. *)
Lemma half_exact (n : Z) :
  Z.abs n < 10 ^ 27 ->
  (to_Q (mul (of_int n) half) == inject_Z n * (1 # 2))%Q.
Proof.
  intros Hn. rewrite to_Q_mul_exact.
  - rewrite to_Q_of_int.
    assert (Hh : (to_Q half == 1 # 2)%Q) by (vm_compute; reflexivity).
    rewrite Hh. reflexivity.
  - cbn [coeff of_int half]. apply ndigits_le; [unfold prec; lia|].
    unfold prec. lia.
Qed.

End OriginFacts.

(** ** The five sizing fields *)

Module SizingFacts.
Import Decimal DecimalFacts.

(** [scale_int] is the rounding of [integer_x], applied to the product. *)
Lemma scale_int_integer_x (n : Z) (scale y : Decimal.t) :
  Scene.scale_int n scale
  = Point.integer_x (Point.mk (mul (of_int n) scale) y).
Proof. reflexivity. Qed.

Lemma scale_int_spec (n r : Z) (scale : Decimal.t) :
  Scene.scale_int n scale = Ok r ->
  r = Qround_half_even (to_Q (mul (of_int n) scale))
  /\ (fits (n * coeff scale) = true ->
      r = Qround_half_even (inject_Z n * to_Q scale)).
Proof.
  unfold Scene.scale_int. intros H.
  apply round_to_int_spec in H. split; [exact H|].
  intros Hfit. rewrite H. apply Qround_half_even_comp.
  rewrite to_Q_mul_exact by (apply PointFacts.fits_true; exact Hfit).
  rewrite to_Q_of_int. reflexivity.
Qed.

(** A tie of the product goes to the even neighbour. *)
Lemma scale_int_tie (n r m : Z) (scale : Decimal.t) :
  Scene.scale_int n scale = Ok r ->
  (to_Q (mul (of_int n) scale) == inject_Z m + (1 # 2))%Q ->
  r = if Z.even m then m else m + 1.
Proof.
  intros H Htie. apply scale_int_spec in H as [-> _].
  apply Qround_half_even_tie. exact Htie.
Qed.

End SizingFacts.

(** C3, as the spec words it, fails: a sizing field is not always
    [round(original * s)].  The product is first rounded to 28 digits and
    then to an integer.  For a width of 562949953421307 and the scale
    [Decimal(2.2)] the product is just below 1238489897526875.5; its 28
    digits are 1238489897526875.500000000000, a tie, which goes to the
    even 1238489897526876, while the product itself rounds to
    1238489897526875. *)
Lemma C3_sizing_fields_not_exact :
  let self := Sample.scene 562949953421307 800 100 50 50 [] [] in
  let s := Sample.two_point_two in
  exists out,
    Scene.scale_scene self s = Ok out
    /\ Scene.width out = 1238489897526876
    /\ Decimal.Qround_half_even (inject_Z (Scene.width self) * Decimal.to_Q s)
       = 1238489897526875
    /\ Scene.width out
       <> Decimal.Qround_half_even
            (inject_Z (Scene.width self) * Decimal.to_Q s)
    /\ fits (Scene.width self * Decimal.coeff s) = false.
Proof.
  intros self s. eexists. split; [vm_compute; reflexivity|].
  split; [reflexivity|]. split; [vm_compute; reflexivity|].
  split; [vm_compute; discriminate|vm_compute; reflexivity].
Qed.

(** C3 (amended): after [scale_scene] each of [width], [height], [grid],
    [shift_x], [shift_y] is the value it had on entry times the scale,
    rounded to the nearest integer (ties to even) by the rounding
    [integer_x] and [integer_y] use; the product is [Decimal]'s, rounded
    to 28 digits, equal to the rational product whenever it has at most
    28 digits.  A width of 1000 scaled by
    2.0 becomes 2000.  [scale_scene] does return on every scene whose
    integers have at most 20 digits and whose walls have four
    coordinates, for a scale of magnitude at most 10. *)
Theorem C3_sizing_fields (self : Scene.T) (scale : Decimal.t) :
  (scene_range self -> magnitude scale 1 ->
   exists out, Scene.scale_scene self scale = Ok out)
  /\
  forall out : Scene.T,
  Scene.scale_scene self scale = Ok out ->
  let rounded n :=
    Decimal.Qround_half_even
      (Decimal.to_Q (Decimal.mul (Decimal.of_int n) scale)) in
  let rounded_exactly n :=
    Decimal.Qround_half_even (inject_Z n * Decimal.to_Q scale) in
  let same_rule n r :=
    forall y, Point.integer_x
                (Point.mk (Decimal.mul (Decimal.of_int n) scale) y) = Ok r in
  (Scene.width out = rounded (Scene.width self)
   /\ Scene.height out = rounded (Scene.height self)
   /\ Scene.grid out = rounded (Scene.grid self)
   /\ Scene.shift_x out = rounded (Scene.shift_x self)
   /\ Scene.shift_y out = rounded (Scene.shift_y self))
  /\ (same_rule (Scene.width self) (Scene.width out)
      /\ same_rule (Scene.height self) (Scene.height out)
      /\ same_rule (Scene.grid self) (Scene.grid out)
      /\ same_rule (Scene.shift_x self) (Scene.shift_x out)
      /\ same_rule (Scene.shift_y self) (Scene.shift_y out))
  /\ ((fits (Scene.width self * Decimal.coeff scale) = true ->
       Scene.width out = rounded_exactly (Scene.width self))
      /\ (fits (Scene.height self * Decimal.coeff scale) = true ->
          Scene.height out = rounded_exactly (Scene.height self))
      /\ (fits (Scene.grid self * Decimal.coeff scale) = true ->
          Scene.grid out = rounded_exactly (Scene.grid self))
      /\ (fits (Scene.shift_x self * Decimal.coeff scale) = true ->
          Scene.shift_x out = rounded_exactly (Scene.shift_x self))
      /\ (fits (Scene.shift_y self * Decimal.coeff scale) = true ->
          Scene.shift_y out = rounded_exactly (Scene.shift_y self)))
  /\ (Scene.width self = 1000 -> scale = Sample.two ->
      Scene.width out = 2000).
Proof.
  split; [apply scale_scene_returns|].
  intros out H rounded rounded_exactly same_rule.
  destruct (scale_scene_inv _ _ _ H).
  split; [|split; [|split]].
  - repeat split;
      match goal with
      | Hs : Scene.scale_int ?n scale = Ok ?r |- ?r = rounded ?n =>
          exact (proj1 (SizingFacts.scale_int_spec _ _ _ Hs))
      end.
  - repeat split; intros y;
      rewrite <- (SizingFacts.scale_int_integer_x _ _ y); assumption.
  - repeat split;
      match goal with
      | Hs : Scene.scale_int ?n scale = Ok ?r |- _ -> ?r = rounded_exactly ?n =>
          exact (proj2 (SizingFacts.scale_int_spec _ _ _ Hs))
      end.
  - intros Hw ->.
    pose proof (step_width _ _ _ (scale_scene_inv _ _ _ H)) as Hwidth.
    rewrite Hw in Hwidth.
    assert (E : Scene.scale_int 1000 Sample.two = Ok 2000)
      by (vm_compute; reflexivity).
    rewrite E in Hwidth. injection Hwidth as <-. reflexivity.
Qed.

Lemma C3_sizing_fields_witness :
  scene_range Sample.cave /\ magnitude Sample.two 1
  /\ exists out,
       Scene.scale_scene Sample.cave Sample.two = Ok out
       /\ Scene.width out = 2000 /\ Scene.height out = 1600
       /\ Scene.grid out = 200
       /\ Scene.shift_x out = 100 /\ Scene.shift_y out = 100.
Proof.
  assert (Hrange : scene_range Sample.cave) by scene_in_range.
  assert (Hscale : magnitude Sample.two 1)
    by (right; vm_compute; split; discriminate).
  split; [exact Hrange|]. split; [exact Hscale|].
  pose proof (C3_sizing_fields Sample.cave Sample.two) as [Hret Hspec].
  destruct (Hret Hrange Hscale) as [out Hout].
  exists out. split; [exact Hout|].
  pose proof (Hspec out Hout) as (_ & _ & (Hw & Hh & Hg & Hx & Hy) & Hex).
  split; [exact (Hex eq_refl eq_refl)|].
  rewrite Hh, Hg, Hx, Hy by reflexivity.
  repeat split; vm_compute; reflexivity.
Defined.

(** ** The rounding rule *)

Module RoundingFacts.
Import Decimal DecimalFacts.

(** A decimal half-way between [n] and [n + 1], both of at most 28
    digits, rounds to the even one, and does not raise. *)
Lemma round_to_int_tie (d : Decimal.t) (n : Z) :
  (to_Q d == inject_Z n + (1 # 2))%Q ->
  - 10 ^ 28 < n -> n + 1 < 10 ^ 28 ->
  round_to_int d = Ok (if Z.even n then n else n + 1).
Proof.
  intros Htie Hlo Hhi.
  destruct (round_to_int_total d) as [r Hr].
  - rewrite Htie.
    apply Qabs_Qle_condition. unfold prec.
    unfold Qle, Qopp, Qplus, inject_Z; cbn [Qnum Qden]. lia.
  - rewrite Hr. f_equal.
    rewrite (round_to_int_spec d r Hr).
    apply Qround_half_even_tie. exact Htie.
Qed.

End RoundingFacts.

(** C10: every rounding to an integer in the program is round half to
    even.  A point coordinate exactly half-way between two integers is
    rounded by [integer_x] and [integer_y] to the even one (2.5 to 2, 3.5
    to 4), the neighbours having at most the 28 digits of the context;
    and when the product of a sizing field by the scale is half-way,
    [scale_scene] stores the even neighbour. *)
Theorem C10_round_half_even :
  (forall (p : Point.T) (n : Z),
      (Decimal.to_Q (Point.x p) == inject_Z n + (1 # 2))%Q ->
      - 10 ^ 28 < n -> n + 1 < 10 ^ 28 ->
      Point.integer_x p = Ok (if Z.even n then n else n + 1))
  /\ (forall (p : Point.T) (n : Z),
      (Decimal.to_Q (Point.y p) == inject_Z n + (1 # 2))%Q ->
      - 10 ^ 28 < n -> n + 1 < 10 ^ 28 ->
      Point.integer_y p = Ok (if Z.even n then n else n + 1))
  /\ (forall (self out : Scene.T) (scale : Decimal.t),
      Scene.scale_scene self scale = Ok out ->
      let tie field n :=
        (Decimal.to_Q (Decimal.mul (Decimal.of_int (field self)) scale)
         == inject_Z n + (1 # 2))%Q ->
        field out = if Z.even n then n else n + 1 in
      forall n,
        tie Scene.width n /\ tie Scene.height n /\ tie Scene.grid n
        /\ tie Scene.shift_x n /\ tie Scene.shift_y n)
  /\ Point.integer_x (Point.mk (Decimal.mk 25 (-1)) (Decimal.mk 35 (-1)))
     = Ok 2
  /\ Point.integer_y (Point.mk (Decimal.mk 25 (-1)) (Decimal.mk 35 (-1)))
     = Ok 4.
Proof.
  split; [intros p n; apply RoundingFacts.round_to_int_tie|].
  split; [intros p n; apply RoundingFacts.round_to_int_tie|].
  split; [|split; reflexivity].
  intros self out scale H tie n.
  destruct (scale_scene_inv _ _ _ H).
  repeat split; intros Htie;
    eapply SizingFacts.scale_int_tie; eassumption.
Qed.

Lemma C10_round_half_even_witness :
  Point.integer_x (Point.mk (Decimal.mk (-45) (-1)) (Decimal.mk 7500 (-3)))
  = Ok (-4)
  /\ Point.integer_y (Point.mk (Decimal.mk (-45) (-1)) (Decimal.mk 7500 (-3)))
     = Ok 8
  /\ exists out,
       Scene.scale_scene (Sample.scene 5 7 9 1 3 [] []) Sample.one_half
       = Ok out
       /\ Scene.width out = 2 /\ Scene.height out = 4 /\ Scene.grid out = 4
       /\ Scene.shift_x out = 0 /\ Scene.shift_y out = 2.
Proof.
  pose proof C10_round_half_even as (Hx & Hy & Hs & _).
  split.
  { apply (Hx (Point.mk (Decimal.mk (-45) (-1)) (Decimal.mk 7500 (-3))) (-5));
      [vm_compute; reflexivity|lia|lia]. }
  split.
  { apply (Hy (Point.mk (Decimal.mk (-45) (-1)) (Decimal.mk 7500 (-3))) 7);
      [vm_compute; reflexivity|lia|lia]. }
  destruct (Scene.scale_scene (Sample.scene 5 7 9 1 3 [] []) Sample.one_half)
    as [out|e] eqn:Hout; [|vm_compute in Hout; discriminate].
  exists out. split; [reflexivity|].
  pose proof (Hs _ _ _ Hout) as Htie. cbv zeta in Htie.
  split; [apply (Htie 2); vm_compute; reflexivity|].
  split; [apply (Htie 3); vm_compute; reflexivity|].
  split; [apply (Htie 4); vm_compute; reflexivity|].
  split; [apply (Htie 0); vm_compute; reflexivity|].
  apply (Htie 1); vm_compute; reflexivity.
Defined.

(** ** Walls *)

Module WallFacts.

Lemma scale_wall_point_inv (origin p : Point.T) (scale : Decimal.t)
    (out : list Z) :
  Scene.scale_wall_point origin scale p = Ok out ->
  exists ix iy,
    out = [ix; iy]
    /\ Point.integer_x (Point.translate_point p origin scale) = Ok ix
    /\ Point.integer_y (Point.translate_point p origin scale) = Ok iy.
Proof.
  unfold Scene.scale_wall_point. intros H.
  apply bind_Ok in H as (ix & Hx & H).
  apply bind_Ok in H as (iy & Hy & H).
  injection H as <-. eauto.
Qed.

Lemma scale_wall_inv (origin : Point.T) (scale : Decimal.t)
    (wall out : Wall.T) :
  Scene.scale_wall origin scale wall = Ok out ->
  exists p1 p2 c1 c2,
    Point.get_points_from_walls wall = Ok (p1, p2)
    /\ Scene.scale_wall_point origin scale p1 = Ok c1
    /\ Scene.scale_wall_point origin scale p2 = Ok c2
    /\ out = Wall.with_c wall (c1 ++ c2).
Proof.
  unfold Scene.scale_wall. intros H.
  apply bind_Ok in H as ([p1 p2] & Hp & H).
  apply bind_Ok in H as (c1 & H1 & H).
  apply bind_Ok in H as (c2 & H2 & H).
  injection H as <-. exists p1, p2, c1, c2. auto.
Qed.

End WallFacts.



(** ** What scaling leaves alone *)

Ltac scaled_copy H :=
  repeat (apply bind_Ok in H as (? & ? & H));
  injection H as <-; repeat split; reflexivity.

(** C8: scaling an entity of any of the six types replaces only its
    position, [x] and [y], or [c] for a wall; every other field of the
    scaled copy is the field of the original.  In particular the [width]
    and [height] of a drawing are not rescaled. *)
Theorem C8_only_position_changes (origin : Point.T) (scale : Decimal.t) :
  (forall a b, Scene.scale_token origin scale a = Ok b ->
               same_but_position_token a b)
  /\ (forall a b, Scene.scale_wall origin scale a = Ok b ->
                  same_but_position_wall a b)
  /\ (forall a b, Scene.scale_light origin scale a = Ok b ->
                  same_but_position_light a b)
  /\ (forall a b, Scene.scale_sound origin scale a = Ok b ->
                  same_but_position_sound a b)
  /\ (forall a b, Scene.scale_note origin scale a = Ok b ->
                  same_but_position_note a b)
  /\ (forall a b, Scene.scale_drawing origin scale a = Ok b ->
                  same_but_position_drawing a b
                  /\ Drawing.width b = Drawing.width a
                  /\ Drawing.height b = Drawing.height a).
Proof.
  split; [intros a b H; unfold Scene.scale_token in H; scaled_copy H|].
  split; [intros a b H; unfold Scene.scale_wall in H; scaled_copy H|].
  split; [intros a b H; unfold Scene.scale_light in H; scaled_copy H|].
  split; [intros a b H; unfold Scene.scale_sound in H; scaled_copy H|].
  split; [intros a b H; unfold Scene.scale_note in H; scaled_copy H|].
  intros a b H; unfold Scene.scale_drawing in H; scaled_copy H.
Qed.

Lemma C8_only_position_changes_witness :
  let origin := Scene.get_origin Sample.cave in
  Scene.scale_drawing origin Sample.two (Sample.drawing 26 24)
  = Ok (Sample.drawing 27 23)
  /\ same_but_position_drawing (Sample.drawing 26 24) (Sample.drawing 27 23)
  /\ Drawing.width (Sample.drawing 27 23) = JInt 300
  /\ Drawing.height (Sample.drawing 27 23) = JInt 200
  /\ same_but_position_token (Sample.token 125 25) (Sample.token 225 25)
  /\ same_but_position_wall (Sample.wall [0; 0; 100; 100])
       (Sample.wall [-25; -25; 175; 175]).
Proof.
  intros origin.
  pose proof (C8_only_position_changes origin Sample.two)
    as (Ht & Hw & _ & _ & _ & Hd).
  assert (Hdraw : Scene.scale_drawing origin Sample.two (Sample.drawing 26 24)
                  = Ok (Sample.drawing 27 23)) by reflexivity.
  split; [exact Hdraw|].
  destruct (Hd _ _ Hdraw) as (Hsame & Hwd & Hht).
  split; [exact Hsame|].
  split; [exact Hwd|].
  split; [exact Hht|].
  split.
  - apply (Ht (Sample.token 125 25) (Sample.token 225 25)). reflexivity.
  - apply (Hw (Sample.wall [0; 0; 100; 100])
             (Sample.wall [-25; -25; 175; 175])). reflexivity.
Defined.

(** ** The collections *)

(** C9: [scale_scene] keeps the length and the order of each of the six
    collections: the scaled collection is as long as the input one, and
    its i-th entity is the scaled copy of the i-th entity of the input.
    Nothing is added, removed or moved.  [scale_scene] does return on
    every scene whose integers have at most 20 digits and whose walls
    have four coordinates, for a scale of magnitude at most 10. *)
Theorem C9_collections_preserved (self : Scene.T) (scale : Decimal.t) :
  (scene_range self -> magnitude scale 1 ->
   exists out, Scene.scale_scene self scale = Ok out)
  /\
  forall out : Scene.T,
  Scene.scale_scene self scale = Ok out ->
  let origin := Scene.get_origin self in
  scaled_copies (Scene.scale_token origin scale)
    (Scene.tokens self) (Scene.tokens out)
  /\ scaled_copies (Scene.scale_wall origin scale)
       (Scene.walls self) (Scene.walls out)
  /\ scaled_copies (Scene.scale_light origin scale)
       (Scene.lights self) (Scene.lights out)
  /\ scaled_copies (Scene.scale_sound origin scale)
       (Scene.sounds self) (Scene.sounds out)
  /\ scaled_copies (Scene.scale_note origin scale)
       (Scene.notes self) (Scene.notes out)
  /\ scaled_copies (Scene.scale_drawing origin scale)
       (Scene.drawings self) (Scene.drawings out).
Proof.
  split; [apply scale_scene_returns|].
  intros out H origin. destruct (scale_scene_inv _ _ _ H).
  repeat split; try (eapply for_each_length; eassumption);
    eapply for_each_nth; eassumption.
Qed.

Lemma C9_collections_preserved_witness :
  let scene :=
    Sample.scene 1000 800 100 50 50
      [Sample.token 125 25; Sample.token 25 25; Sample.token 0 10]
      [Sample.wall [0; 0; 100; 100]; Sample.wall [5; 6; 7; 8]] in
  scene_range scene /\ magnitude Sample.two 1
  /\ exists out,
       Scene.scale_scene scene Sample.two = Ok out
       /\ List.length (Scene.tokens out) = 3%nat
       /\ List.length (Scene.walls out) = 2%nat
       /\ Scene.tokens out
          = [Sample.token 225 25; Sample.token 25 25; Sample.token (-25) (-5)]
       /\ scaled_copies (Scene.scale_wall (Scene.get_origin scene) Sample.two)
            (Scene.walls scene) (Scene.walls out).
Proof.
  intros scene.
  assert (Hrange : scene_range scene) by scene_in_range.
  assert (Hscale : magnitude Sample.two 1)
    by (right; vm_compute; split; discriminate).
  split; [exact Hrange|]. split; [exact Hscale|].
  pose proof (C9_collections_preserved scene Sample.two) as [Hret Hspec].
  destruct (Hret Hrange Hscale) as [out Hout].
  exists out. split; [exact Hout|].
  pose proof (Hspec out Hout) as ((Hlen & _) & (Hwalls & Hnth) & _).
  split; [rewrite Hlen; reflexivity|].
  split; [rewrite Hwalls; reflexivity|].
  split; [|split; assumption].
  vm_compute in Hout. injection Hout as <-. reflexivity.
Defined.

(** ** Serialisation *)

(** C5: [to_json] writes the [description] attribute under the
    [navigation] key, so the serialised [navigation] equals the
    [description]; the output does not depend on the scene's own
    [navigation] attribute, which appears nowhere in it. *)
Theorem C5_navigation_is_description (self : Scene.T) :
  Scene.dict_get "navigation" (Scene.to_json self)
  = Some (Scene.VJson (Scene.description self))
  /\ Scene.dict_get "navigation" (Scene.to_json self)
     = Scene.dict_get "description" (Scene.to_json self)
  /\ forall v : json,
       Scene.to_json (with_navigation self v) = Scene.to_json self.
Proof.
  split; [reflexivity|]. split; [reflexivity|].
  intros v. reflexivity.
Qed.

(** ** Construction *)

Module CreateFacts.

Lemma dataclass_init_raises (fields : Scene.signature) (kwargs : json)
    (e : exn) :
  Scene.dataclass_init fields kwargs = Raise e -> e = TypeError.
Proof.
  unfold Scene.dataclass_init.
  destruct kwargs; try (intros [= <-]; reflexivity).
  destruct (forallb _ d); [|intros [= <-]; reflexivity].
  intros H. apply for_each_raise in H as (f & _ & Hf).
  unfold Scene.bind_field in Hf.
  destruct (lookup (fst f) d); [discriminate|].
  destruct (snd f); [discriminate|].
  injection Hf as <-. reflexivity.
Qed.

Lemma instances_raises (fields : Scene.signature) (key : string)
    (d : list (string * json)) (e : exn) :
  Scene.instances fields key d = Raise e -> e = TypeError.
Proof.
  unfold Scene.instances.
  destruct (Scene.iterate _) as [items|e'] eqn:Hit; cbn [bind].
  - intros H. apply for_each_raise in H as (item & _ & H).
    eapply dataclass_init_raises. exact H.
  - intros [= <-]. unfold Scene.iterate in Hit.
    destruct (match lookup key d with Some v => v | None => JList [] end);
      try discriminate; injection Hit as <-; reflexivity.
Qed.

Lemma instances_absent (fields : Scene.signature) (key : string)
    (d : list (string * json)) :
  lookup key d = None -> Scene.instances fields key d = Ok [].
Proof.
  intros H. unfold Scene.instances. rewrite H. reflexivity.
Qed.

(** A required field the item does not give makes the call raise. *)
Lemma bind_fields_required (d : list (string * json))
    (fields : Scene.signature) (name : string) :
  In (name, None) fields -> lookup name d = None ->
  forall out, for_each (Scene.bind_field d) fields <> Ok out.
Proof.
  intros Hin Hmiss. induction fields as [|f fields IH];
    [destruct Hin|].
  intros out H. apply for_each_cons_inv in H as (b & out' & _ & Hb & H).
  destruct Hin as [->|Hin].
  - unfold Scene.bind_field in Hb. cbn [fst snd] in Hb.
    rewrite Hmiss in Hb. discriminate.
  - exact (IH Hin out' H).
Qed.

Lemma dataclass_init_required (fields : Scene.signature)
    (d : list (string * json)) (name : string) :
  In (name, None) fields -> lookup name d = None ->
  Scene.dataclass_init fields (JObj d) = Raise TypeError.
Proof.
  intros Hin Hmiss.
  destruct (Scene.dataclass_init fields (JObj d)) as [out|e] eqn:H.
  - exfalso. unfold Scene.dataclass_init in H.
    destruct (forallb _ d); [|discriminate].
    exact (bind_fields_required d fields name Hin Hmiss out H).
  - f_equal. eapply dataclass_init_raises. exact H.
Qed.

End CreateFacts.

(** C6, as the spec words it, fails: [create] accepts a document with no
    field at all, and one whose [width] is a string and whose [walls] is
    a dict; a token without its required fields raises TypeError and a
    document that is a list AttributeError, Python's own exceptions. *)
Lemma C6_create_does_not_validate :
  (exists s, Scene.create (JObj []) = Ok s
             /\ Scene.width s = JNull /\ Scene.tokens s = [])
  /\ (exists s,
        Scene.create (JObj [("width", JStr "wide"); ("walls", JObj [])]%string)
        = Ok s
        /\ Scene.width s = JStr "wide" /\ Scene.walls s = [])
  /\ Scene.create (JObj [("tokens", JList [JObj [("x", JInt 1)]])]%string)
     = Raise TypeError
  /\ Scene.create (JList []) = Raise AttributeError.
Proof.
  split; [eexists; split; [reflexivity|split; reflexivity]|].
  split; [eexists; split; [reflexivity|split; reflexivity]|].
  split; reflexivity.
Qed.

(** C6 (amended): [create] validates nothing itself.  On a JSON object
    every scalar attribute takes the value under its key as it is, of
    whatever shape, and [None] when the key is absent, and a document
    without the collection keys is accepted with empty collections.
    Construction fails only with Python's own exceptions: what
    [orjson.loads] raises on the text, AttributeError when the document
    is not an object, TypeError from a collection that cannot be iterated
    or from an item its dataclass rejects: one that is not an object,
    has a key the class does not declare, or lacks a required field.
    There is no MalformedSceneError. *)
Theorem C6_create :
  (forall doc e, Scene.create doc = Raise e ->
                 e = AttributeError \/ e = TypeError)
  /\ (forall loads text e,
        Scene.from_json_string loads text = Raise e ->
        loads text = Raise e \/ e = AttributeError \/ e = TypeError)
  /\ (forall doc, is_dict doc = false ->
                  Scene.create doc = Raise AttributeError)
  /\ (forall d s, Scene.create (JObj d) = Ok s -> holds_document d s)
  /\ (forall d, no_collections d ->
        exists s, Scene.create (JObj d) = Ok s
                  /\ Scene.tokens s = [] /\ Scene.walls s = []
                  /\ Scene.lights s = [] /\ Scene.sounds s = []
                  /\ Scene.notes s = [] /\ Scene.drawings s = [])
  /\ (forall fields d name,
        In (name, None) fields -> lookup name d = None ->
        Scene.dataclass_init fields (JObj d) = Raise TypeError)
  /\ (forall fields d key v,
        In (key, v) d -> Scene.declares fields key = false ->
        Scene.dataclass_init fields (JObj d) = Raise TypeError)
  /\ (forall fields item,
        is_dict item = false ->
        Scene.dataclass_init fields item = Raise TypeError).
Proof.
  assert (Hcreate : forall doc e, Scene.create doc = Raise e ->
                                  e = AttributeError \/ e = TypeError).
  { intros doc e H. destruct doc; try (injection H as <-; left; reflexivity).
    right. unfold Scene.create in H.
    repeat match type of H with
           | bind ?m _ = Raise _ =>
               let E := fresh "E" in
               destruct m eqn:E; cbn [bind] in H;
               [|injection H as <-;
                 eapply CreateFacts.instances_raises; exact E]
           end.
    discriminate. }
  split; [exact Hcreate|].
  split; [|split; [|split; [|split; [|split; [|split]]]]].
  - intros loads text e H. unfold Scene.from_json_string in H.
    destruct (loads text) as [doc|e'] eqn:Hl; cbn [bind] in H.
    + right. exact (Hcreate doc e H).
    + left. injection H as <-. reflexivity.
  - intros doc H. destruct doc; try reflexivity. discriminate.
  - intros d s H. unfold Scene.create in H.
    repeat (apply bind_Ok in H as (? & ? & H)).
    injection H as <-. repeat split.
  - intros d (Ht & Hw & Hl & Hs & Hn & Hd). eexists.
    unfold Scene.create.
    rewrite !CreateFacts.instances_absent by assumption.
    cbn [bind]. split; [reflexivity|]. repeat split.
  - apply CreateFacts.dataclass_init_required.
  - intros fields d key v Hin Hundeclared. unfold Scene.dataclass_init.
    destruct (forallb _ d) eqn:Hall; [|reflexivity].
    rewrite forallb_forall in Hall. specialize (Hall (key, v) Hin).
    cbn [fst] in Hall. congruence.
  - intros fields item H. destruct item; try reflexivity. discriminate.
Qed.

Lemma C6_create_witness :
  let d := [("name", JStr "Cave"); ("width", JInt 1000)]%string in
  (exists s, Scene.create (JObj d) = Ok s
             /\ Scene.name s = JStr "Cave" /\ Scene.width s = JInt 1000
             /\ Scene.height s = JNull /\ Scene.tokens s = [])
  /\ Scene.create (JInt 3) = Raise AttributeError
  /\ Scene.dataclass_init Scene.Wall_fields (JObj [("_id", JStr "w")]%string)
     = Raise TypeError
  /\ Scene.dataclass_init Scene.Wall_fields
       (JObj [("colour", JStr "red")]%string)
     = Raise TypeError
  /\ Scene.dataclass_init Scene.Wall_fields (JStr "wall") = Raise TypeError
  /\ Scene.from_json_string Sample.loads "[]" = Raise AttributeError.
Proof.
  intros d.
  pose proof C6_create
    as (Hexn & Hfrom & Hnot & Hholds & Hempty & Hreq & Hundecl & Hitem).
  split.
  - destruct (Hempty d) as (s & Hs & Ht & _);
      [repeat split; reflexivity|].
    exists s. split; [exact Hs|].
    pose proof (Hholds d s Hs) as Hdoc. unfold holds_document in Hdoc.
    decompose [and] Hdoc.
    repeat split; try assumption.
  - split; [apply Hnot; reflexivity|].
    split.
    { apply (Hreq Scene.Wall_fields [("_id", JStr "w")]%string "c"%string);
        [vm_compute; tauto|reflexivity]. }
    split.
    { apply (Hundecl Scene.Wall_fields [("colour", JStr "red")]%string
               "colour"%string (JStr "red"));
        [left; reflexivity|reflexivity]. }
    split; [apply Hitem; reflexivity|].
    destruct (Scene.from_json_string Sample.loads "[]") as [s|e] eqn:H;
      [vm_compute in H; discriminate|].
    destruct (Hfrom _ _ _ H) as [Hl|[->| ->]];
      [vm_compute in Hl; discriminate|reflexivity|].
    vm_compute in H. discriminate.
Defined.

(** ** The output archive after a failure *)

Module BundleFacts.
Import AdventureBundle.

Lemma distinct_names_unique (zip : archive) (name d d' : string) :
  NoDup (namelist zip) -> In (name, d) zip -> In (name, d') zip -> d = d'.
Proof.
  unfold namelist. induction zip as [|[n x] zip IH]; intros Hnd H H';
    [destruct H|].
  cbn [map fst] in Hnd. inversion Hnd as [|? ? Hnotin Hnd']; subst.
  destruct H as [H|H], H' as [H'|H'].
  - congruence.
  - injection H as -> ->. exfalso. apply Hnotin.
    apply (in_map fst) in H'. exact H'.
  - injection H' as -> ->. exfalso. apply Hnotin.
    apply (in_map fst) in H. exact H.
  - exact (IH Hnd' H H').
Qed.

(** Reading a member by its name returns its data. *)
Lemma read_member (zip : archive) (name data : string) :
  NoDup (namelist zip) -> In (name, data) zip -> read zip name = Ok data.
Proof.
  intros Hnd Hin. unfold read.
  destruct (find _ (rev zip)) as [[n d]|] eqn:Hfind.
  - apply find_some in Hfind as [Hm Heq]. cbn [fst snd] in *.
    apply String.eqb_eq in Heq. subst n.
    apply in_rev in Hm. f_equal.
    exact (distinct_names_unique zip name d data Hnd Hm Hin).
  - exfalso.
    assert (Hrev : In (name, data) (rev zip)) by (apply in_rev in Hin; exact Hin).
    pose proof (find_none _ _ Hfind (name, data) Hrev) as Hne.
    cbn [fst] in Hne. rewrite String.eqb_refl in Hne. discriminate.
Qed.

Section Reading.
Context {S : Type}.
Variable from_json_string : string -> result S.

(** Members that are not scenes are copied to the output in order. *)
Lemma read_items_passthrough (zip pre : archive) (rest : list string)
    (st : state) :
  (forall m, In m pre ->
             Path.match_scene_json (fst m) = false
             /\ read zip (fst m) = Ok (snd m)) ->
  read_items from_json_string zip st (map fst pre ++ rest)
  = read_items from_json_string zip
      (mk_state (scenes st) (output_zip_file st ++ pre)) rest.
Proof.
  revert st. induction pre as [|[n d] pre IH]; intros st Hpre.
  - cbn [map app]. rewrite app_nil_r. destruct st; reflexivity.
  - cbn [map app fst read_items].
    destruct (Hpre (n, d) (or_introl eq_refl)) as [Hm Hr].
    cbn [fst snd] in Hm, Hr.
    unfold read_item at 1. rewrite Hr, Hm.
    rewrite IH by (intros m Hin; apply Hpre; right; exact Hin).
    cbn [scenes output_zip_file]. unfold writestr.
    rewrite <- app_assoc. reflexivity.
Qed.

End Reading.

End BundleFacts.

(** C4 fails on the code: [perform_scaling] copies the input archive to
    the output path and then opens that path with [mode="w"], which
    truncates it.  When the scene member [name] fails to parse, after the
    members [before] that were all passed through, the output file holds
    [before] alone: neither the failed scene nor any member after it, so
    not a copy of the input. *)
Theorem C4_failure_truncates_output
    {S : Type} (from_json_string : string -> result S)
    (scale_scene : S -> Decimal.t -> result S) (to_json : S -> result string)
    (scale : Decimal.t) (before after : AdventureBundle.archive)
    (name data : string) (e : exn) :
  let input := before ++ (name, data) :: after in
  distinct_names input ->
  (forall m, In m before -> Path.match_scene_json (fst m) = false) ->
  Path.match_scene_json name = true ->
  from_json_string data = Raise e ->
  let outcome :=
    AdventureBundle.perform_scaling from_json_string scale_scene to_json
      [] input scale in
  AdventureBundle.raised outcome = Some e
  /\ AdventureBundle.output_file outcome = before
  /\ AdventureBundle.output_file outcome <> input.
Proof.
  intros input Hnd Hpass Hscene Hfail outcome.
  assert (Hout : outcome = AdventureBundle.mk_outcome before (Some e)).
  { subst outcome. unfold AdventureBundle.perform_scaling,
      AdventureBundle.copyfile, AdventureBundle.ZipFile_w,
      AdventureBundle.namelist.
    subst input. rewrite map_app. cbn [map fst].
    rewrite BundleFacts.read_items_passthrough.
    - cbn [AdventureBundle.read_items AdventureBundle.scenes
             AdventureBundle.output_zip_file app].
      unfold AdventureBundle.read_item.
      rewrite (BundleFacts.read_member _ name data Hnd)
        by (apply in_or_app; right; left; reflexivity).
      rewrite Hscene, Hfail. reflexivity.
    - intros m Hin. split; [apply Hpass; exact Hin|].
      destruct m as [n d]. apply BundleFacts.read_member; [exact Hnd|].
      apply in_or_app. left. exact Hin. }
  rewrite Hout. cbn. split; [reflexivity|]. split; [reflexivity|].
  intros Heq. apply (f_equal (@List.length _)) in Heq.
  subst input. rewrite length_app in Heq. cbn in Heq. lia.
Qed.

Lemma C4_failure_truncates_output_witness :
  let outcome :=
    AdventureBundle.perform_scaling
      (Scene.from_json_string Sample.loads)
      (fun scene _ => Ok scene) (fun _ => Ok "{}"%string)
      [] Sample.bundle Sample.two in
  AdventureBundle.raised outcome = Some AttributeError
  /\ AdventureBundle.output_file outcome = [("thumb.png", "PNG")]%string
  /\ AdventureBundle.output_file outcome <> Sample.bundle.
Proof.
  apply (C4_failure_truncates_output
           (Scene.from_json_string Sample.loads)
           (fun scene _ => Ok scene) (fun _ => Ok "{}"%string) Sample.two
           [("thumb.png", "PNG")]%string [("module.json", "{}")]%string
           "scene/cave.json" "[]" AttributeError).
  - unfold distinct_names. cbn.
    repeat constructor; cbn; intuition discriminate.
  - intros m [<-|[]]. reflexivity.
  - reflexivity.
  - reflexivity.
Defined.

(** * Further properties of the code *)

(** ** [integer_x] and [integer_y] *)

Module NearestFacts.
Import Decimal DecimalFacts.

(** The rounded quotient is within half a unit of the quotient. *)
Lemma zround_nearest (c p : Z) :
  0 < p -> 2 * Z.abs (zround c p * p - c) <= p.
Proof.
  intros Hp. unfold zround.
  pose proof (Z.div_mod c p ltac:(lia)) as Hdm.
  pose proof (Z.mod_pos_bound c p Hp) as Hm.
  destruct (Z.compare_spec (2 * (c mod p)) p);
    [destruct (Z.even (c / p))| |]; nia.
Qed.

Lemma Qround_half_even_nearest (q : Q) :
  (Qabs (inject_Z (Qround_half_even q) - q) <= 1 # 2)%Q.
Proof.
  destruct q as [a b]. rewrite Qround_half_even_frac.
  pose proof (zround_nearest a (Z.pos b) ltac:(lia)) as H.
  unfold Qabs, Qle, Qminus, Qplus, Qopp, inject_Z. cbn [Qnum Qden].
  rewrite Pos.mul_1_l.
  replace (zround a (Z.pos b) * Z.pos b + - a * 1)
    with (zround a (Z.pos b) * Z.pos b - a) by lia.
  lia.
Qed.

Lemma Qround_half_even_integer (q : Q) (n : Z) :
  (q == inject_Z n)%Q -> Qround_half_even q = n.
Proof.
  intros H. rewrite (Qround_half_even_comp _ (n # 1)) by exact H.
  rewrite Qround_half_even_frac. apply zround_1.
Qed.

(** A decimal whose value is an integer of at most 28 digits rounds to
    that integer. *)
Lemma round_to_int_integer (d : t) (n : Z) :
  (to_Q d == inject_Z n)%Q -> Z.abs n <= 10 ^ prec - 1 ->
  round_to_int d = Ok n.
Proof.
  intros Hval Hn.
  destruct (round_to_int_total d) as [r Hr].
  - rewrite Hval. change (Qabs (inject_Z n)) with (inject_Z (Z.abs n)).
    rewrite <- Zle_Qle. exact Hn.
  - rewrite Hr. f_equal. rewrite (round_to_int_spec d r Hr).
    apply Qround_half_even_integer. exact Hval.
Qed.

(** What [quantize_1] returns has at most 28 digits, and it raises
    nothing but InvalidOperation. *)
Lemma round_to_int_bounded (d : t) (r : Z) :
  round_to_int d = Ok r -> Z.abs r <= 10 ^ prec - 1.
Proof.
  unfold round_to_int, quantize_1.
  destruct (Z.eqb_spec (coeff d) 0) as [Hz|Hnz].
  - cbn [bind]. intros [= <-]. vm_compute. discriminate.
  - destruct (prec <? ndigits (coeff d) + exp d); [discriminate|].
    set (c := if 0 <=? exp d then _ else _).
    destruct (Z.ltb_spec prec (ndigits c)) as [|Hfit]; [discriminate|].
    cbn [bind]. intros [= <-]. unfold to_int. cbn [coeff exp Z.leb Z.compare].
    rewrite Z.mul_1_r.
    destruct (Z.eq_dec c 0) as [->|Hc]; [vm_compute; discriminate|].
    pose proof (ndigits_bounds c Hc) as [_ Hhi].
    assert (10 ^ ndigits c <= 10 ^ prec)
      by (apply Z.pow_le_mono_r; [lia|exact Hfit]).
    lia.
Qed.

Lemma round_to_int_raises (d : t) (e : exn) :
  round_to_int d = Raise e -> e = InvalidOperation.
Proof.
  unfold round_to_int, quantize_1.
  destruct (coeff d =? 0); [discriminate|].
  destruct (prec <? ndigits (coeff d) + exp d);
    [intros [= <-]; reflexivity|].
  destruct (prec <? ndigits _); [intros [= <-]; reflexivity|discriminate].
Qed.

End NearestFacts.

(** X1: when [integer_x] or [integer_y] returns, the integer is a nearest
    one: at most one half away from the coordinate.  A coordinate whose
    value is already an integer of at most 28 digits is returned as it
    is, whatever its exponent. *)
Theorem X1_integer_is_nearest (p : Point.T) :
  (forall r, Point.integer_x p = Ok r ->
             (Qabs (inject_Z r - Decimal.to_Q (Point.x p)) <= 1 # 2)%Q)
  /\ (forall r, Point.integer_y p = Ok r ->
                (Qabs (inject_Z r - Decimal.to_Q (Point.y p)) <= 1 # 2)%Q)
  /\ (forall n, (Decimal.to_Q (Point.x p) == inject_Z n)%Q ->
                Z.abs n <= 10 ^ 28 - 1 -> Point.integer_x p = Ok n)
  /\ (forall n, (Decimal.to_Q (Point.y p) == inject_Z n)%Q ->
                Z.abs n <= 10 ^ 28 - 1 -> Point.integer_y p = Ok n).
Proof.
  unfold Point.integer_x, Point.integer_y.
  split; [|split; [|split]].
  - intros r H. rewrite (DecimalFacts.round_to_int_spec _ _ H).
    apply NearestFacts.Qround_half_even_nearest.
  - intros r H. rewrite (DecimalFacts.round_to_int_spec _ _ H).
    apply NearestFacts.Qround_half_even_nearest.
  - intros n. apply NearestFacts.round_to_int_integer.
  - intros n. apply NearestFacts.round_to_int_integer.
Qed.

Lemma X1_integer_is_nearest_witness :
  let p := Point.mk (Decimal.mk 12340 (-2)) (Decimal.mk 7 2) in
  Point.integer_x p = Ok 123
  /\ (Qabs (inject_Z 123 - Decimal.to_Q (Point.x p)) <= 1 # 2)%Q
  /\ Point.integer_y p = Ok 700.
Proof.
  intros p.
  pose proof (X1_integer_is_nearest p) as (Hx & _ & _ & Hy).
  assert (H : Point.integer_x p = Ok 123) by reflexivity.
  split; [exact H|]. split; [exact (Hx 123 H)|].
  apply Hy; [vm_compute; reflexivity|vm_compute; discriminate].
Defined.

(** X2: the exceptions of [int(v.quantize(Decimal(1)))], the expression
    of [integer_x] and [integer_y].  On a finite coordinate it raises
    nothing but decimal.InvalidOperation, and only when the magnitude of
    the coordinate is above [10 ^ 28 - 1]; what it returns has at most 28
    digits.  On a coordinate that is not finite it always raises:
    ValueError on a quiet NaN, decimal.InvalidOperation on a signalling
    NaN and on an infinity. *)
Theorem X2_integer_errors (p : Point.T) :
  (forall e, Point.integer_x p = Raise e ->
             e = InvalidOperation
             /\ ~ (Qabs (Decimal.to_Q (Point.x p))
                   <= inject_Z (10 ^ 28 - 1))%Q)
  /\ (forall e, Point.integer_y p = Raise e ->
                e = InvalidOperation
                /\ ~ (Qabs (Decimal.to_Q (Point.y p))
                      <= inject_Z (10 ^ 28 - 1))%Q)
  /\ (forall r, Point.integer_x p = Ok r -> Z.abs r <= 10 ^ 28 - 1)
  /\ (forall r, Point.integer_y p = Ok r -> Z.abs r <= 10 ^ 28 - 1)
  /\ Point.integer_x p
     = Decimal.round_to_int_value (Decimal.Finite (Point.x p))
  /\ Point.integer_y p
     = Decimal.round_to_int_value (Decimal.Finite (Point.y p))
  /\ Decimal.round_to_int_value (Decimal.NaN false) = Raise ValueError
  /\ Decimal.round_to_int_value (Decimal.NaN true) = Raise InvalidOperation
  /\ (forall negative,
        Decimal.round_to_int_value (Decimal.Infinity negative)
        = Raise InvalidOperation)
  /\ (forall v e, Decimal.round_to_int_value v = Raise e ->
                  e = InvalidOperation
                  \/ (e = ValueError /\ v = Decimal.NaN false)).
Proof.
  unfold Point.integer_x, Point.integer_y.
  assert (Hraise : forall d e, Decimal.round_to_int d = Raise e ->
            e = InvalidOperation
            /\ ~ (Qabs (Decimal.to_Q d) <= inject_Z (10 ^ 28 - 1))%Q).
  { intros d e H. split; [eapply NearestFacts.round_to_int_raises; exact H|].
    intros Hb. destruct (DecimalFacts.round_to_int_total d Hb) as [r Hr].
    congruence. }
  assert (Hfinite : forall d, Decimal.round_to_int d
            = Decimal.round_to_int_value (Decimal.Finite d)).
  { intros d. unfold Decimal.round_to_int, Decimal.round_to_int_value,
      Decimal.quantize_1_value.
    destruct (Decimal.quantize_1 d); reflexivity. }
  split; [intros e; apply Hraise|].
  split; [intros e; apply Hraise|].
  split; [intros r; apply NearestFacts.round_to_int_bounded|].
  split; [intros r; apply NearestFacts.round_to_int_bounded|].
  split; [apply Hfinite|]. split; [apply Hfinite|].
  split; [reflexivity|]. split; [reflexivity|].
  split; [reflexivity|].
  intros [d|negative|[|]] e H.
  - left. rewrite <- Hfinite in H.
    eapply NearestFacts.round_to_int_raises. exact H.
  - left. injection H as <-. reflexivity.
  - left. injection H as <-. reflexivity.
  - right. injection H as <-. split; reflexivity.
Qed.

Lemma X2_integer_errors_witness :
  let p := Point.mk (Decimal.mk 3 28) (Decimal.mk (10 ^ 28 - 1) 0) in
  Point.integer_x p = Raise InvalidOperation
  /\ ~ (Qabs (Decimal.to_Q (Point.x p)) <= inject_Z (10 ^ 28 - 1))%Q
  /\ Point.integer_y p = Ok (10 ^ 28 - 1)
  /\ Z.abs (10 ^ 28 - 1) <= 10 ^ 28 - 1.
Proof.
  intros p.
  pose proof (X2_integer_errors p) as (Hx & _ & _ & Hy & _).
  assert (H : Point.integer_x p = Raise InvalidOperation) by reflexivity.
  assert (H' : Point.integer_y p = Ok (10 ^ 28 - 1)) by reflexivity.
  split; [exact H|]. split; [exact (proj2 (Hx _ H))|].
  split; [exact H'|exact (Hy _ H')].
Defined.

(** ** Reflection *)

Module ReflectFacts.
Import Decimal.

Lemma ndigits_opp (c : Z) : ndigits (- c) = ndigits c.
Proof. unfold ndigits. rewrite Z.abs_opp. reflexivity. Qed.

Lemma round_signed_opp (c k : Z) : round_signed (- c) k = - round_signed c k.
Proof.
  unfold round_signed. rewrite Z.sgn_opp, Z.abs_opp. lia.
Qed.

Lemma fix_neg (d : t) : fix_ (neg d) = neg (fix_ d).
Proof.
  unfold fix_, neg. cbn [coeff exp]. rewrite ndigits_opp.
  destruct (ndigits (coeff d) <=? prec); [reflexivity|].
  rewrite round_signed_opp, ndigits_opp.
  destruct (ndigits (round_signed _ _) <=? prec); cbn [coeff exp];
    [reflexivity|].
  rewrite Z.quot_opp_l by lia. reflexivity.
Qed.

Lemma mul_neg_l (a b : t) : mul (neg a) b = neg (mul a b).
Proof.
  unfold mul. rewrite <- fix_neg. unfold neg. cbn [coeff exp].
  rewrite Z.mul_opp_l. reflexivity.
Qed.

Lemma add_neg (a b : t) : add (neg a) (neg b) = neg (add a b).
Proof.
  unfold add. rewrite <- fix_neg. unfold neg, sum_coeff. cbn [coeff exp].
  f_equal. f_equal. lia.
Qed.

Lemma round_to_int_neg (d : t) (r : Z) :
  round_to_int d = Ok r -> round_to_int (neg d) = Ok (- r).
Proof.
  unfold round_to_int, quantize_1, neg. cbn [coeff exp].
  rewrite ndigits_opp.
  destruct (Z.eqb_spec (coeff d) 0) as [Hz|Hnz].
  - rewrite Hz. cbn. intros [= <-]. reflexivity.
  - destruct (Z.eqb_spec (- coeff d) 0); [lia|].
    destruct (prec <? ndigits (coeff d) + exp d); [discriminate|].
    assert (Hc : (if 0 <=? exp d then - coeff d * 10 ^ exp d
                  else round_signed (- coeff d) (- exp d))
                 = - (if 0 <=? exp d then coeff d * 10 ^ exp d
                      else round_signed (coeff d) (- exp d))).
    { destruct (0 <=? exp d); [lia|apply round_signed_opp]. }
    rewrite Hc, ndigits_opp.
    destruct (prec <? ndigits _); [discriminate|].
    cbn [bind]. unfold to_int. cbn [coeff exp Z.leb Z.compare].
    intros [= <-]. f_equal. lia.
Qed.

End ReflectFacts.

(** X3: the dilation has no directional bias.  Reflecting the point and
    the origin through (0, 0) reflects the scaled point, digit for digit,
    and the integers [integer_x] and [integer_y] return change sign: ties
    are rounded to even on both sides of zero. *)
Theorem X3_reflection (self origin : Point.T) (scale : Decimal.t) :
  Point.translate_point (reflect self) (reflect origin) scale
  = reflect (Point.translate_point self origin scale)
  /\ (forall r, Point.integer_x self = Ok r ->
                Point.integer_x (reflect self) = Ok (- r))
  /\ (forall r, Point.integer_y self = Ok r ->
                Point.integer_y (reflect self) = Ok (- r)).
Proof.
  split; [|split].
  - unfold Point.translate_point, Point._translate_point, reflect.
    cbn [Point.x Point.y].
    rewrite !ReflectFacts.mul_neg_l, !ReflectFacts.add_neg. reflexivity.
  - intros r. apply ReflectFacts.round_to_int_neg.
  - intros r. apply ReflectFacts.round_to_int_neg.
Qed.

Lemma X3_reflection_witness :
  let p := Point.mk (Decimal.mk 25 (-1)) (Decimal.mk 35 (-1)) in
  Point.integer_x p = Ok 2 /\ Point.integer_x (reflect p) = Ok (-2)
  /\ Point.integer_y p = Ok 4 /\ Point.integer_y (reflect p) = Ok (-4).
Proof.
  intros p.
  pose proof (X3_reflection p p Sample.two) as (_ & Hx & Hy).
  assert (H2 : Point.integer_x p = Ok 2) by reflexivity.
  assert (H4 : Point.integer_y p = Ok 4) by reflexivity.
  split; [exact H2|]. split; [exact (Hx 2 H2)|].
  split; [exact H4|exact (Hy 4 H4)].
Defined.

(** ** One transform for every entity *)

Module EntityFacts.

Lemma position_bind (origin : Point.T) (scale : Decimal.t) (A : Type)
    (x y : Z) (k : Z -> Z -> A) :
  (nx <- Point.integer_x
           (Point.translate_point
              (Point.mk (Decimal.of_int x) (Decimal.of_int y))
              origin scale) ;;
   ny <- Point.integer_y
           (Point.translate_point
              (Point.mk (Decimal.of_int x) (Decimal.of_int y))
              origin scale) ;;
   Ok (k nx ny))
  = (p <- scaled_position origin scale x y ;; Ok (k (fst p) (snd p))).
Proof.
  unfold scaled_position.
  destruct (Point.integer_x _) as [nx|e1]; [|reflexivity].
  cbn [bind]. destruct (Point.integer_y _) as [ny|e2]; reflexivity.
Qed.

Lemma scale_token_position origin scale e :
  Scene.scale_token origin scale e
  = (p <- scaled_position origin scale (Token.x e) (Token.y e) ;;
     Ok (Token.with_xy e (fst p) (snd p))).
Proof. apply (position_bind _ _ _ _ _ (Token.with_xy e)). Qed.

Lemma scale_light_position origin scale e :
  Scene.scale_light origin scale e
  = (p <- scaled_position origin scale (Light.x e) (Light.y e) ;;
     Ok (Light.with_xy e (fst p) (snd p))).
Proof. apply (position_bind _ _ _ _ _ (Light.with_xy e)). Qed.

Lemma scale_sound_position origin scale e :
  Scene.scale_sound origin scale e
  = (p <- scaled_position origin scale (Sound.x e) (Sound.y e) ;;
     Ok (Sound.with_xy e (fst p) (snd p))).
Proof. apply (position_bind _ _ _ _ _ (Sound.with_xy e)). Qed.

Lemma scale_note_position origin scale e :
  Scene.scale_note origin scale e
  = (p <- scaled_position origin scale (Note.x e) (Note.y e) ;;
     Ok (Note.with_xy e (fst p) (snd p))).
Proof. apply (position_bind _ _ _ _ _ (Note.with_xy e)). Qed.

Lemma scale_drawing_position origin scale e :
  Scene.scale_drawing origin scale e
  = (p <- scaled_position origin scale (Drawing.x e) (Drawing.y e) ;;
     Ok (Drawing.with_xy e (fst p) (snd p))).
Proof. apply (position_bind _ _ _ _ _ (Drawing.with_xy e)). Qed.

Lemma scale_wall_position origin scale e x1 y1 x2 y2 rest :
  Wall.c e = x1 :: y1 :: x2 :: y2 :: rest ->
  Scene.scale_wall origin scale e
  = (p1 <- scaled_position origin scale x1 y1 ;;
     p2 <- scaled_position origin scale x2 y2 ;;
     Ok (Wall.with_c e [fst p1; snd p1; fst p2; snd p2])).
Proof.
  intros Hc.
  unfold Scene.scale_wall, Point.get_points_from_walls. rewrite Hc.
  cbn [bind fst snd]. unfold Scene.scale_wall_point, scaled_position.
  destruct (Point.integer_x _) as [a|e1]; [|reflexivity]. cbn [bind].
  destruct (Point.integer_y _) as [b|e2]; [|reflexivity]. cbn [bind].
  destruct (Point.integer_x _) as [c|e3]; [|reflexivity]. cbn [bind].
  destruct (Point.integer_y _) as [d|e4]; reflexivity.
Qed.

End EntityFacts.

(** X4: the six [_scale_*] loops move an entity by one and the same
    function of its (x, y): a token, light, sound, note or drawing gets
    the scaled position of its point, and a wall the scaled positions of
    its two endpoints, in order. *)
Theorem X4_one_transform (origin : Point.T) (scale : Decimal.t) :
  (forall e, Scene.scale_token origin scale e
             = (p <- scaled_position origin scale (Token.x e) (Token.y e) ;;
                Ok (Token.with_xy e (fst p) (snd p))))
  /\ (forall e, Scene.scale_light origin scale e
                = (p <- scaled_position origin scale (Light.x e) (Light.y e) ;;
                   Ok (Light.with_xy e (fst p) (snd p))))
  /\ (forall e, Scene.scale_sound origin scale e
                = (p <- scaled_position origin scale (Sound.x e) (Sound.y e) ;;
                   Ok (Sound.with_xy e (fst p) (snd p))))
  /\ (forall e, Scene.scale_note origin scale e
                = (p <- scaled_position origin scale (Note.x e) (Note.y e) ;;
                   Ok (Note.with_xy e (fst p) (snd p))))
  /\ (forall e, Scene.scale_drawing origin scale e
                = (p <- scaled_position origin scale
                          (Drawing.x e) (Drawing.y e) ;;
                   Ok (Drawing.with_xy e (fst p) (snd p))))
  /\ (forall e x1 y1 x2 y2 rest,
        Wall.c e = x1 :: y1 :: x2 :: y2 :: rest ->
        Scene.scale_wall origin scale e
        = (p1 <- scaled_position origin scale x1 y1 ;;
           p2 <- scaled_position origin scale x2 y2 ;;
           Ok (Wall.with_c e [fst p1; snd p1; fst p2; snd p2]))).
Proof.
  split; [apply EntityFacts.scale_token_position|].
  split; [apply EntityFacts.scale_light_position|].
  split; [apply EntityFacts.scale_sound_position|].
  split; [apply EntityFacts.scale_note_position|].
  split; [apply EntityFacts.scale_drawing_position|].
  apply EntityFacts.scale_wall_position.
Qed.

Lemma X4_one_transform_witness :
  let origin := Scene.get_origin Sample.cave in
  scaled_position origin Sample.two 0 100 = Ok (-25, 175)
  /\ Scene.scale_wall origin Sample.two (Sample.wall [0; 100; 0; 100; 7])
     = Ok (Sample.wall [-25; 175; -25; 175])
  /\ Scene.scale_token origin Sample.two (Sample.token 0 100)
     = Ok (Sample.token (-25) 175).
Proof.
  intros origin.
  pose proof (X4_one_transform origin Sample.two)
    as (Ht & _ & _ & _ & _ & Hw).
  assert (Hp : scaled_position origin Sample.two 0 100 = Ok (-25, 175))
    by reflexivity.
  split; [exact Hp|]. split.
  - rewrite (Hw (Sample.wall [0; 100; 0; 100; 7]) 0 100 0 100 [7] eq_refl).
    rewrite Hp. reflexivity.
  - rewrite (Ht (Sample.token 0 100)).
    change (Token.x (Sample.token 0 100)) with 0.
    change (Token.y (Sample.token 0 100)) with 100.
    rewrite Hp. reflexivity.
Defined.

(** ** Scales with few decimal places *)

Module ShortScaleFacts.
Import Decimal DecimalFacts.

Lemma fits_bound (c B : Z) : Z.abs c <= B -> B < 10 ^ 28 -> ndigits c <= prec.
Proof.
  intros Hc HB. apply ndigits_le; [unfold prec; lia|]. unfold prec. lia.
Qed.

Lemma fits_intro (c B : Z) : Z.abs c <= B -> B < 10 ^ 28 -> fits c = true.
Proof.
  intros Hc HB. unfold fits. apply Z.leb_le. eapply fits_bound; eassumption.
Qed.

Section Axis.
Variables (sh x c e : Z).
Hypothesis Hsh : Z.abs sh <= 10 ^ 20.
Hypothesis Hx : Z.abs x <= 10 ^ 20.
Hypothesis He : -5 <= e <= 0.
Hypothesis Hc : Z.abs c <= 10 ^ (1 - e).

Let P := 10 ^ (- e).

Lemma P_bounds : 1 <= P <= 10 ^ 5 /\ Z.abs c <= 10 * P.
Proof.
  subst P. split.
  - split.
    + apply (Z.pow_le_mono_r 10 0 (- e)); lia.
    + apply Z.pow_le_mono_r; lia.
  - replace (1 - e) with (1 + - e) in Hc by lia.
    rewrite Z.pow_add_r in Hc by lia. exact Hc.
Qed.

Lemma origin_repr : mul (of_int sh) half = mk (sh * 5) (-1).
Proof.
  unfold mul. rewrite fix_exact; [reflexivity|].
  cbn [coeff exp of_int half]. apply (fits_bound _ (5 * 10 ^ 20)); lia.
Qed.

Lemma one_minus_repr : sub (of_int 1) (mk c e) = mk (P - c) e.
Proof.
  unfold sub, add, neg, sum_coeff. cbn [coeff exp of_int].
  rewrite Z.min_r by lia.
  replace (1 * 10 ^ (0 - e) + - c * 10 ^ (e - e)) with (P - c)
    by (subst P; rewrite Z.sub_diag; change (10 ^ 0) with 1;
        replace (0 - e) with (- e) by lia; lia).
  apply fix_exact. cbn [coeff].
  destruct P_bounds as [[? ?] ?].
  apply (fits_bound _ (11 * 10 ^ 5)); lia.
Qed.

Lemma scaled_origin_repr :
  mul (mk (sh * 5) (-1)) (mk (P - c) e) = mk (sh * 5 * (P - c)) (-1 + e).
Proof.
  unfold mul. cbn [coeff exp]. apply fix_exact. cbn [coeff].
  destruct P_bounds as [[? ?] ?].
  apply (fits_bound _ (5 * 10 ^ 20 * (11 * 10 ^ 5))); [|lia].
  rewrite Z.abs_mul. apply Z.mul_le_mono_nonneg; lia.
Qed.

Lemma scaled_point_repr : mul (of_int x) (mk c e) = mk (x * c) e.
Proof.
  unfold mul. cbn [coeff exp of_int]. rewrite Z.add_0_l.
  apply fix_exact. cbn [coeff].
  destruct P_bounds as [[? ?] ?].
  apply (fits_bound _ (10 ^ 20 * 10 ^ 6)); [|lia].
  rewrite Z.abs_mul. apply Z.mul_le_mono_nonneg; lia.
Qed.

Lemma exact_axis_short :
  exact_axis (mul (of_int sh) half) (of_int x) (mk c e) = true.
Proof.
  destruct P_bounds as [[HP1 HP5] HcP].
  unfold exact_axis.
  rewrite origin_repr, one_minus_repr, scaled_origin_repr, scaled_point_repr.
  assert (Hprod : Z.abs (sh * 5 * (P - c)) <= 5 * 10 ^ 20 * (11 * 10 ^ 5)).
  { rewrite Z.abs_mul. apply Z.mul_le_mono_nonneg; lia. }
  assert (Hxc : Z.abs (x * c) <= 10 ^ 20 * 10 ^ 6).
  { rewrite Z.abs_mul. apply Z.mul_le_mono_nonneg; lia. }
  repeat (apply andb_true_intro; split).
  - unfold sum_coeff, neg. cbn [coeff exp of_int].
    rewrite Z.min_r by lia.
    apply (fits_intro _ (11 * 10 ^ 5)); [|lia].
    rewrite Z.sub_diag. change (10 ^ 0) with 1.
    replace (0 - e) with (- e) by lia. fold P. lia.
  - cbn [coeff]. apply (fits_intro _ (5 * 10 ^ 20 * (11 * 10 ^ 5))); lia.
  - cbn [coeff of_int]. apply (fits_intro _ (10 ^ 20 * 10 ^ 6)); lia.
  - unfold sum_coeff. cbn [coeff exp].
    rewrite Z.min_l by lia. rewrite Z.sub_diag.
    replace (e - (-1 + e)) with 1 by lia.
    change (10 ^ 0) with 1. change (10 ^ 1) with 10.
    apply (fits_intro _ (5 * 10 ^ 20 * (11 * 10 ^ 5) + 10 ^ 20 * 10 ^ 6 * 10));
      lia.
Qed.

End Axis.
End ShortScaleFacts.

Module ExactFacts.
Import Decimal DecimalFacts.

Lemma short_scale_magnitude (s : t) : short_scale s -> magnitude s 1.
Proof. intros [He Hc]. right. split; [lia|exact Hc]. Qed.

(** One axis under a short scale: no rounding before the last one. *)
Lemma axis_short (sh x : Z) (s : t) :
  int_range sh -> int_range x -> short_scale s ->
  round_to_int
    (add (mul (mul (of_int sh) half) (sub (of_int 1) s)) (mul (of_int x) s))
  = Ok (Qround_half_even (dilated sh x s)).
Proof.
  intros Hsh Hx Hs.
  destruct (ReturnFacts.magnitude_axis (mul (of_int sh) half) (of_int x) s)
    as [r Hr].
  - apply (MagnitudeFacts.magnitude_mul _ half 20 0);
      auto using ReturnFacts.magnitude_int, ReturnFacts.magnitude_half.
  - apply ReturnFacts.magnitude_int. exact Hx.
  - apply short_scale_magnitude. exact Hs.
  - rewrite Hr. f_equal. rewrite (round_to_int_spec _ _ Hr).
    apply Qround_half_even_comp.
    destruct s as [c e]. destruct Hs as [He Hc]. cbn [coeff exp] in He, Hc.
    rewrite PointFacts.axis_exact
      by (apply ShortScaleFacts.exact_axis_short; assumption).
    rewrite OriginFacts.half_exact by (unfold int_range in Hsh; lia).
    rewrite to_Q_of_int. reflexivity.
Qed.

Lemma position_short (self : Scene.T) (s : t) (x y : Z) :
  int_range (Scene.shift_x self) -> int_range (Scene.shift_y self) ->
  int_range x -> int_range y -> short_scale s ->
  scaled_position (Scene.get_origin self) s x y
  = Ok (Qround_half_even (dilated (Scene.shift_x self) x s),
        Qround_half_even (dilated (Scene.shift_y self) y s)).
Proof.
  intros Hsx Hsy Hx Hy Hs.
  unfold scaled_position, Point.integer_x, Point.integer_y,
    Point.translate_point, Point._translate_point, Scene.get_origin.
  cbn [Point.x Point.y].
  rewrite !axis_short by assumption. reflexivity.
Qed.

(** A short scale of value 1 moves nothing. *)
Lemma position_identity (self : Scene.T) (s : t) (x y : Z) :
  int_range (Scene.shift_x self) -> int_range (Scene.shift_y self) ->
  int_range x -> int_range y -> short_scale s -> (to_Q s == 1)%Q ->
  scaled_position (Scene.get_origin self) s x y = Ok (x, y).
Proof.
  intros Hsx Hsy Hx Hy Hs H1.
  rewrite position_short by assumption.
  assert (Hd : forall sh n, Qround_half_even (dilated sh n s) = n).
  { intros sh n. apply NearestFacts.Qround_half_even_integer.
    unfold dilated. rewrite H1. ring. }
  rewrite !Hd. reflexivity.
Qed.

(** A point at the origin stays there. *)
Lemma position_fixed (self : Scene.T) (s : t) (h k : Z) :
  Scene.shift_x self = 2 * h -> Scene.shift_y self = 2 * k ->
  int_range (2 * h) -> int_range (2 * k) -> short_scale s ->
  scaled_position (Scene.get_origin self) s h k = Ok (h, k).
Proof.
  intros Hx Hy Hh Hk Hs.
  assert (int_range h) by (unfold int_range in *; lia).
  assert (int_range k) by (unfold int_range in *; lia).
  rewrite position_short by (rewrite ?Hx, ?Hy; assumption).
  assert (Hd : forall n, Qround_half_even (dilated (2 * n) n s) = n).
  { intros n. apply NearestFacts.Qround_half_even_integer.
    unfold dilated. rewrite inject_Z_mult. ring. }
  rewrite Hx, Hy, !Hd. reflexivity.
Qed.

(** A sizing field under a short scale of value 1. *)
Lemma scale_int_identity (n : Z) (s : t) :
  int_range n -> short_scale s -> (to_Q s == 1)%Q ->
  Scene.scale_int n s = Ok n.
Proof.
  intros Hn Hs H1. unfold Scene.scale_int.
  apply NearestFacts.round_to_int_integer.
  - destruct s as [c e]. destruct Hs as [He Hc]. cbn [coeff exp] in He, Hc.
    rewrite ShortScaleFacts.scaled_point_repr by assumption.
    unfold to_Q in *. cbn [coeff exp] in *.
    rewrite inject_Z_mult, <- Qmult_assoc, H1. ring.
  - unfold int_range in Hn. unfold prec. lia.
Qed.

End ExactFacts.

(** ** The origin of the dilation, in every collection *)

Module AboutOriginFacts.

Lemma scaled_position_placed origin scale x y p :
  scaled_position origin scale x y = Ok p ->
  placed origin scale x y (fst p) (snd p).
Proof.
  unfold scaled_position, placed. intros H.
  apply bind_Ok in H as (nx & Hx & H). apply bind_Ok in H as (ny & Hy & H).
  injection H as <-. split; assumption.
Qed.

Lemma for_each_moved {A : Type} (f : A -> result A) origin scale
    (px py : A -> Z) (l out : list A) :
  (forall a b, f a = Ok b -> placed origin scale (px a) (py a) (px b) (py b)) ->
  for_each f l = Ok out -> moved_about origin scale px py l out.
Proof.
  intros Hf H. split; [eapply for_each_length; exact H|].
  intros i a Hi. destruct (for_each_nth f l out H i a Hi) as (b & Hb & Hab).
  exists b. split; [exact Hb|apply Hf; exact Hab].
Qed.

Lemma for_each_dilated {A : Type} (f : A -> result A) (self : Scene.T)
    (scale : Decimal.t) (px py : A -> Z) (l out : list A) :
  (forall a b, f a = Ok b -> int_range (px a) -> int_range (py a) ->
     px b = Decimal.Qround_half_even
              (dilated (Scene.shift_x self) (px a) scale)
     /\ py b = Decimal.Qround_half_even
                 (dilated (Scene.shift_y self) (py a) scale)) ->
  for_each f l = Ok out ->
  dilated_about_half_shift self scale px py l out.
Proof.
  intros Hf H i a Hi Hx Hy.
  destruct (for_each_nth f l out H i a Hi) as (b & Hb & Hab).
  exists b. split; [exact Hb|apply Hf; assumption].
Qed.

Section About.
Variables (origin : Point.T) (scale : Decimal.t).

Lemma token_placed a b :
  Scene.scale_token origin scale a = Ok b ->
  placed origin scale (Token.x a) (Token.y a) (Token.x b) (Token.y b).
Proof.
  rewrite EntityFacts.scale_token_position. intros H.
  apply bind_Ok in H as (p & Hp & H). injection H as <-.
  exact (scaled_position_placed _ _ _ _ _ Hp).
Qed.

Lemma light_placed a b :
  Scene.scale_light origin scale a = Ok b ->
  placed origin scale (Light.x a) (Light.y a) (Light.x b) (Light.y b).
Proof.
  rewrite EntityFacts.scale_light_position. intros H.
  apply bind_Ok in H as (p & Hp & H). injection H as <-.
  exact (scaled_position_placed _ _ _ _ _ Hp).
Qed.

Lemma sound_placed a b :
  Scene.scale_sound origin scale a = Ok b ->
  placed origin scale (Sound.x a) (Sound.y a) (Sound.x b) (Sound.y b).
Proof.
  rewrite EntityFacts.scale_sound_position. intros H.
  apply bind_Ok in H as (p & Hp & H). injection H as <-.
  exact (scaled_position_placed _ _ _ _ _ Hp).
Qed.

Lemma note_placed a b :
  Scene.scale_note origin scale a = Ok b ->
  placed origin scale (Note.x a) (Note.y a) (Note.x b) (Note.y b).
Proof.
  rewrite EntityFacts.scale_note_position. intros H.
  apply bind_Ok in H as (p & Hp & H). injection H as <-.
  exact (scaled_position_placed _ _ _ _ _ Hp).
Qed.

Lemma drawing_placed a b :
  Scene.scale_drawing origin scale a = Ok b ->
  placed origin scale (Drawing.x a) (Drawing.y a)
    (Drawing.x b) (Drawing.y b).
Proof.
  rewrite EntityFacts.scale_drawing_position. intros H.
  apply bind_Ok in H as (p & Hp & H). injection H as <-.
  exact (scaled_position_placed _ _ _ _ _ Hp).
Qed.

Lemma wall_placed a b :
  Scene.scale_wall origin scale a = Ok b ->
  exists x1 y1 x2 y2 rest nx1 ny1 nx2 ny2,
    Wall.c a = x1 :: y1 :: x2 :: y2 :: rest
    /\ Wall.c b = [nx1; ny1; nx2; ny2]
    /\ placed origin scale x1 y1 nx1 ny1
    /\ placed origin scale x2 y2 nx2 ny2.
Proof.
  intros H.
  apply WallFacts.scale_wall_inv in H as (p1 & p2 & c1 & c2 & Hp & H1 & H2 & ->).
  unfold Point.get_points_from_walls in Hp.
  destruct (Wall.c a) as [|x1 [|y1 [|x2 [|y2 rest]]]] eqn:Hc;
    try discriminate.
  injection Hp as <- <-.
  apply WallFacts.scale_wall_point_inv in H1 as (nx1 & ny1 & -> & Hx1 & Hy1).
  apply WallFacts.scale_wall_point_inv in H2 as (nx2 & ny2 & -> & Hx2 & Hy2).
  exists x1, y1, x2, y2, rest, nx1, ny1, nx2, ny2.
  split; [reflexivity|]. split; [reflexivity|].
  split; split; assumption.
Qed.

Lemma walls_moved (l out : list Wall.T) :
  for_each (Scene.scale_wall origin scale) l = Ok out ->
  walls_moved_about origin scale l out.
Proof.
  intros H. split; [eapply for_each_length; exact H|].
  intros i a Hi.
  destruct (for_each_nth _ l out H i a Hi) as (b & Hb & Hab).
  destruct (wall_placed a b Hab)
    as (x1 & y1 & x2 & y2 & rest & nx1 & ny1 & nx2 & ny2 & Hrest).
  exists b, x1, y1, x2, y2, rest, nx1, ny1, nx2, ny2. auto.
Qed.

End About.

Section Exactly.
Variables (self : Scene.T) (scale : Decimal.t).
Hypothesis Hs : short_scale scale.
Hypothesis Hsx : int_range (Scene.shift_x self).
Hypothesis Hsy : int_range (Scene.shift_y self).

Lemma position_dilated (x y : Z) (p : Z * Z) :
  int_range x -> int_range y ->
  scaled_position (Scene.get_origin self) scale x y = Ok p ->
  fst p = Decimal.Qround_half_even (dilated (Scene.shift_x self) x scale)
  /\ snd p = Decimal.Qround_half_even (dilated (Scene.shift_y self) y scale).
Proof.
  intros Hx Hy H. rewrite ExactFacts.position_short in H by assumption.
  injection H as <-. split; reflexivity.
Qed.

Lemma token_dilated a b :
  Scene.scale_token (Scene.get_origin self) scale a = Ok b ->
  int_range (Token.x a) -> int_range (Token.y a) ->
  Token.x b = Decimal.Qround_half_even
                (dilated (Scene.shift_x self) (Token.x a) scale)
  /\ Token.y b = Decimal.Qround_half_even
                   (dilated (Scene.shift_y self) (Token.y a) scale).
Proof.
  rewrite EntityFacts.scale_token_position. intros H Hx Hy.
  apply bind_Ok in H as (p & Hp & H). injection H as <-.
  exact (position_dilated _ _ _ Hx Hy Hp).
Qed.

Lemma light_dilated a b :
  Scene.scale_light (Scene.get_origin self) scale a = Ok b ->
  int_range (Light.x a) -> int_range (Light.y a) ->
  Light.x b = Decimal.Qround_half_even
                (dilated (Scene.shift_x self) (Light.x a) scale)
  /\ Light.y b = Decimal.Qround_half_even
                   (dilated (Scene.shift_y self) (Light.y a) scale).
Proof.
  rewrite EntityFacts.scale_light_position. intros H Hx Hy.
  apply bind_Ok in H as (p & Hp & H). injection H as <-.
  exact (position_dilated _ _ _ Hx Hy Hp).
Qed.

Lemma sound_dilated a b :
  Scene.scale_sound (Scene.get_origin self) scale a = Ok b ->
  int_range (Sound.x a) -> int_range (Sound.y a) ->
  Sound.x b = Decimal.Qround_half_even
                (dilated (Scene.shift_x self) (Sound.x a) scale)
  /\ Sound.y b = Decimal.Qround_half_even
                   (dilated (Scene.shift_y self) (Sound.y a) scale).
Proof.
  rewrite EntityFacts.scale_sound_position. intros H Hx Hy.
  apply bind_Ok in H as (p & Hp & H). injection H as <-.
  exact (position_dilated _ _ _ Hx Hy Hp).
Qed.

Lemma note_dilated a b :
  Scene.scale_note (Scene.get_origin self) scale a = Ok b ->
  int_range (Note.x a) -> int_range (Note.y a) ->
  Note.x b = Decimal.Qround_half_even
               (dilated (Scene.shift_x self) (Note.x a) scale)
  /\ Note.y b = Decimal.Qround_half_even
                  (dilated (Scene.shift_y self) (Note.y a) scale).
Proof.
  rewrite EntityFacts.scale_note_position. intros H Hx Hy.
  apply bind_Ok in H as (p & Hp & H). injection H as <-.
  exact (position_dilated _ _ _ Hx Hy Hp).
Qed.

Lemma drawing_dilated a b :
  Scene.scale_drawing (Scene.get_origin self) scale a = Ok b ->
  int_range (Drawing.x a) -> int_range (Drawing.y a) ->
  Drawing.x b = Decimal.Qround_half_even
                  (dilated (Scene.shift_x self) (Drawing.x a) scale)
  /\ Drawing.y b = Decimal.Qround_half_even
                     (dilated (Scene.shift_y self) (Drawing.y a) scale).
Proof.
  rewrite EntityFacts.scale_drawing_position. intros H Hx Hy.
  apply bind_Ok in H as (p & Hp & H). injection H as <-.
  exact (position_dilated _ _ _ Hx Hy Hp).
Qed.

End Exactly.

Lemma half_not_zero (n : Z) :
  n <> 0 -> ~ (inject_Z n * (1 # 2) == 0)%Q.
Proof.
  intros Hn H. unfold Qeq, Qmult, inject_Z in H. cbn [Qnum Qden] in H. lia.
Qed.

End AboutOriginFacts.

(** C2: the origin of the dilation is (shiftX * 0.5, shiftY * 0.5), half
    the grid shift (exactly so for every shift of at most 27 digits, which
    covers the 64-bit integers of a scene document) and not (0, 0) unless
    the shift is zero.  [scale_scene] takes it once from the shift the
    scene has on entry, and each of the six collections is scaled about
    that one origin: in the scene returned, every token, light, sound,
    note and drawing, and both endpoints of every wall, are at the
    integers [integer_x] and [integer_y] give for the image of their
    position under the dilation about it.  For a scale of magnitude at
    most 10 with at most five decimal places and integers of at most 20
    digits, that is [shiftX/2 * (1 - s) + x * s] and
    [shiftY/2 * (1 - s) + y * s] in rational arithmetic, rounded half to
    even, with the shift the scene had on entry. *)
Theorem C2_origin (self : Scene.T) :
  Scene.get_origin self
  = Point.mk (Decimal.mul (Decimal.of_int (Scene.shift_x self)) Decimal.half)
             (Decimal.mul (Decimal.of_int (Scene.shift_y self)) Decimal.half)
  /\ (Z.abs (Scene.shift_x self) < 10 ^ 27 ->
      (Decimal.to_Q (Point.x (Scene.get_origin self))
       == inject_Z (Scene.shift_x self) * (1 # 2))%Q)
  /\ (Z.abs (Scene.shift_y self) < 10 ^ 27 ->
      (Decimal.to_Q (Point.y (Scene.get_origin self))
       == inject_Z (Scene.shift_y self) * (1 # 2))%Q)
  /\ (Z.abs (Scene.shift_x self) < 10 ^ 27 -> Scene.shift_x self <> 0 ->
      ~ (Decimal.to_Q (Point.x (Scene.get_origin self)) == 0)%Q)
  /\ (Z.abs (Scene.shift_y self) < 10 ^ 27 -> Scene.shift_y self <> 0 ->
      ~ (Decimal.to_Q (Point.y (Scene.get_origin self)) == 0)%Q)
  /\ (forall (scale : Decimal.t) (out : Scene.T),
        Scene.scale_scene self scale = Ok out ->
        let origin := Scene.get_origin self in
        (for_each (Scene.scale_token origin scale) (Scene.tokens self)
           = Ok (Scene.tokens out)
         /\ for_each (Scene.scale_wall origin scale) (Scene.walls self)
            = Ok (Scene.walls out)
         /\ for_each (Scene.scale_light origin scale) (Scene.lights self)
            = Ok (Scene.lights out)
         /\ for_each (Scene.scale_sound origin scale) (Scene.sounds self)
            = Ok (Scene.sounds out)
         /\ for_each (Scene.scale_note origin scale) (Scene.notes self)
            = Ok (Scene.notes out)
         /\ for_each (Scene.scale_drawing origin scale)
              (Scene.drawings self)
            = Ok (Scene.drawings out))
        /\ moved_about origin scale Token.x Token.y
             (Scene.tokens self) (Scene.tokens out)
        /\ walls_moved_about origin scale
             (Scene.walls self) (Scene.walls out)
        /\ moved_about origin scale Light.x Light.y
             (Scene.lights self) (Scene.lights out)
        /\ moved_about origin scale Sound.x Sound.y
             (Scene.sounds self) (Scene.sounds out)
        /\ moved_about origin scale Note.x Note.y
             (Scene.notes self) (Scene.notes out)
        /\ moved_about origin scale Drawing.x Drawing.y
             (Scene.drawings self) (Scene.drawings out))
  /\ (forall (scale : Decimal.t) (out : Scene.T),
        Scene.scale_scene self scale = Ok out ->
        short_scale scale ->
        int_range (Scene.shift_x self) -> int_range (Scene.shift_y self) ->
        dilated_about_half_shift self scale Token.x Token.y
          (Scene.tokens self) (Scene.tokens out)
        /\ dilated_about_half_shift self scale Light.x Light.y
             (Scene.lights self) (Scene.lights out)
        /\ dilated_about_half_shift self scale Sound.x Sound.y
             (Scene.sounds self) (Scene.sounds out)
        /\ dilated_about_half_shift self scale Note.x Note.y
             (Scene.notes self) (Scene.notes out)
        /\ dilated_about_half_shift self scale Drawing.x Drawing.y
             (Scene.drawings self) (Scene.drawings out)).
Proof.
  split; [reflexivity|].
  split; [apply OriginFacts.half_exact|].
  split; [apply OriginFacts.half_exact|].
  split.
  { intros Hb Hn. unfold Scene.get_origin. cbn [Point.x].
    rewrite (OriginFacts.half_exact _ Hb).
    apply AboutOriginFacts.half_not_zero. exact Hn. }
  split.
  { intros Hb Hn. unfold Scene.get_origin. cbn [Point.y].
    rewrite (OriginFacts.half_exact _ Hb).
    apply AboutOriginFacts.half_not_zero. exact Hn. }
  split.
  - intros scale out H origin.
    destruct (scale_scene_inv _ _ _ H)
      as [Ht Hw Hl Hso Hn Hd _ _ _ _ _].
    unfold Scene._scale_tokens, Scene._scale_walls, Scene._scale_lights,
      Scene._scale_sounds, Scene._scale_notes, Scene._scale_drawings in *.
    split; [auto 7|].
    split; [exact (AboutOriginFacts.for_each_moved _ _ _ _ _ _ _
                     (AboutOriginFacts.token_placed origin scale) Ht)|].
    split; [exact (AboutOriginFacts.walls_moved origin scale _ _ Hw)|].
    split; [exact (AboutOriginFacts.for_each_moved _ _ _ _ _ _ _
                     (AboutOriginFacts.light_placed origin scale) Hl)|].
    split; [exact (AboutOriginFacts.for_each_moved _ _ _ _ _ _ _
                     (AboutOriginFacts.sound_placed origin scale) Hso)|].
    split; [exact (AboutOriginFacts.for_each_moved _ _ _ _ _ _ _
                     (AboutOriginFacts.note_placed origin scale) Hn)|].
    exact (AboutOriginFacts.for_each_moved _ _ _ _ _ _ _
             (AboutOriginFacts.drawing_placed origin scale) Hd).
  - intros scale out H Hs Hsx Hsy.
    destruct (scale_scene_inv _ _ _ H)
      as [Ht Hw Hl Hso Hn Hd _ _ _ _ _].
    unfold Scene._scale_tokens, Scene._scale_walls, Scene._scale_lights,
      Scene._scale_sounds, Scene._scale_notes, Scene._scale_drawings in *.
    split; [exact (AboutOriginFacts.for_each_dilated _ _ _ _ _ _ _
                     (AboutOriginFacts.token_dilated self scale Hs Hsx Hsy)
                     Ht)|].
    split; [exact (AboutOriginFacts.for_each_dilated _ _ _ _ _ _ _
                     (AboutOriginFacts.light_dilated self scale Hs Hsx Hsy)
                     Hl)|].
    split; [exact (AboutOriginFacts.for_each_dilated _ _ _ _ _ _ _
                     (AboutOriginFacts.sound_dilated self scale Hs Hsx Hsy)
                     Hso)|].
    split; [exact (AboutOriginFacts.for_each_dilated _ _ _ _ _ _ _
                     (AboutOriginFacts.note_dilated self scale Hs Hsx Hsy)
                     Hn)|].
    exact (AboutOriginFacts.for_each_dilated _ _ _ _ _ _ _
             (AboutOriginFacts.drawing_dilated self scale Hs Hsx Hsy) Hd).
Qed.

Lemma C2_origin_witness :
  (Decimal.to_Q (Point.x (Scene.get_origin Sample.cave)) == 25)%Q
  /\ (Decimal.to_Q (Point.y (Scene.get_origin Sample.cave)) == 25)%Q
  /\ ~ (Decimal.to_Q (Point.x (Scene.get_origin Sample.cave)) == 0)%Q
  /\ exists out,
       Scene.scale_scene Sample.cave Sample.two = Ok out
       /\ Scene.shift_x out = 100
       /\ Scene.tokens out = [Token.with_xy (Sample.token 125 25) 225 25]
       /\ moved_about (Scene.get_origin Sample.cave) Sample.two
            Light.x Light.y (Scene.lights Sample.cave) (Scene.lights out)
       /\ dilated_about_half_shift Sample.cave Sample.two Token.x Token.y
            (Scene.tokens Sample.cave) (Scene.tokens out).
Proof.
  pose proof (C2_origin Sample.cave) as (_ & Hx & Hy & Hnx & _ & Hsc & Hq).
  split; [rewrite Hx by (vm_compute; reflexivity); reflexivity|].
  split; [rewrite Hy by (vm_compute; reflexivity); reflexivity|].
  split; [apply Hnx; [vm_compute; reflexivity|discriminate]|].
  destruct (Scene.scale_scene Sample.cave Sample.two) as [out|e] eqn:Hout;
    [|vm_compute in Hout; discriminate].
  exists out. split; [reflexivity|].
  destruct (Hsc Sample.two out Hout) as (_ & _ & _ & Hl & _).
  assert (Hs : short_scale Sample.two)
    by (split; [split|]; vm_compute; discriminate).
  assert (H50 : int_range (Scene.shift_x Sample.cave)) by in_range.
  destruct (Hq Sample.two out Hout Hs H50 H50) as (Ht & _).
  vm_compute in Hout. injection Hout as <-.
  split; [reflexivity|]. split; [reflexivity|].
  split; [exact Hl|exact Ht].
Defined.

(** X5: for a scale of magnitude at most 10 with at most five decimal
    places, and integers of at most 20 digits, nothing is lost before the
    final rounding: an entity at (x, y) in a scene of grid shift
    (shiftX, shiftY) is put at the half-even roundings of
    [shiftX/2 * (1 - s) + x * s] and [shiftY/2 * (1 - s) + y * s], taken in
    rational arithmetic; and the position is returned, never an
    exception. *)
Theorem X5_short_scale_position (self : Scene.T) (s : Decimal.t) (x y : Z) :
  int_range (Scene.shift_x self) -> int_range (Scene.shift_y self) ->
  int_range x -> int_range y -> short_scale s ->
  scaled_position (Scene.get_origin self) s x y
  = Ok (Decimal.Qround_half_even (dilated (Scene.shift_x self) x s),
        Decimal.Qround_half_even (dilated (Scene.shift_y self) y s)).
Proof. apply ExactFacts.position_short. Qed.

Lemma X5_short_scale_position_witness :
  let s := Decimal.mk 125 (-2) in
  int_range 50 /\ int_range 13 /\ int_range (-7) /\ short_scale s
  /\ scaled_position (Scene.get_origin Sample.cave) s 13 (-7) = Ok (10, -15).
Proof.
  intros s.
  assert (H50 : int_range 50) by in_range.
  assert (H13 : int_range 13) by in_range.
  assert (H7 : int_range (-7)) by in_range.
  assert (Hs : short_scale s)
    by (split; [split|]; vm_compute; discriminate).
  repeat (split; [assumption|]).
  rewrite (X5_short_scale_position Sample.cave s 13 (-7) H50 H50 H13 H7 Hs).
  vm_compute. reflexivity.
Defined.

(** ** The identity scale and the fixed point *)

Module IdentityFacts.

Lemma for_each_id {A : Type} (f : A -> result A) (l : list A) :
  (forall a, In a l -> f a = Ok a) -> for_each f l = Ok l.
Proof.
  induction l as [|a l IH]; intros H; [reflexivity|].
  cbn [for_each]. rewrite (H a (or_introl eq_refl)). cbn [bind].
  rewrite IH by (intros x Hx; apply H; right; exact Hx). reflexivity.
Qed.

Section Identity.
Variables (self : Scene.T) (s : Decimal.t).
Hypothesis Hsx : int_range (Scene.shift_x self).
Hypothesis Hsy : int_range (Scene.shift_y self).
Hypothesis Hs : short_scale s.
Hypothesis H1 : (Decimal.to_Q s == 1)%Q.

Let origin := Scene.get_origin self.

Lemma token_identity (e : Token.T) :
  int_range (Token.x e) /\ int_range (Token.y e) ->
  Scene.scale_token origin s e = Ok e.
Proof.
  intros [Hx Hy]. rewrite EntityFacts.scale_token_position.
  subst origin. rewrite ExactFacts.position_identity by assumption.
  destruct e; reflexivity.
Qed.

Lemma light_identity (e : Light.T) :
  int_range (Light.x e) /\ int_range (Light.y e) ->
  Scene.scale_light origin s e = Ok e.
Proof.
  intros [Hx Hy]. rewrite EntityFacts.scale_light_position.
  subst origin. rewrite ExactFacts.position_identity by assumption.
  destruct e; reflexivity.
Qed.

Lemma sound_identity (e : Sound.T) :
  int_range (Sound.x e) /\ int_range (Sound.y e) ->
  Scene.scale_sound origin s e = Ok e.
Proof.
  intros [Hx Hy]. rewrite EntityFacts.scale_sound_position.
  subst origin. rewrite ExactFacts.position_identity by assumption.
  destruct e; reflexivity.
Qed.

Lemma note_identity (e : Note.T) :
  int_range (Note.x e) /\ int_range (Note.y e) ->
  Scene.scale_note origin s e = Ok e.
Proof.
  intros [Hx Hy]. rewrite EntityFacts.scale_note_position.
  subst origin. rewrite ExactFacts.position_identity by assumption.
  destruct e; reflexivity.
Qed.

Lemma drawing_identity (e : Drawing.T) :
  int_range (Drawing.x e) /\ int_range (Drawing.y e) ->
  Scene.scale_drawing origin s e = Ok e.
Proof.
  intros [Hx Hy]. rewrite EntityFacts.scale_drawing_position.
  subst origin. rewrite ExactFacts.position_identity by assumption.
  destruct e; reflexivity.
Qed.

Lemma wall_identity (e : Wall.T) :
  wall_range e -> List.length (Wall.c e) = 4%nat ->
  Scene.scale_wall origin s e = Ok e.
Proof.
  intros (x1 & y1 & x2 & y2 & rest & Hc & Hx1 & Hy1 & Hx2 & Hy2) Hlen.
  rewrite Hc in Hlen. destruct rest; [|discriminate].
  rewrite (EntityFacts.scale_wall_position _ _ _ _ _ _ _ _ Hc).
  subst origin. rewrite !ExactFacts.position_identity by assumption.
  cbn [bind fst snd]. destruct e. cbn [Wall.c] in Hc. subst. reflexivity.
Qed.

End Identity.

Lemma Forall_In_apply {A : Type} (P Q : A -> Prop) (l : list A) :
  Forall P l -> (forall a, P a -> Q a) -> forall a, In a l -> Q a.
Proof.
  intros HP HPQ a Hin. rewrite Forall_forall in HP. auto.
Qed.

Lemma scene_identity (self : Scene.T) (s : Decimal.t) :
  scene_range self -> four_coordinates self ->
  short_scale s -> (Decimal.to_Q s == 1)%Q ->
  Scene.scale_scene self s = Ok self.
Proof.
  intros (Hw & Hh & Hg & Hsx & Hsy & Ht & Hwl & Hl & Hso & Hn & Hd)
         Hfour Hs H1.
  unfold Scene.scale_scene, Scene._scale_tokens, Scene._scale_walls,
    Scene._scale_lights, Scene._scale_sounds, Scene._scale_notes,
    Scene._scale_drawings.
  rewrite (for_each_id _ (Scene.tokens self))
    by (apply (Forall_In_apply _ _ _ Ht); intros;
        apply token_identity; assumption).
  rewrite (for_each_id _ (Scene.walls self)).
  2:{ intros a Hin. unfold four_coordinates in Hfour.
      rewrite Forall_forall in Hwl, Hfour.
      apply wall_identity; auto. }
  rewrite (for_each_id _ (Scene.lights self))
    by (apply (Forall_In_apply _ _ _ Hl); intros;
        apply light_identity; assumption).
  rewrite (for_each_id _ (Scene.sounds self))
    by (apply (Forall_In_apply _ _ _ Hso); intros;
        apply sound_identity; assumption).
  rewrite (for_each_id _ (Scene.notes self))
    by (apply (Forall_In_apply _ _ _ Hn); intros;
        apply note_identity; assumption).
  rewrite (for_each_id _ (Scene.drawings self))
    by (apply (Forall_In_apply _ _ _ Hd); intros;
        apply drawing_identity; assumption).
  rewrite !ExactFacts.scale_int_identity by assumption.
  cbn [bind]. destruct self; reflexivity.
Qed.

End IdentityFacts.

(** X6: scaling by 1 changes nothing.  On a scene whose integers have at
    most 20 digits and whose walls have exactly four coordinates,
    [scale_scene] with a scale of value 1 returns the scene it was given:
    every position, every sizing field and every other field. *)
Theorem X6_identity_scale (self : Scene.T) (s : Decimal.t) :
  scene_range self -> four_coordinates self ->
  short_scale s -> (Decimal.to_Q s == 1)%Q ->
  Scene.scale_scene self s = Ok self.
Proof. apply IdentityFacts.scene_identity. Qed.

Lemma X6_identity_scale_witness :
  scene_range Sample.cave /\ four_coordinates Sample.cave
  /\ Scene.scale_scene Sample.cave (Decimal.mk 1 0) = Ok Sample.cave
  /\ Scene.scale_scene Sample.cave (Decimal.mk 100 (-2)) = Ok Sample.cave.
Proof.
  assert (Hrange : scene_range Sample.cave) by scene_in_range.
  assert (Hfour : four_coordinates Sample.cave)
    by (repeat constructor).
  split; [exact Hrange|]. split; [exact Hfour|]. split.
  - apply (X6_identity_scale Sample.cave (Decimal.mk 1 0) Hrange Hfour).
    + split; [split|]; vm_compute; discriminate.
    + vm_compute. reflexivity.
  - apply (X6_identity_scale Sample.cave (Decimal.mk 100 (-2)) Hrange Hfour).
    + split; [split|]; vm_compute; discriminate.
    + vm_compute. reflexivity.
Defined.

(** X7: the origin is the fixed point of the scaling.  In a scene with an
    even grid shift (2h, 2k), an entity at the origin (h, k) is put at
    (h, k) again by every scale of magnitude at most 10 with at most five
    decimal places. *)
Theorem X7_origin_is_fixed (self : Scene.T) (s : Decimal.t) (h k : Z) :
  Scene.shift_x self = 2 * h -> Scene.shift_y self = 2 * k ->
  int_range (2 * h) -> int_range (2 * k) -> short_scale s ->
  scaled_position (Scene.get_origin self) s h k = Ok (h, k).
Proof. apply ExactFacts.position_fixed. Qed.

Lemma X7_origin_is_fixed_witness :
  Scene.shift_x Sample.cave = 2 * 25 /\ Scene.shift_y Sample.cave = 2 * 25
  /\ scaled_position (Scene.get_origin Sample.cave) (Decimal.mk 375 (-2))
       25 25 = Ok (25, 25)
  /\ Scene.scale_token (Scene.get_origin Sample.cave) (Decimal.mk 375 (-2))
       (Sample.token 25 25) = Ok (Sample.token 25 25).
Proof.
  split; [reflexivity|]. split; [reflexivity|].
  assert (H : scaled_position (Scene.get_origin Sample.cave)
                (Decimal.mk 375 (-2)) 25 25 = Ok (25, 25)).
  { apply (X7_origin_is_fixed Sample.cave (Decimal.mk 375 (-2)) 25 25);
      try reflexivity; try in_range.
    split; [split|]; vm_compute; discriminate. }
  split; [exact H|].
  rewrite EntityFacts.scale_token_position.
  change (Token.x (Sample.token 25 25)) with 25.
  change (Token.y (Sample.token 25 25)) with 25.
  rewrite H. reflexivity.
Defined.

(** ** Composing two dilations *)

Module ComposeFacts.
Import Decimal DecimalFacts.

Lemma axis_compose (o p s1 s2 : t) :
  exact_axis o p s1 = true ->
  exact_axis o (add (mul o (sub (of_int 1) s1)) (mul p s1)) s2 = true ->
  fits (coeff s1 * coeff s2) = true ->
  exact_axis o p (mul s1 s2) = true ->
  (to_Q (add (mul o (sub (of_int 1) s2))
             (mul (add (mul o (sub (of_int 1) s1)) (mul p s1)) s2))
   == to_Q (add (mul o (sub (of_int 1) (mul s1 s2))) (mul p (mul s1 s2))))%Q.
Proof.
  intros H1 H2 Hf H12.
  rewrite (PointFacts.axis_exact _ _ _ H2).
  rewrite (PointFacts.axis_exact _ _ _ H1).
  rewrite (PointFacts.axis_exact _ _ _ H12).
  rewrite to_Q_mul_exact by (apply PointFacts.fits_true; exact Hf).
  ring.
Qed.

End ComposeFacts.

(** X8: dilations about one origin compose.  When no operation rounds,
    scaling a point by [s1] and the result by [s2] gives the point that
    scaling once by [s1 * s2] gives, on both axes; so [integer_x] and
    [integer_y] return the same integers for the two. *)
Theorem X8_dilations_compose (origin p : Point.T) (s1 s2 : Decimal.t) :
  exact_point origin p s1 = true ->
  exact_point origin (Point.translate_point p origin s1) s2 = true ->
  fits (Decimal.coeff s1 * Decimal.coeff s2) = true ->
  exact_point origin p (Decimal.mul s1 s2) = true ->
  let twice :=
    Point.translate_point (Point.translate_point p origin s1) origin s2 in
  let once := Point.translate_point p origin (Decimal.mul s1 s2) in
  (Decimal.to_Q (Point.x twice) == Decimal.to_Q (Point.x once))%Q
  /\ (Decimal.to_Q (Point.y twice) == Decimal.to_Q (Point.y once))%Q
  /\ (forall a b, Point.integer_x twice = Ok a ->
                  Point.integer_x once = Ok b -> a = b)
  /\ (forall a b, Point.integer_y twice = Ok a ->
                  Point.integer_y once = Ok b -> a = b).
Proof.
  intros H1 H2 Hf H12 twice once. unfold exact_point in H1, H2, H12.
  apply andb_prop in H1 as [H1x H1y].
  apply andb_prop in H2 as [H2x H2y].
  apply andb_prop in H12 as [H12x H12y].
  assert (Hx : (Decimal.to_Q (Point.x twice)
                == Decimal.to_Q (Point.x once))%Q)
    by (apply ComposeFacts.axis_compose; assumption).
  assert (Hy : (Decimal.to_Q (Point.y twice)
                == Decimal.to_Q (Point.y once))%Q)
    by (apply ComposeFacts.axis_compose; assumption).
  split; [exact Hx|]. split; [exact Hy|].
  unfold Point.integer_x, Point.integer_y.
  split; intros a b Ha Hb;
    rewrite (DecimalFacts.round_to_int_spec _ _ Ha),
            (DecimalFacts.round_to_int_spec _ _ Hb);
    apply DecimalFacts.Qround_half_even_comp; assumption.
Qed.

Lemma X8_dilations_compose_witness :
  let origin := Point.mk (Decimal.mk 255 (-1)) (Decimal.mk 25 0) in
  let p := Point.mk (Decimal.of_int 126) (Decimal.of_int 24) in
  let s1 := Decimal.mk 15 (-1) in
  let s2 := Decimal.mk 25 (-1) in
  let twice :=
    Point.translate_point (Point.translate_point p origin s1) origin s2 in
  let once := Point.translate_point p origin (Decimal.mul s1 s2) in
  (Decimal.to_Q (Point.x twice) == Decimal.to_Q (Point.x once))%Q
  /\ Point.integer_x twice = Ok 402 /\ Point.integer_x once = Ok 402
  /\ Point.integer_y twice = Ok 21 /\ Point.integer_y once = Ok 21.
Proof.
  intros origin p s1 s2 twice once.
  pose proof (X8_dilations_compose origin p s1 s2
                eq_refl eq_refl eq_refl eq_refl) as H.
  cbv zeta in H. destruct H as (Hx & _ & _ & _).
  split; [exact Hx|].
  repeat split; reflexivity.
Defined.

(** ** What [scale_scene] raises, and what it leaves *)

Module SceneErrorFacts.

Lemma for_each_In {A B : Type} (f : A -> result B) (l : list A)
    (out : list B) :
  for_each f l = Ok out -> forall a, In a l -> exists b, f a = Ok b.
Proof.
  intros H a Hin. apply In_nth_error in Hin as [i Hi].
  destruct (for_each_nth f l out H i a Hi) as (b & _ & Hb). eauto.
Qed.

Lemma for_each_out {A B : Type} (f : A -> result B) (l : list A)
    (out : list B) :
  for_each f l = Ok out -> forall b, In b out -> exists a, In a l /\ f a = Ok b.
Proof.
  revert out. induction l as [|a l IH]; intros out H b Hin.
  - injection H as <-. destruct Hin.
  - apply for_each_cons_inv in H as (b0 & out' & -> & Hb & H).
    destruct Hin as [<-|Hin].
    + exists a. split; [left; reflexivity|exact Hb].
    + destruct (IH out' H b Hin) as (x & Hx & Hfx).
      exists x. split; [right; exact Hx|exact Hfx].
Qed.

Lemma scaled_position_raises origin scale x y e :
  scaled_position origin scale x y = Raise e -> e = InvalidOperation.
Proof.
  unfold scaled_position, Point.integer_x, Point.integer_y.
  destruct (Decimal.round_to_int (Point.x _)) as [nx|e1] eqn:H1; cbn [bind].
  - destruct (Decimal.round_to_int (Point.y _)) as [ny|e2] eqn:H2; cbn [bind];
      [discriminate|].
    intros [= <-]. eapply NearestFacts.round_to_int_raises. exact H2.
  - intros [= <-]. eapply NearestFacts.round_to_int_raises. exact H1.
Qed.

Lemma bind_position_raises {A : Type} origin scale x y
    (k : Z * Z -> A) e :
  (p <- scaled_position origin scale x y ;; Ok (k p)) = Raise e ->
  e = InvalidOperation.
Proof.
  destruct (scaled_position origin scale x y) as [p|e'] eqn:H; cbn [bind];
    [discriminate|].
  intros [= <-]. eapply scaled_position_raises. exact H.
Qed.

Lemma short_or_four (l : list Z) :
  (List.length l < 4)%nat
  \/ exists x1 y1 x2 y2 rest, l = x1 :: y1 :: x2 :: y2 :: rest.
Proof.
  destruct l as [|x1 [|y1 [|x2 [|y2 rest]]]]; cbn; try (left; lia).
  right. eauto 6.
Qed.

Lemma scale_wall_raises origin scale w e :
  Scene.scale_wall origin scale w = Raise e ->
  (e = IndexError /\ short_wall w) \/ e = InvalidOperation.
Proof.
  intros H. destruct (short_or_four (Wall.c w))
    as [Hshort|(x1 & y1 & x2 & y2 & rest & Hc)].
  - left. split; [|exact Hshort].
    unfold Scene.scale_wall, Point.get_points_from_walls in H.
    destruct (Wall.c w) as [|a [|b [|c [|d r]]]]; cbn in Hshort;
      try lia; cbn [bind] in H; congruence.
  - right. rewrite (EntityFacts.scale_wall_position _ _ _ _ _ _ _ _ Hc) in H.
    destruct (scaled_position origin scale x1 y1) as [p1|e1] eqn:H1;
      cbn [bind] in H.
    + eapply bind_position_raises. exact H.
    + injection H as <-. eapply scaled_position_raises. exact H1.
Qed.

Lemma scale_wall_returns_four origin scale w out :
  Scene.scale_wall origin scale w = Ok out ->
  List.length (Wall.c out) = 4%nat /\ ~ short_wall w.
Proof.
  intros H. destruct (short_or_four (Wall.c w))
    as [Hshort|(x1 & y1 & x2 & y2 & rest & Hc)].
  - exfalso.
    unfold Scene.scale_wall, Point.get_points_from_walls in H.
    destruct (Wall.c w) as [|a [|b [|c [|d r]]]]; cbn in Hshort;
      try lia; cbn [bind] in H; discriminate.
  - rewrite (EntityFacts.scale_wall_position _ _ _ _ _ _ _ _ Hc) in H.
    apply bind_Ok in H as (p1 & _ & H).
    apply bind_Ok in H as (p2 & _ & H).
    injection H as <-. split; [reflexivity|].
    unfold short_wall. rewrite Hc. cbn. lia.
Qed.

End SceneErrorFacts.

Module ShortWallFacts.

Lemma scale_wall_short origin scale (wall : Wall.T) :
  short_wall wall -> Scene.scale_wall origin scale wall = Raise IndexError.
Proof.
  unfold short_wall, Scene.scale_wall, Point.get_points_from_walls.
  destruct (Wall.c wall) as [|a [|b [|c [|d r]]]]; cbn [List.length bind];
    try reflexivity.
  lia.
Qed.

(** A loop whose iterations return or raise [e] raises [e] when one of
    them does. *)
Lemma for_each_first_raise {A B : Type} (f : A -> result B)
    (P Q : A -> Prop) (e : exn) (l : list A) :
  Forall (fun a => P a \/ Q a) l ->
  (forall a, P a -> f a = Raise e) ->
  (forall a, Q a -> exists b, f a = Ok b) ->
  (exists a, In a l /\ P a) ->
  for_each f l = Raise e.
Proof.
  intros Hall HP HQ. induction Hall as [|a l Ha _ IH];
    intros (x & Hin & Hx); [destruct Hin|].
  cbn [for_each]. destruct Ha as [Hpa|Hqa].
  - rewrite (HP a Hpa). reflexivity.
  - destruct Hin as [<-|Hin]; [rewrite (HP a Hx); reflexivity|].
    destruct (HQ a Hqa) as [b ->]. cbn [bind].
    rewrite IH by eauto. reflexivity.
Qed.

Lemma scale_scene_short_wall (self : Scene.T) (scale : Decimal.t) :
  scene_range_any_walls self -> magnitude scale 1 ->
  (exists wall, In wall (Scene.walls self) /\ short_wall wall) ->
  Scene.scale_scene self scale = Raise IndexError.
Proof.
  intros (_ & _ & _ & Hsx & Hsy & Ht & Hwl & _) Hs Hshort.
  destruct (ReturnFacts.magnitude_origin self Hsx Hsy) as [Hox Hoy].
  unfold Scene.scale_scene, Scene._scale_tokens, Scene._scale_walls.
  destruct (ReturnFacts.for_each_Forall _ _ _
              (ReturnFacts.scale_token_returns _ scale Hox Hoy Hs) Ht)
    as [? ->].
  cbn [bind].
  rewrite (for_each_first_raise _ short_wall wall_range IndexError
             (Scene.walls self) Hwl);
    [reflexivity| | |exact Hshort].
  - intros w Hw. apply scale_wall_short. exact Hw.
  - intros w Hw.
    exact (ReturnFacts.scale_wall_returns _ scale Hox Hoy Hs w Hw).
Qed.

Lemma scene_range_long_walls (self : Scene.T) :
  scene_range_any_walls self ->
  (forall wall, In wall (Scene.walls self) -> ~ short_wall wall) ->
  scene_range self.
Proof.
  intros (Hw & Hh & Hg & Hsx & Hsy & Ht & Hwl & Hrest) Hlong.
  repeat (split; [assumption|]). split; [|exact Hrest].
  apply Forall_forall. intros w Hin. rewrite Forall_forall in Hwl.
  destruct (Hwl w Hin) as [Hshort|Hr]; [|exact Hr].
  destruct (Hlong w Hin Hshort).
Qed.

End ShortWallFacts.

(** X9: the wall with fewer than four coordinates.  [scale_scene] raises
    IndexError only on a scene that holds such a wall, and a scene that
    holds one is never scaled, whatever the scale: the call does not
    return.  For a finite scale of magnitude at most 10 and integers of
    at most 20 digits this is the one way [scale_scene] fails: it raises
    IndexError when a wall has fewer than four coordinates and returns
    the scaled scene when none has. *)
Theorem X9_scale_scene_exceptions (self : Scene.T) (scale : Decimal.t) :
  (Scene.scale_scene self scale = Raise IndexError ->
   exists wall, In wall (Scene.walls self) /\ short_wall wall)
  /\ (forall wall, In wall (Scene.walls self) -> short_wall wall ->
      forall out, Scene.scale_scene self scale <> Ok out)
  /\ (scene_range_any_walls self -> magnitude scale 1 ->
      ((exists wall, In wall (Scene.walls self) /\ short_wall wall) ->
       Scene.scale_scene self scale = Raise IndexError)
      /\ ((forall wall, In wall (Scene.walls self) -> ~ short_wall wall) ->
          exists out, Scene.scale_scene self scale = Ok out)).
Proof.
  assert (Hraise : forall e, Scene.scale_scene self scale = Raise e ->
            e = InvalidOperation
            \/ (e = IndexError
                /\ exists wall, In wall (Scene.walls self) /\ short_wall wall)).
  { intros e H. unfold Scene.scale_scene, Scene._scale_tokens,
      Scene._scale_walls, Scene._scale_lights, Scene._scale_sounds,
      Scene._scale_notes, Scene._scale_drawings, Scene.scale_int in H.
    repeat match type of H with
    | bind ?m _ = Raise _ =>
        let E := fresh "E" in
        destruct m eqn:E; cbn [bind] in H; [|injection H as <-]
    end; [discriminate|..];
    try (left; eapply NearestFacts.round_to_int_raises; eassumption);
    match goal with
    | E : for_each _ _ = Raise _ |- _ =>
        apply for_each_raise in E as (entity & Hin & Ha)
    end;
    try (left;
         first [rewrite EntityFacts.scale_token_position in Ha
               |rewrite EntityFacts.scale_light_position in Ha
               |rewrite EntityFacts.scale_sound_position in Ha
               |rewrite EntityFacts.scale_note_position in Ha
               |rewrite EntityFacts.scale_drawing_position in Ha];
         eapply SceneErrorFacts.bind_position_raises; exact Ha).
    apply SceneErrorFacts.scale_wall_raises in Ha as [[-> Hshort]| ->];
      [right; split; [reflexivity|eauto]|left; reflexivity]. }
  split; [|split].
  - intros H. destruct (Hraise _ H) as [Hd|[_ Hw]]; [discriminate|exact Hw].
  - intros wall Hin Hshort out H.
    pose proof (step_walls _ _ _ (scale_scene_inv _ _ _ H)) as Hw.
    destruct (SceneErrorFacts.for_each_In _ _ _ Hw wall Hin) as [b Hb].
    apply SceneErrorFacts.scale_wall_returns_four in Hb as [_ Hnot].
    exact (Hnot Hshort).
  - intros Hrange Hs. split.
    + apply ShortWallFacts.scale_scene_short_wall; assumption.
    + intros Hlong. apply scale_scene_returns; [|exact Hs].
      apply ShortWallFacts.scene_range_long_walls; assumption.
Qed.

Lemma X9_scale_scene_exceptions_witness :
  scene_range_any_walls Sample.pit /\ magnitude Sample.two 1
  /\ (exists wall, In wall (Scene.walls Sample.pit) /\ short_wall wall)
  /\ Scene.scale_scene Sample.pit Sample.two = Raise IndexError.
Proof.
  assert (Hrange : scene_range_any_walls Sample.pit).
  { do 5 (split; [in_range|]).
    split; [constructor|].
    split.
    { apply Forall_cons; [right; wall_in_range|].
      apply Forall_cons; [left; unfold short_wall; cbn; lia|constructor]. }
    do 3 (split; [all_in_range|]). all_in_range. }
  assert (Hscale : magnitude Sample.two 1)
    by (right; vm_compute; split; discriminate).
  assert (Hshort : exists wall,
             In wall (Scene.walls Sample.pit) /\ short_wall wall).
  { exists (Sample.wall [1; 2; 3]). split; [right; left; reflexivity|].
    unfold short_wall. cbn. lia. }
  split; [exact Hrange|]. split; [exact Hscale|]. split; [exact Hshort|].
  apply (proj1 (proj2 (proj2 (X9_scale_scene_exceptions Sample.pit
                                Sample.two)) Hrange Hscale)).
  exact Hshort.
Defined.

(** ** The frame of [scale_scene] *)

Module FrameFacts.

Lemma scene_frame (self out : Scene.T) (scale : Decimal.t) :
  Scene.scale_scene self scale = Ok out -> same_but_geometry self out.
Proof.
  intros H. unfold Scene.scale_scene in H.
  repeat (apply bind_Ok in H as (? & _ & H)).
  injection H as <-. unfold same_but_geometry. cbn.
  repeat split; reflexivity.
Qed.

Lemma walls_four (self out : Scene.T) (scale : Decimal.t) :
  Scene.scale_scene self scale = Ok out -> four_coordinates out.
Proof.
  intros H. pose proof (step_walls _ _ _ (scale_scene_inv _ _ _ H)) as Hw.
  unfold four_coordinates. apply Forall_forall. intros b Hb.
  destruct (SceneErrorFacts.for_each_out _ _ _ Hw b Hb) as (a & _ & Ha).
  apply SceneErrorFacts.scale_wall_returns_four in Ha as [Hlen _].
  exact Hlen.
Qed.

Lemma scale_wall_first_four origin scale (wall : Wall.T) :
  Scene.scale_wall origin scale
    (Wall.with_c wall (firstn 4 (Wall.c wall)))
  = Scene.scale_wall origin scale wall.
Proof.
  unfold Scene.scale_wall, Point.get_points_from_walls.
  destruct wall as [i f c m s d ds dir]. cbn [Wall.c Wall.with_c].
  destruct c as [|x1 [|y1 [|x2 [|y2 rest]]]]; cbn [firstn bind];
    reflexivity.
Qed.

End FrameFacts.

(** X10: [scale_scene] changes the five sizing fields and the six
    collections and nothing else: the scaled scene has the [_id], [name],
    [padding], [tiles], grid settings, lighting settings and every other
    remaining attribute of the scene it was given. *)
Theorem X10_scene_frame (self out : Scene.T) (scale : Decimal.t) :
  Scene.scale_scene self scale = Ok out -> same_but_geometry self out.
Proof.
  apply FrameFacts.scene_frame.
Qed.

Lemma X10_scene_frame_witness :
  exists out, Scene.scale_scene Sample.cave Sample.two = Ok out
              /\ same_but_geometry Sample.cave out.
Proof.
  eexists. split; [vm_compute; reflexivity|].
  apply (X10_scene_frame Sample.cave _ Sample.two). vm_compute. reflexivity.
Defined.

(** X11: the walls of a scaled scene have exactly four coordinates each,
    whatever the walls of the input had: [_scale_walls] reads [c[0]] to
    [c[3]] and drops what follows, so scaling a wall and scaling the wall
    cut to its first four coordinates give the same result, the same
    exception included. *)
Theorem X11_walls_keep_four (self : Scene.T) (scale : Decimal.t) :
  (forall out, Scene.scale_scene self scale = Ok out -> four_coordinates out)
  /\ (forall origin wall,
        Scene.scale_wall origin scale
          (Wall.with_c wall (firstn 4 (Wall.c wall)))
        = Scene.scale_wall origin scale wall).
Proof.
  split.
  - intros out. apply FrameFacts.walls_four.
  - intros origin wall. apply FrameFacts.scale_wall_first_four.
Qed.

Lemma X11_walls_keep_four_witness :
  let long := Sample.scene 1000 800 100 50 50 []
                [Sample.wall [0; 0; 100; 100; 7; 8; 9]] in
  exists out, Scene.scale_scene long Sample.two = Ok out
              /\ four_coordinates out
              /\ List.map Wall.c (Scene.walls out) = [[-25; -25; 175; 175]].
Proof.
  intros long. eexists. split; [vm_compute; reflexivity|].
  split; [|vm_compute; reflexivity].
  apply (proj1 (X11_walls_keep_four long Sample.two)).
  vm_compute. reflexivity.
Defined.

(** ** The archive [perform_scaling] writes *)

Module LayoutFacts.
Import AdventureBundle.

Lemma Forall2_In_r {A B : Type} (R : A -> B -> Prop) (l : list A)
    (l' : list B) (b : B) :
  Forall2 R l l' -> In b l' -> exists a, In a l /\ R a b.
Proof.
  induction 1 as [|x y l l' Hxy _ IH]; intros Hin; [destruct Hin|].
  destruct Hin as [<-|Hin].
  - exists x. split; [left; reflexivity|exact Hxy].
  - destruct (IH Hin) as (a & Ha & HR). exists a.
    split; [right; exact Ha|exact HR].
Qed.

Lemma Forall2_In_l {A B : Type} (R : A -> B -> Prop) (l : list A)
    (l' : list B) (a : A) :
  Forall2 R l l' -> In a l -> exists b, In b l' /\ R a b.
Proof.
  induction 1 as [|x y l l' Hxy _ IH]; intros Hin; [destruct Hin|].
  destruct Hin as [<-|Hin].
  - exists y. split; [left; reflexivity|exact Hxy].
  - destruct (IH Hin) as (b & Hb & HR). exists b.
    split; [right; exact Hb|exact HR].
Qed.

Lemma Forall2_compose {A B C : Type} (R : A -> B -> Prop)
    (Q : B -> C -> Prop) (T : A -> C -> Prop)
    (l : list A) (l' : list B) (l'' : list C) :
  (forall a b c, R a b -> Q b c -> T a c) ->
  Forall2 R l l' -> Forall2 Q l' l'' -> Forall2 T l l''.
Proof.
  intros HT H. revert l''.
  induction H as [|a b l l' Hab _ IH]; intros l'' H'.
  - inversion H'. constructor.
  - inversion H' as [|? c ? l0 Hbc Hrest]; subst.
    constructor; [eapply HT; eassumption|apply IH; exact Hrest].
Qed.

Section Layout.
Context {S : Type}.
Variable from_json_string : string -> result S.
Variable scale_scene : S -> Decimal.t -> result S.
Variable to_json : S -> result string.

(** A new key goes to the end of the dict. *)
Lemma dict_set_fresh (held : list (string * S)) (name : string) (scene : S) :
  ~ In name (map fst held) ->
  dict_set held name scene = held ++ [(name, scene)].
Proof.
  induction held as [|[k v] held IH]; intros Hnew; [reflexivity|].
  cbn [dict_set]. destruct (String.eqb name k) eqn:Hk.
  - apply String.eqb_eq in Hk. exfalso. apply Hnew. left. cbn. congruence.
  - cbn [app]. f_equal. apply IH. intros Hin. apply Hnew. right. exact Hin.
Qed.

(** The first loop, up to the member that stops it. *)
Lemma read_items_spec (zip l : archive) (st : state) :
  (forall m, In m l -> read zip (fst m) = Ok (snd m)) ->
  NoDup (map fst (scenes st) ++ map fst l) ->
  exists done rest parsed,
    l = done ++ rest
    /\ Forall2 (parsed_as from_json_string) (scene_members done) parsed
    /\ fst (read_items from_json_string zip st (map fst l))
       = mk_state (scenes st ++ parsed)
                  (output_zip_file st ++ pass_through done)
    /\ match snd (read_items from_json_string zip st (map fst l)) with
       | None => rest = []
       | Some e =>
           exists m tail, rest = m :: tail /\ is_scene m = true
                          /\ from_json_string (snd m) = Raise e
       end.
Proof.
  revert st. induction l as [|[n d] l IH]; intros st Hread Hnd.
  - exists [], [], []. cbn. rewrite !app_nil_r. destruct st.
    repeat split. constructor.
  - cbn [map fst read_items]. unfold read_item.
    pose proof (Hread (n, d) (or_introl eq_refl)) as Hn.
    cbn [fst snd] in Hn. rewrite Hn.
    assert (Hread' : forall m, In m l -> read zip (fst m) = Ok (snd m))
      by (intros m Hm; apply Hread; right; exact Hm).
    destruct (Path.match_scene_json n) eqn:Hm.
    + destruct (from_json_string d) as [sc|e] eqn:Hp.
      * assert (Hnew : ~ In n (map fst (scenes st))).
        { intros Hin. cbn [map fst] in Hnd.
          apply NoDup_remove_2 in Hnd. apply Hnd.
          apply in_or_app. left. exact Hin. }
        destruct (IH (mk_state (dict_set (scenes st) n sc)
                               (output_zip_file st)) Hread')
          as (done & rest & parsed & -> & Hf & Hst & Hr).
        { cbn [scenes]. rewrite (dict_set_fresh _ _ _ Hnew).
          rewrite map_app, <- app_assoc. exact Hnd. }
        exists ((n, d) :: done), rest, ((n, sc) :: parsed).
        split; [reflexivity|].
        split.
        { unfold scene_members. cbn [filter]. unfold is_scene at 1.
          cbn [fst]. rewrite Hm. constructor; [|exact Hf].
          split; [reflexivity|exact Hp]. }
        split.
        { rewrite Hst. cbn [scenes output_zip_file].
          rewrite (dict_set_fresh _ _ _ Hnew), <- app_assoc.
          unfold pass_through. cbn [filter]. unfold is_scene at 2.
          cbn [fst]. rewrite Hm. reflexivity. }
        exact Hr.
      * exists [], ((n, d) :: l), []. cbn [app fst snd].
        split; [reflexivity|]. split; [constructor|].
        split; [cbn; rewrite !app_nil_r; destruct st; reflexivity|].
        exists (n, d), l. unfold is_scene. cbn [fst snd]. auto.
    + destruct (IH (mk_state (scenes st)
                             (writestr (output_zip_file st) n d)) Hread')
        as (done & rest & parsed & -> & Hf & Hst & Hr).
      { cbn [scenes]. cbn [map fst] in Hnd.
        apply NoDup_remove_1 in Hnd. exact Hnd. }
      exists ((n, d) :: done), rest, parsed.
      split; [reflexivity|].
      split.
      { unfold scene_members. cbn [filter]. unfold is_scene at 1.
        cbn [fst]. rewrite Hm. exact Hf. }
      split.
      { rewrite Hst. cbn [scenes output_zip_file]. unfold writestr.
        rewrite <- app_assoc. unfold pass_through. cbn [filter].
        unfold is_scene at 2. cbn [fst]. rewrite Hm. reflexivity. }
      exact Hr.
Qed.

(** The last loop, up to the scene that stops it. *)
Lemma write_scenes_spec (zip : archive) (held : list (string * S)) :
  exists done rest written,
    held = done ++ rest
    /\ Forall2 (written_as to_json) done written
    /\ fst (write_scenes to_json zip held) = zip ++ written
    /\ match snd (write_scenes to_json zip held) with
       | None => rest = []
       | Some e =>
           exists entry tail, rest = entry :: tail
                              /\ to_json (snd entry) = Raise e
       end.
Proof.
  revert zip. induction held as [|entry held IH]; intros zip.
  - exists [], [], []. cbn. rewrite app_nil_r. repeat split. constructor.
  - cbn [write_scenes]. destruct (to_json (snd entry)) as [text|e] eqn:Ht.
    + destruct (IH (writestr zip (fst entry) text))
        as (done & rest & written & -> & Hf & Hz & Hr).
      exists (entry :: done), rest, ((fst entry, text) :: written).
      split; [reflexivity|].
      split; [constructor; [split; [reflexivity|exact Ht]|exact Hf]|].
      split; [|exact Hr].
      rewrite Hz. unfold writestr. rewrite <- app_assoc. reflexivity.
    + exists [], (entry :: held), []. cbn [fst snd app].
      split; [reflexivity|]. split; [constructor|].
      split; [rewrite app_nil_r; reflexivity|].
      exists entry, held. auto.
Qed.

Lemma scale_scenes_scaled (scale : Decimal.t) (ms : archive)
    (parsed scaled : list (string * S)) :
  Forall2 (parsed_as from_json_string) ms parsed ->
  scale_scenes scale_scene parsed scale = Ok scaled ->
  Forall2 (scaled_as from_json_string scale_scene scale) ms scaled.
Proof.
  unfold scale_scenes. intros Hf. revert scaled.
  induction Hf as [|m p ms parsed [Hname Hparse] _ IH]; intros scaled H.
  - injection H as <-. constructor.
  - apply for_each_cons_inv in H as (q & scaled' & -> & Hq & H).
    apply bind_Ok in Hq as (sc' & Hsc & Hq). injection Hq as <-.
    constructor; [|apply IH; exact H].
    split; [exact Hname|]. exists (snd p). auto.
Qed.

Lemma scaled_written (scale : Decimal.t) (ms : archive)
    (scaled : list (string * S)) (written : archive) :
  Forall2 (scaled_as from_json_string scale_scene scale) ms scaled ->
  Forall2 (written_as to_json) scaled written ->
  Forall2 (rewritten from_json_string scale_scene to_json scale) ms written.
Proof.
  apply Forall2_compose.
  intros m q out [Hn (sc & Hp & Hs)] [Hn' Ht].
  split; [congruence|]. exists sc, (snd q). auto.
Qed.

(** The names the first loop reads are those of the members. *)
Lemma read_members (zip : archive) :
  NoDup (namelist zip) ->
  forall m, In m zip -> read zip (fst m) = Ok (snd m).
Proof.
  intros Hnd [n d] Hin. apply BundleFacts.read_member; assumption.
Qed.

(** [perform_scaling] on a fresh bundle, in its four cases: a scene that
    does not parse, a scene that does not scale, a scene that is not
    serialised, and success. *)
Lemma perform_scaling_cases (input : archive) (scale : Decimal.t) :
  NoDup (namelist input) ->
  let outcome :=
    perform_scaling from_json_string scale_scene to_json [] input scale in
  (exists done m tail e,
      input = done ++ m :: tail
      /\ is_scene m = true /\ from_json_string (snd m) = Raise e
      /\ outcome = mk_outcome (pass_through done) (Some e))
  \/ (exists parsed p e,
       Forall2 (parsed_as from_json_string) (scene_members input) parsed
       /\ In p parsed /\ scale_scene (snd p) scale = Raise e
       /\ outcome = mk_outcome (pass_through input) (Some e))
  \/ (exists before m after q written e,
       scene_members input = before ++ m :: after
       /\ Forall2 (rewritten from_json_string scale_scene to_json scale)
            before written
       /\ scaled_as from_json_string scale_scene scale m q
       /\ to_json (snd q) = Raise e
       /\ outcome = mk_outcome (pass_through input ++ written) (Some e))
  \/ (exists written,
       Forall2 (rewritten from_json_string scale_scene to_json scale)
         (scene_members input) written
       /\ outcome = mk_outcome (pass_through input ++ written) None).
Proof.
  intros Hnd outcome. subst outcome.
  unfold perform_scaling, copyfile, ZipFile_w.
  destruct (read_items_spec input input (mk_state [] [])
              (read_members input Hnd) Hnd)
    as (done & rest & parsed & Hsplit & Hf & Hst & Hr).
  unfold namelist.
  destruct (read_items from_json_string input (mk_state [] []) (map fst input))
    as [st r].
  cbn [fst snd scenes output_zip_file app] in Hst, Hr. subst st.
  destruct r as [e|].
  - left. destruct Hr as (m & tail & -> & Hm & He).
    exists done, m, tail, e. cbn [output_zip_file]. auto.
  - right. subst rest. rewrite app_nil_r in Hsplit. subst done.
    cbn [scenes output_zip_file].
    destruct (scale_scenes scale_scene parsed scale) as [scaled|e] eqn:Hs.
    + right.
      pose proof (scale_scenes_scaled _ _ _ _ Hf Hs) as Hsc.
      destruct (write_scenes_spec (pass_through input) scaled)
        as (qs & rest & written & -> & Hw & Hz & Hr).
      cbv zeta.
      destruct (write_scenes to_json (pass_through input) (qs ++ rest))
        as [zip r].
      cbn [fst snd] in Hz, Hr |- *. subst zip.
      apply Forall2_app_inv_r in Hsc as (ms1 & ms2 & Hsc1 & Hsc2 & Hms).
      destruct r as [e|].
      * left. destruct Hr as (q & tail & -> & He).
        inversion Hsc2 as [|m ? after ? Hmq Hafter]; subst.
        exists ms1, m, after, q, written, e.
        split; [exact Hms|].
        split; [eapply scaled_written; eassumption|]. auto.
      * right. subst rest. inversion Hsc2; subst.
        rewrite app_nil_r in Hms. subst ms1.
        exists written. split; [|reflexivity].
        eapply scaled_written; eassumption.
    + left. unfold scale_scenes in Hs.
      apply for_each_raise in Hs as (p & Hp & Hs).
      exists parsed, p, e. split; [exact Hf|]. split; [exact Hp|].
      split; [|reflexivity].
      destruct (scale_scene (snd p) scale); [discriminate|].
      injection Hs as <-. reflexivity.
Qed.

End Layout.

End LayoutFacts.

(** X12: what a run without exception writes.  On a fresh bundle and an
    archive with distinct member names, [perform_scaling] raises nothing
    exactly when every scene member parses, its scene scales and the
    scaled scene is serialised; the output archive then holds the
    members that are not scenes, in the order of the input, followed by
    the scenes, in the order of the input, each under its name with the
    text of its scaled scene.  The scenes move to the end of the
    archive. *)
Theorem X12_success_layout
    {S : Type} (from_json_string : string -> result S)
    (scale_scene : S -> Decimal.t -> result S)
    (to_json : S -> result string)
    (input : AdventureBundle.archive) (scale : Decimal.t) :
  distinct_names input ->
  let outcome :=
    AdventureBundle.perform_scaling from_json_string scale_scene to_json
      [] input scale in
  (AdventureBundle.raised outcome = None
   <-> forall m, In m input -> is_scene m = true ->
                 serialises from_json_string scale_scene to_json scale m)
  /\ (AdventureBundle.raised outcome = None ->
      exists written,
        Forall2 (rewritten from_json_string scale_scene to_json scale)
          (scene_members input) written
        /\ AdventureBundle.output_file outcome
           = pass_through input ++ written).
Proof.
  intros Hnd outcome.
  destruct (LayoutFacts.perform_scaling_cases from_json_string scale_scene
              to_json input scale Hnd)
    as [(done & m & tail & e & Hin & Hm & He & Hout)
       |[(parsed & p & e & Hf & Hp & He & Hout)
        |[(before & m & after & q & written & e & Hms & Hw & Hq & He & Hout)
         |(written & Hw & Hout)]]];
    fold outcome in Hout; rewrite Hout;
    cbn [AdventureBundle.raised AdventureBundle.output_file].
  - split; [split; [discriminate|]|discriminate].
    intros H. destruct (H m) as (sc & sc' & text & Hsc & _);
      [rewrite Hin; apply in_or_app; right; left; reflexivity|exact Hm|].
    congruence.
  - split; [split; [discriminate|]|discriminate].
    intros H.
    destruct (LayoutFacts.Forall2_In_r _ _ _ _ Hf Hp) as (m & Hm & _ & Hpm).
    apply filter_In in Hm as [Hin Hscene].
    destruct (H m Hin Hscene) as (sc & sc' & text & Hsc & Hsc' & _).
    congruence.
  - split; [split; [discriminate|]|discriminate].
    intros H.
    assert (Hm : In m (scene_members input))
      by (rewrite Hms; apply in_or_app; right; left; reflexivity).
    apply filter_In in Hm as [Hin Hscene].
    destruct (H m Hin Hscene) as (sc & sc' & text & Hsc & Hsc' & Ht).
    destruct Hq as (_ & sc0 & Hsc0 & Hq).
    congruence.
  - split; [|eauto].
    split; [|reflexivity]. intros _ m Hin Hscene.
    assert (Hm : In m (scene_members input))
      by (apply filter_In; split; assumption).
    destruct (LayoutFacts.Forall2_In_l _ _ _ _ Hw Hm)
      as (out & _ & _ & sc & sc' & Hsc & Hsc' & Ht).
    exists sc, sc', (snd out). auto.
Qed.

Lemma X12_success_layout_witness :
  let input := [ ("scene/cave.json", "<cave>"); ("thumb.png", "PNG");
                 ("module.json", "{}") ]%string in
  let outcome :=
    AdventureBundle.perform_scaling
      Sample.from_json_string Scene.scale_scene Sample.to_json
      [] input Sample.two in
  distinct_names input
  /\ AdventureBundle.raised outcome = None
  /\ exists written,
       Forall2 (rewritten Sample.from_json_string Scene.scale_scene
                  Sample.to_json Sample.two)
         (scene_members input) written
       /\ AdventureBundle.output_file outcome = pass_through input ++ written.
Proof.
  intros input outcome.
  assert (Hnd : distinct_names input).
  { unfold distinct_names. cbn.
    repeat constructor; cbn; intuition discriminate. }
  split; [exact Hnd|].
  pose proof (X12_success_layout Sample.from_json_string Scene.scale_scene
                Sample.to_json input Sample.two Hnd) as [_ Hlayout].
  assert (Hnone : AdventureBundle.raised outcome = None)
    by (vm_compute; reflexivity).
  split; [exact Hnone|]. apply Hlayout. exact Hnone.
Defined.

(** X13: what a run that raises leaves.  On a fresh bundle and an archive
    with distinct member names, when [perform_scaling] raises, the
    exception is the one of a scene member of the input, raised by
    [from_json_string] on its data, by [scale_scene] on its scene or by
    [to_json] on its scaled scene.  In the first case the output archive
    holds the members before it that are not scenes, and no scene; in the
    second, all the members that are not scenes, and no scene; in the
    third, all the members that are not scenes followed by the scenes
    before the failing one, scaled.  The members are in the order of the
    input. *)
Theorem X13_failure_output
    {S : Type} (from_json_string : string -> result S)
    (scale_scene : S -> Decimal.t -> result S)
    (to_json : S -> result string)
    (input : AdventureBundle.archive) (scale : Decimal.t) (e : exn) :
  distinct_names input ->
  let outcome :=
    AdventureBundle.perform_scaling from_json_string scale_scene to_json
      [] input scale in
  AdventureBundle.raised outcome = Some e ->
  exists m, In m input /\ is_scene m = true
    /\ ((from_json_string (snd m) = Raise e
         /\ exists done tail,
              input = done ++ m :: tail
              /\ AdventureBundle.output_file outcome = pass_through done)
        \/ (exists scene,
              from_json_string (snd m) = Ok scene
              /\ scale_scene scene scale = Raise e
              /\ AdventureBundle.output_file outcome = pass_through input)
        \/ (exists scene scaled before after written,
              from_json_string (snd m) = Ok scene
              /\ scale_scene scene scale = Ok scaled
              /\ to_json scaled = Raise e
              /\ scene_members input = before ++ m :: after
              /\ Forall2 (rewritten from_json_string scale_scene to_json
                            scale) before written
              /\ AdventureBundle.output_file outcome
                 = pass_through input ++ written)).
Proof.
  intros Hnd outcome.
  destruct (LayoutFacts.perform_scaling_cases from_json_string scale_scene
              to_json input scale Hnd)
    as [(done & m & tail & e' & Hin & Hm & He & Hout)
       |[(parsed & p & e' & Hf & Hp & He & Hout)
        |[(before & m & after & q & written & e' & Hms & Hw & Hq & He & Hout)
         |(written & Hw & Hout)]]];
    fold outcome in Hout; rewrite Hout;
    cbn [AdventureBundle.raised AdventureBundle.output_file];
    intros Hraised; [| | |discriminate]; injection Hraised as ->.
  - exists m. split; [rewrite Hin; apply in_or_app; right; left; reflexivity|].
    split; [exact Hm|]. left. split; [exact He|]. exists done, tail. auto.
  - destruct (LayoutFacts.Forall2_In_r _ _ _ _ Hf Hp) as (m & Hm & _ & Hpm).
    apply filter_In in Hm as [Hin Hscene].
    exists m. split; [exact Hin|]. split; [exact Hscene|].
    right. left. exists (snd p). auto.
  - assert (Hm : In m (scene_members input))
      by (rewrite Hms; apply in_or_app; right; left; reflexivity).
    apply filter_In in Hm as [Hin Hscene].
    exists m. split; [exact Hin|]. split; [exact Hscene|].
    right. right. destruct Hq as (_ & sc & Hsc & Hq).
    exists sc, (snd q), before, after, written. auto 7.
Qed.

Lemma X13_failure_output_witness :
  let input := [ ("thumb.png", "PNG"); ("scene/cave.json", "<cave>");
                 ("scene/pit.json", "<pit>"); ("module.json", "{}") ]%string in
  let outcome :=
    AdventureBundle.perform_scaling
      Sample.from_json_string Scene.scale_scene Sample.to_json
      [] input Sample.two in
  distinct_names input
  /\ AdventureBundle.raised outcome = Some IndexError
  /\ AdventureBundle.output_file outcome
     = [("thumb.png", "PNG"); ("module.json", "{}")]%string
  /\ exists m, In m input /\ is_scene m = true
       /\ exists scene, Sample.from_json_string (snd m) = Ok scene
            /\ Scene.scale_scene scene Sample.two = Raise IndexError.
Proof.
  intros input outcome.
  assert (Hnd : distinct_names input).
  { unfold distinct_names. cbn.
    repeat constructor; cbn; intuition discriminate. }
  split; [exact Hnd|].
  assert (Hraised : AdventureBundle.raised outcome = Some IndexError)
    by (vm_compute; reflexivity).
  split; [exact Hraised|]. split; [vm_compute; reflexivity|].
  destruct (X13_failure_output Sample.from_json_string Scene.scale_scene
              Sample.to_json input Sample.two IndexError Hnd Hraised)
    as (m & Hin & Hscene & [[Hparse _]|[(sc & Hsc & Hs & _)|Hjson]]).
  - exfalso. cbn in Hin.
    repeat (destruct Hin as [<-|Hin]; [vm_compute in Hparse; discriminate|]).
    destruct Hin.
  - exists m. split; [exact Hin|]. split; [exact Hscene|]. exists sc. auto.
  - exfalso. destruct Hjson as (sc & sc' & _ & _ & _ & _ & _ & Ht & _).
    vm_compute in Ht. discriminate.
Defined.

(** ** Which members are scenes *)

Module PathFacts.
Import Path.







Lemma dropped_not_json (s : string) :
  no_slash s = true -> component s = false -> ends_with_json s = false.
Proof.
  unfold component. intros -> H. cbn [andb] in H.
  apply negb_false_iff, orb_prop in H as [H|H];
    apply String.eqb_eq in H; subst s; reflexivity.
Qed.

Lemma json_component (s : string) :
  no_slash s = true -> ends_with_json s = true -> component s = true.
Proof.
  intros Hs Hj. destruct (component s) eqn:Hc; [reflexivity|].
  rewrite (dropped_not_json s Hs Hc) in Hj. discriminate.
Qed.


End PathFacts.



(** ** What [create] accepts and builds *)

Module InitFacts.

Lemma for_each_Forall2 {A B : Type} (f : A -> result B) (l : list A)
    (out : list B) :
  for_each f l = Ok out <-> Forall2 (fun a b => f a = Ok b) l out.
Proof.
  split.
  - revert out. induction l as [|a l IH]; intros out H.
    + injection H as <-. constructor.
    + apply for_each_cons_inv in H as (b & out' & -> & Hb & H).
      constructor; [exact Hb|apply IH; exact H].
  - induction 1 as [|a b l out Hab _ IH]; [reflexivity|].
    cbn [for_each]. rewrite Hab, IH. reflexivity.
Qed.

Lemma bind_field_spec (d : list (string * json)) (f : string * option json)
    (kv : string * json) :
  Scene.bind_field d f = Ok kv
  <-> fst kv = fst f /\ bound_value d f = Some (snd kv).
Proof.
  unfold Scene.bind_field, bound_value. destruct kv as [k v]. cbn [fst snd].
  destruct (lookup (fst f) d) as [x|]; [|destruct (snd f) as [x|]];
    split; try discriminate; try (intros [_ H]; discriminate);
    try (intros [= <- <-]; auto);
    intros [-> [= ->]]; reflexivity.
Qed.

Lemma dataclass_init_spec (fields : Scene.signature) (item : json)
    (inst : Scene.instance) :
  Scene.dataclass_init fields item = Ok inst
  <-> exists d, item = JObj d /\ accepts fields d
                /\ initialised fields d inst.
Proof.
  split.
  - unfold Scene.dataclass_init. destruct item as [| | | | |l|d];
      try discriminate.
    destruct (forallb _ d) eqn:Hall; [|discriminate].
    intros H. apply for_each_Forall2 in H.
    assert (Hinit : initialised fields d inst).
    { unfold initialised. eapply Forall2_impl; [|exact H].
      intros f kv Hf. apply bind_field_spec. exact Hf. }
    exists d. split; [reflexivity|]. split; [|exact Hinit].
    split.
    + intros kv Hin. rewrite forallb_forall in Hall. exact (Hall kv Hin).
    + intros f Hin.
      destruct (LayoutFacts.Forall2_In_l _ _ _ _ Hinit Hin)
        as (kv & _ & _ & Hv).
      congruence.
  - intros (d & -> & [Hdecl Hreq] & Hinit). unfold Scene.dataclass_init.
    assert (Hall : forallb (fun kv => Scene.declares fields (fst kv)) d
                   = true) by (apply forallb_forall; exact Hdecl).
    rewrite Hall. apply for_each_Forall2.
    eapply Forall2_impl; [|exact Hinit].
    intros f kv Hf. apply bind_field_spec. exact Hf.
Qed.

Lemma initialised_names (fields : Scene.signature)
    (d : list (string * json)) (inst : Scene.instance) :
  initialised fields d inst -> map fst inst = map fst fields.
Proof.
  unfold initialised.
  induction 1 as [|f kv l l' [Hk _] _ IH]; [reflexivity|].
  cbn [map]. rewrite Hk, IH. reflexivity.
Qed.

(** Keyword arguments that fit the signature make an instance. *)
Lemma dataclass_init_total (fields : Scene.signature)
    (d : list (string * json)) :
  accepts fields d -> exists inst, Scene.dataclass_init fields (JObj d) = Ok inst.
Proof.
  intros [Hdecl Hreq]. unfold Scene.dataclass_init.
  assert (Hall : forallb (fun kv => Scene.declares fields (fst kv)) d
                 = true) by (apply forallb_forall; exact Hdecl).
  rewrite Hall. apply for_each_total. intros f Hin.
  specialize (Hreq f Hin). unfold bound_value in Hreq.
  unfold Scene.bind_field. destruct (lookup (fst f) d); [eauto|].
  destruct (snd f); [eauto|contradiction].
Qed.

Lemma instances_inv (fields : Scene.signature) (key : string)
    (d : list (string * json)) (insts : list Scene.instance) :
  Scene.instances fields key d = Ok insts ->
  accepted_collection fields key d /\ built_from fields key d insts.
Proof.
  unfold Scene.instances, accepted_collection, built_from.
  destruct (lookup key d) as [[| | | |s|items|o]|];
    cbn [Scene.iterate bind]; try discriminate.
  - destruct s; [|discriminate]. intros [= <-]. auto.
  - intros H. split; [|apply for_each_Forall2; exact H].
    apply Forall_forall. intros item Hin.
    exact (SceneErrorFacts.for_each_In _ _ _ H item Hin).
  - destruct o; [|discriminate]. intros [= <-]. auto.
  - intros [= <-]. auto.
Qed.

Lemma instances_total (fields : Scene.signature) (key : string)
    (d : list (string * json)) :
  accepted_collection fields key d ->
  exists insts, Scene.instances fields key d = Ok insts.
Proof.
  unfold Scene.instances, accepted_collection.
  destruct (lookup key d) as [[| | | |s|items|o]|];
    cbn [Scene.iterate bind]; try contradiction.
  - intros ->. eexists. reflexivity.
  - intros H. apply for_each_total. intros item Hin.
    rewrite Forall_forall in H. exact (H item Hin).
  - intros ->. eexists. reflexivity.
  - intros _. eexists. reflexivity.
Qed.

End InitFacts.

(** X15: the generated [__init__] of the six dataclasses.  The call
    [Cls] on an item returns exactly when the item is an object whose
    keys are all fields of the class and which gives every field that has
    no default; the instance then has the fields of the class in the
    order declared, each with the value the item gives it, and with its
    default when the item leaves it out.  No value is converted or
    checked against the annotation. *)
Theorem X15_dataclass_init (fields : Scene.signature) :
  (forall item inst,
      Scene.dataclass_init fields item = Ok inst
      <-> exists d, item = JObj d /\ accepts fields d
                    /\ initialised fields d inst)
  /\ (forall d, accepts fields d ->
        exists inst, Scene.dataclass_init fields (JObj d) = Ok inst
                     /\ map fst inst = map fst fields).
Proof.
  split; [intros item inst; apply InitFacts.dataclass_init_spec|].
  intros d Hd. destruct (InitFacts.dataclass_init_total fields d Hd)
    as [inst H].
  exists inst. split; [exact H|].
  apply InitFacts.dataclass_init_spec in H as (d' & _ & _ & Hinit).
  exact (InitFacts.initialised_names _ _ _ Hinit).
Qed.

Lemma X15_dataclass_init_witness :
  let d := [ ("ds", JInt 0); ("_id", JStr "w"); ("flags", JObj []);
             ("c", JStr "north"); ("move", JInt 1); ("sense", JInt 1);
             ("door", JInt 0) ]%string in
  accepts Scene.Wall_fields d
  /\ exists inst, Scene.dataclass_init Scene.Wall_fields (JObj d) = Ok inst
       /\ map fst inst
          = [ "_id"; "flags"; "c"; "move"; "sense"; "door"; "ds";
              "dir" ]%string
       /\ lookup "c" inst = Some (JStr "north")
       /\ lookup "dir" inst = Some (JInt 0).
Proof.
  intros d.
  assert (Hd : accepts Scene.Wall_fields d).
  { split.
    - intros kv Hin. cbn in Hin.
      repeat (destruct Hin as [<-|Hin]; [reflexivity|]). destruct Hin.
    - intros f Hin. cbn in Hin.
      repeat (destruct Hin as [<-|Hin]; [discriminate|]). destruct Hin. }
  split; [exact Hd|].
  destruct (proj2 (X15_dataclass_init Scene.Wall_fields) d Hd)
    as (inst & Hinst & Hnames).
  exists inst. split; [exact Hinst|]. split; [exact Hnames|].
  vm_compute in Hinst. injection Hinst as <-. split; reflexivity.
Defined.

(** X16: the documents [create] accepts.  On an object, [create] returns
    exactly when each of the six collections is acceptable: absent, a
    list of items its dataclass accepts, or an empty dict or str.  The
    scene then holds, for a list, one instance per item in the order of
    the list, and an empty collection otherwise.  No other key of the
    document can make [create] raise. *)
Theorem X16_create_collections (d : list (string * json)) :
  ((exists s, Scene.create (JObj d) = Ok s)
   <-> accepted_collection Scene.Token_fields "tokens" d
       /\ accepted_collection Scene.Wall_fields "walls" d
       /\ accepted_collection Scene.Light_fields "lights" d
       /\ accepted_collection Scene.Sound_fields "sounds" d
       /\ accepted_collection Scene.Note_fields "notes" d
       /\ accepted_collection Scene.Drawing_fields "drawings" d)
  /\ (forall s, Scene.create (JObj d) = Ok s ->
        built_from Scene.Token_fields "tokens" d (Scene.tokens s)
        /\ built_from Scene.Wall_fields "walls" d (Scene.walls s)
        /\ built_from Scene.Light_fields "lights" d (Scene.lights s)
        /\ built_from Scene.Sound_fields "sounds" d (Scene.sounds s)
        /\ built_from Scene.Note_fields "notes" d (Scene.notes s)
        /\ built_from Scene.Drawing_fields "drawings" d (Scene.drawings s)).
Proof.
  assert (Hinv : forall s, Scene.create (JObj d) = Ok s ->
    (accepted_collection Scene.Token_fields "tokens" d
     /\ built_from Scene.Token_fields "tokens" d (Scene.tokens s))
    /\ (accepted_collection Scene.Wall_fields "walls" d
        /\ built_from Scene.Wall_fields "walls" d (Scene.walls s))
    /\ (accepted_collection Scene.Light_fields "lights" d
        /\ built_from Scene.Light_fields "lights" d (Scene.lights s))
    /\ (accepted_collection Scene.Sound_fields "sounds" d
        /\ built_from Scene.Sound_fields "sounds" d (Scene.sounds s))
    /\ (accepted_collection Scene.Note_fields "notes" d
        /\ built_from Scene.Note_fields "notes" d (Scene.notes s))
    /\ (accepted_collection Scene.Drawing_fields "drawings" d
        /\ built_from Scene.Drawing_fields "drawings" d (Scene.drawings s))).
  { intros s H. unfold Scene.create in H.
    apply bind_Ok in H as (t & Ht & H). apply bind_Ok in H as (w & Hw & H).
    apply bind_Ok in H as (l & Hl & H). apply bind_Ok in H as (so & Hso & H).
    apply bind_Ok in H as (n & Hn & H). apply bind_Ok in H as (dr & Hdr & H).
    injection H as <-.
    cbn [Scene.tokens Scene.walls Scene.lights Scene.sounds Scene.notes
         Scene.drawings].
    pose proof (InitFacts.instances_inv _ _ _ _ Ht).
    pose proof (InitFacts.instances_inv _ _ _ _ Hw).
    pose proof (InitFacts.instances_inv _ _ _ _ Hl).
    pose proof (InitFacts.instances_inv _ _ _ _ Hso).
    pose proof (InitFacts.instances_inv _ _ _ _ Hn).
    pose proof (InitFacts.instances_inv _ _ _ _ Hdr).
    auto 7. }
  split; [split|].
  - intros [s H].
    destruct (Hinv s H) as ([? _] & [? _] & [? _] & [? _] & [? _] & [? _]).
    auto 7.
  - intros (Ht & Hw & Hl & Hs & Hn & Hd).
    destruct (InitFacts.instances_total _ _ _ Ht) as [t Et].
    destruct (InitFacts.instances_total _ _ _ Hw) as [w Ew].
    destruct (InitFacts.instances_total _ _ _ Hl) as [l El].
    destruct (InitFacts.instances_total _ _ _ Hs) as [so Eso].
    destruct (InitFacts.instances_total _ _ _ Hn) as [n En].
    destruct (InitFacts.instances_total _ _ _ Hd) as [dr Edr].
    unfold Scene.create. rewrite Et, Ew, El, Eso, En, Edr. cbn [bind].
    eexists. reflexivity.
  - intros s H.
    destruct (Hinv s H) as ([_ ?] & [_ ?] & [_ ?] & [_ ?] & [_ ?] & [_ ?]).
    auto 7.
Qed.

Lemma X16_create_collections_witness :
  let item := JObj [ ("_id", JStr "w"); ("flags", JObj []);
                     ("c", JList [JInt 0; JInt 0; JInt 100; JInt 100]);
                     ("move", JInt 1); ("sense", JInt 1); ("door", JInt 0);
                     ("ds", JInt 0) ]%string in
  let d := [ ("name", JStr "Cave"); ("walls", JList [item; item]);
             ("tokens", JObj []) ]%string in
  exists s, Scene.create (JObj d) = Ok s
            /\ List.length (Scene.walls s) = 2%nat
            /\ Scene.tokens s = [].
Proof.
  intros item d.
  pose proof (X16_create_collections d) as [[_ Hok] Hbuilt].
  destruct Hok as [s Hs].
  { repeat split; try exact I.
    unfold accepted_collection. cbn [lookup String.eqb Ascii.eqb Bool.eqb].
    repeat constructor; eexists; vm_compute; reflexivity. }
  exists s. split; [exact Hs|].
  destruct (Hbuilt s Hs) as (Ht & Hw & _).
  split; [|exact Ht].
  unfold built_from in Hw. cbn [lookup String.eqb Ascii.eqb Bool.eqb] in Hw.
  apply Forall2_length in Hw. symmetry. exact Hw.
Defined.

(** ** Reading the output back *)

Module SerialFacts.

Lemma create_document_entity (self : Scene.T) :
  has_entity self -> Scene.create (Scene.document self) = Raise TypeError.
Proof.
  intros H. destruct self as
    [? ? ? ? ? ? ? ? ? ? ? ? ? ? ? ? ? ? ? ? ? ? ? ? ? ?
     tokens walls ? ? lights ? ? ? ? sounds ? ? notes ? drawings ?].
  unfold has_entity in H.
  cbn [Scene.tokens Scene.walls Scene.lights Scene.sounds Scene.notes
       Scene.drawings] in H.
  destruct tokens; [|vm_compute; reflexivity].
  destruct walls; [|vm_compute; reflexivity].
  destruct lights; [|vm_compute; reflexivity].
  destruct sounds; [|vm_compute; reflexivity].
  destruct notes; [|vm_compute; reflexivity].
  destruct drawings; [|vm_compute; reflexivity].
  exfalso. intuition congruence.
Qed.

Lemma create_document_empty (self : Scene.T) :
  ~ has_entity self ->
  exists s, Scene.create (Scene.document self) = Ok s
            /\ Scene._id s = Scene._id self
            /\ Scene.name s = Scene.name self
            /\ Scene.description s = Scene.description self
            /\ Scene.navigation s = Scene.description self
            /\ Scene.width s = JInt (Scene.width self)
            /\ Scene.height s = JInt (Scene.height self)
            /\ Scene.grid s = JInt (Scene.grid self)
            /\ Scene.shift_x s = JInt (Scene.shift_x self)
            /\ Scene.shift_y s = JInt (Scene.shift_y self).
Proof.
  intros H. destruct self as
    [? ? ? ? ? ? ? ? ? ? ? ? ? ? ? ? ? ? ? ? ? ? ? ? ? ?
     tokens walls ? ? lights ? ? ? ? sounds ? ? notes ? drawings ?].
  unfold has_entity in H.
  cbn [Scene.tokens Scene.walls Scene.lights Scene.sounds Scene.notes
       Scene.drawings] in H.
  destruct tokens; [|exfalso; apply H; left; discriminate].
  destruct walls; [|exfalso; apply H; right; left; discriminate].
  destruct lights; [|exfalso; apply H; do 2 right; left; discriminate].
  destruct sounds; [|exfalso; apply H; do 3 right; left; discriminate].
  destruct notes; [|exfalso; apply H; do 4 right; left; discriminate].
  destruct drawings; [|exfalso; apply H; do 5 right; discriminate].
  eexists. split; [vm_compute; reflexivity|].
  repeat split.
Qed.

End SerialFacts.

(** X17: the output of a run is not read back.  In the document that
    [to_json] writes, [orjson] leaves out the [_id] of every entity, a
    field that each of the six dataclasses requires: when the scene holds
    at least one entity, [create], and so [from_json_string], raises
    TypeError on the document written for it.  A scene without entities
    is read back, with its sizing fields, and with its [description] in
    the place of its [navigation]. *)
Theorem X17_output_is_not_read_back (self : Scene.T) :
  (has_entity self ->
   Scene.create (Scene.document self) = Raise TypeError
   /\ forall loads text,
        loads text = Ok (Scene.document self) ->
        Scene.from_json_string loads text = Raise TypeError)
  /\ (~ has_entity self ->
      exists s, Scene.create (Scene.document self) = Ok s
                /\ Scene._id s = Scene._id self
                /\ Scene.name s = Scene.name self
                /\ Scene.description s = Scene.description self
                /\ Scene.navigation s = Scene.description self
                /\ Scene.width s = JInt (Scene.width self)
                /\ Scene.height s = JInt (Scene.height self)
                /\ Scene.grid s = JInt (Scene.grid self)
                /\ Scene.shift_x s = JInt (Scene.shift_x self)
                /\ Scene.shift_y s = JInt (Scene.shift_y self)).
Proof.
  split; [|apply SerialFacts.create_document_empty].
  intros H. pose proof (SerialFacts.create_document_entity self H) as Hc.
  split; [exact Hc|].
  intros loads text Hl. unfold Scene.from_json_string.
  rewrite Hl. exact Hc.
Qed.

Lemma X17_output_is_not_read_back_witness :
  has_entity Sample.cave
  /\ Scene.create (Scene.document Sample.cave) = Raise TypeError
  /\ (exists out, Scene.scale_scene Sample.cave Sample.two = Ok out
                  /\ Scene.create (Scene.document out) = Raise TypeError).
Proof.
  assert (H : has_entity Sample.cave) by (left; discriminate).
  split; [exact H|].
  split; [exact (proj1 (proj1 (X17_output_is_not_read_back Sample.cave) H))|].
  eexists. split; [vm_compute; reflexivity|].
  apply (proj1 (X17_output_is_not_read_back _)). left. discriminate.
Defined.

(** ** Order and distance *)

Module OrderFacts.
Import Decimal.

(** Rounding half to even keeps the order. *)
Lemma Qround_half_even_mono (q q' : Q) :
  (q <= q')%Q -> Qround_half_even q <= Qround_half_even q'.
Proof.
  intros Hle.
  pose proof (NearestFacts.Qround_half_even_nearest q) as H.
  pose proof (NearestFacts.Qround_half_even_nearest q') as H'.
  apply Qabs_Qle_condition in H as [H1 H2].
  apply Qabs_Qle_condition in H' as [H1' H2'].
  destruct (Z_le_gt_dec (Qround_half_even q) (Qround_half_even q'))
    as [Hok|Hgt]; [exact Hok|].
  exfalso.
  assert (Hz : (inject_Z (Qround_half_even q') + 1
                <= inject_Z (Qround_half_even q))%Q).
  { change 1%Q with (inject_Z 1). rewrite <- inject_Z_plus, <- Zle_Qle. lia. }
  assert (Heq : (q == q')%Q) by lra.
  apply DecimalFacts.Qround_half_even_comp in Heq. lia.
Qed.

(** Two roundings move a difference by at most one. *)
Lemma rounded_difference (q q' : Q) :
  (Qabs (inject_Z (Qround_half_even q' - Qround_half_even q) - (q' - q))
   <= 1)%Q.
Proof.
  pose proof (NearestFacts.Qround_half_even_nearest q) as H.
  pose proof (NearestFacts.Qround_half_even_nearest q') as H'.
  apply Qabs_Qle_condition in H as [H1 H2].
  apply Qabs_Qle_condition in H' as [H1' H2'].
  unfold Z.sub. rewrite inject_Z_plus, inject_Z_opp.
  apply Qabs_Qle_condition. split; lra.
Qed.

Lemma dilated_difference (sh x x' : Z) (s : t) :
  (dilated sh x' s - dilated sh x s == to_Q s * inject_Z (x' - x))%Q.
Proof.
  unfold dilated, Z.sub. rewrite inject_Z_plus, inject_Z_opp. ring.
Qed.

Lemma dilated_mono (sh x x' : Z) (s : t) :
  (0 <= to_Q s)%Q -> x <= x' -> (dilated sh x s <= dilated sh x' s)%Q.
Proof.
  intros Hs Hx.
  assert (H : (0 <= to_Q s * inject_Z (x' - x))%Q).
  { apply Qmult_le_0_compat; [exact Hs|].
    change 0%Q with (inject_Z 0). rewrite <- Zle_Qle. lia. }
  rewrite <- (dilated_difference sh x x' s) in H.
  apply Qle_minus_iff. unfold Qminus in H. exact H.
Qed.

End OrderFacts.

(** X18: scaling keeps the order of the entities and scales their
    distances.  For a scale of magnitude at most 10 with at most five
    decimal places and integers of at most 20 digits, two entities at
    (x, y) and (x', y') are put at positions whose difference on each
    axis is within 1 of [s * (x' - x)] and [s * (y' - y)], whatever the
    origin; and for a scale that is not negative the one with the smaller
    coordinate keeps the smaller coordinate. *)
Theorem X18_order_and_distance (self : Scene.T) (s : Decimal.t)
    (x y x' y' : Z) :
  int_range (Scene.shift_x self) -> int_range (Scene.shift_y self) ->
  int_range x -> int_range y -> int_range x' -> int_range y' ->
  short_scale s ->
  exists p p',
    scaled_position (Scene.get_origin self) s x y = Ok p
    /\ scaled_position (Scene.get_origin self) s x' y' = Ok p'
    /\ (Qabs (inject_Z (fst p' - fst p)
              - Decimal.to_Q s * inject_Z (x' - x)) <= 1)%Q
    /\ (Qabs (inject_Z (snd p' - snd p)
              - Decimal.to_Q s * inject_Z (y' - y)) <= 1)%Q
    /\ ((0 <= Decimal.to_Q s)%Q -> x <= x' -> fst p <= fst p')
    /\ ((0 <= Decimal.to_Q s)%Q -> y <= y' -> snd p <= snd p').
Proof.
  intros Hsx Hsy Hx Hy Hx' Hy' Hs.
  rewrite !ExactFacts.position_short by assumption.
  eexists. eexists. split; [reflexivity|]. split; [reflexivity|].
  cbn [fst snd]. rewrite <- !OrderFacts.dilated_difference.
  split; [apply OrderFacts.rounded_difference|].
  split; [apply OrderFacts.rounded_difference|].
  split; intros H0 Hle; apply OrderFacts.Qround_half_even_mono,
    OrderFacts.dilated_mono; assumption.
Qed.

Lemma X18_order_and_distance_witness :
  let s := Decimal.mk 125 (-2) in
  exists p p',
    scaled_position (Scene.get_origin Sample.cave) s 13 (-7) = Ok p
    /\ scaled_position (Scene.get_origin Sample.cave) s 14 (-7) = Ok p'
    /\ fst p <= fst p' /\ snd p <= snd p'.
Proof.
  intros s.
  assert (H50 : int_range 50) by in_range.
  assert (H13 : int_range 13) by in_range.
  assert (H14 : int_range 14) by in_range.
  assert (H7 : int_range (-7)) by in_range.
  assert (Hs : short_scale s)
    by (split; [split|]; vm_compute; discriminate).
  destruct (X18_order_and_distance Sample.cave s 13 (-7) 14 (-7)
              H50 H50 H13 H7 H14 H7 Hs)
    as (p & p' & Hp & Hp' & _ & _ & Hox & Hoy).
  exists p, p'. split; [exact Hp|]. split; [exact Hp'|].
  assert (H0 : (0 <= Decimal.to_Q s)%Q) by (vm_compute; discriminate).
  split; [apply Hox|apply Hoy]; [exact H0|lia|exact H0|lia].
Defined.

(** ** Scaling up and down again *)

Module RoundTripFacts.
Import Decimal DecimalFacts.

Lemma scale_int_value (v : Z) (s : t) :
  int_range v -> short_scale s ->
  (to_Q (mul (of_int v) s) == inject_Z v * to_Q s)%Q.
Proof.
  intros Hv Hs. destruct s as [c e]. destruct Hs as [He Hc].
  cbn [coeff exp] in He, Hc.
  rewrite ShortScaleFacts.scaled_point_repr by assumption.
  unfold to_Q. cbn [coeff exp]. rewrite inject_Z_mult. ring.
Qed.

Lemma for_each_inverse {A : Type} (f g : A -> result A) (l l1 : list A) :
  for_each f l = Ok l1 ->
  (forall a b, In a l -> In b l1 -> f a = Ok b -> g b = Ok a) ->
  for_each g l1 = Ok l.
Proof.
  revert l1. induction l as [|a l IH]; intros l1 H Hback.
  - injection H as <-. reflexivity.
  - apply for_each_cons_inv in H as (b & out & -> & Hb & H).
    cbn [for_each].
    rewrite (Hback a b (or_introl eq_refl) (or_introl eq_refl) Hb).
    cbn [bind]. rewrite (IH out H); [reflexivity|].
    intros x y Hx Hy. apply Hback; right; assumption.
Qed.

Lemma int_range_0 : int_range 0.
Proof. unfold int_range. vm_compute. discriminate. Qed.

Section RoundTrip.
Variables (s s' : t) (n : Z).
Hypothesis Hs : short_scale s.
Hypothesis Hs' : short_scale s'.
Hypothesis Hn : (to_Q s == inject_Z n)%Q.
Hypothesis Hinv : (to_Q s * to_Q s' == 1)%Q.

Lemma back (v : Z) : (inject_Z (n * v) * to_Q s' == inject_Z v)%Q.
Proof.
  rewrite inject_Z_mult, <- Hn.
  transitivity (to_Q s * to_Q s' * inject_Z v)%Q; [ring|].
  rewrite Hinv. ring.
Qed.

Lemma scale_int_forward (v v1 : Z) :
  int_range v -> Scene.scale_int v s = Ok v1 -> v1 = n * v.
Proof.
  intros Hv H. unfold Scene.scale_int in H.
  apply round_to_int_spec in H. subst v1.
  apply NearestFacts.Qround_half_even_integer.
  rewrite scale_int_value by assumption.
  rewrite Hn, inject_Z_mult. ring.
Qed.

Lemma scale_int_back (v : Z) :
  int_range v -> int_range (n * v) -> Scene.scale_int (n * v) s' = Ok v.
Proof.
  intros Hv Hnv. unfold Scene.scale_int.
  apply NearestFacts.round_to_int_integer.
  - rewrite scale_int_value by assumption. apply back.
  - unfold int_range in Hv. unfold prec. lia.
Qed.

Variables (self mid : Scene.T).
Hypothesis Hx0 : Scene.shift_x self = 0.
Hypothesis Hy0 : Scene.shift_y self = 0.
Hypothesis Hmx0 : Scene.shift_x mid = 0.
Hypothesis Hmy0 : Scene.shift_y mid = 0.

Lemma position_forward (x y : Z) (p : Z * Z) :
  int_range x -> int_range y ->
  scaled_position (Scene.get_origin self) s x y = Ok p ->
  p = (n * x, n * y).
Proof.
  intros Hx Hy H.
  rewrite ExactFacts.position_short in H
    by (rewrite ?Hx0, ?Hy0; auto using int_range_0).
  injection H as <-. rewrite Hx0, Hy0.
  f_equal; apply NearestFacts.Qround_half_even_integer; unfold dilated;
    change (inject_Z 0) with 0%Q; rewrite Hn, inject_Z_mult; ring.
Qed.

Lemma position_back (x y : Z) :
  int_range (n * x) -> int_range (n * y) ->
  scaled_position (Scene.get_origin mid) s' (n * x) (n * y) = Ok (x, y).
Proof.
  intros Hx Hy.
  rewrite ExactFacts.position_short
    by (rewrite ?Hmx0, ?Hmy0; auto using int_range_0).
  rewrite Hmx0, Hmy0.
  do 2 f_equal; apply NearestFacts.Qround_half_even_integer; unfold dilated;
    change (inject_Z 0) with 0%Q; rewrite <- (back x) || rewrite <- (back y);
    ring.
Qed.

Lemma token_round_trip (a b : Token.T) :
  int_range (Token.x a) /\ int_range (Token.y a) ->
  int_range (Token.x b) /\ int_range (Token.y b) ->
  Scene.scale_token (Scene.get_origin self) s a = Ok b ->
  Scene.scale_token (Scene.get_origin mid) s' b = Ok a.
Proof.
  intros [Hx Hy] Hb H. rewrite EntityFacts.scale_token_position in H.
  apply bind_Ok in H as (p & Hp & H). injection H as <-.
  apply position_forward in Hp; [|assumption..]. subst p.
  cbn [fst snd Token.x Token.y Token.with_xy] in Hb. destruct Hb as [Hbx Hby].
  rewrite EntityFacts.scale_token_position.
  cbn [fst snd Token.x Token.y Token.with_xy].
  rewrite position_back by assumption. destruct a. reflexivity.
Qed.

Lemma light_round_trip (a b : Light.T) :
  int_range (Light.x a) /\ int_range (Light.y a) ->
  int_range (Light.x b) /\ int_range (Light.y b) ->
  Scene.scale_light (Scene.get_origin self) s a = Ok b ->
  Scene.scale_light (Scene.get_origin mid) s' b = Ok a.
Proof.
  intros [Hx Hy] Hb H. rewrite EntityFacts.scale_light_position in H.
  apply bind_Ok in H as (p & Hp & H). injection H as <-.
  apply position_forward in Hp; [|assumption..]. subst p.
  cbn [fst snd Light.x Light.y Light.with_xy] in Hb. destruct Hb as [Hbx Hby].
  rewrite EntityFacts.scale_light_position.
  cbn [fst snd Light.x Light.y Light.with_xy].
  rewrite position_back by assumption. destruct a. reflexivity.
Qed.

Lemma sound_round_trip (a b : Sound.T) :
  int_range (Sound.x a) /\ int_range (Sound.y a) ->
  int_range (Sound.x b) /\ int_range (Sound.y b) ->
  Scene.scale_sound (Scene.get_origin self) s a = Ok b ->
  Scene.scale_sound (Scene.get_origin mid) s' b = Ok a.
Proof.
  intros [Hx Hy] Hb H. rewrite EntityFacts.scale_sound_position in H.
  apply bind_Ok in H as (p & Hp & H). injection H as <-.
  apply position_forward in Hp; [|assumption..]. subst p.
  cbn [fst snd Sound.x Sound.y Sound.with_xy] in Hb. destruct Hb as [Hbx Hby].
  rewrite EntityFacts.scale_sound_position.
  cbn [fst snd Sound.x Sound.y Sound.with_xy].
  rewrite position_back by assumption. destruct a. reflexivity.
Qed.

Lemma note_round_trip (a b : Note.T) :
  int_range (Note.x a) /\ int_range (Note.y a) ->
  int_range (Note.x b) /\ int_range (Note.y b) ->
  Scene.scale_note (Scene.get_origin self) s a = Ok b ->
  Scene.scale_note (Scene.get_origin mid) s' b = Ok a.
Proof.
  intros [Hx Hy] Hb H. rewrite EntityFacts.scale_note_position in H.
  apply bind_Ok in H as (p & Hp & H). injection H as <-.
  apply position_forward in Hp; [|assumption..]. subst p.
  cbn [fst snd Note.x Note.y Note.with_xy] in Hb. destruct Hb as [Hbx Hby].
  rewrite EntityFacts.scale_note_position.
  cbn [fst snd Note.x Note.y Note.with_xy].
  rewrite position_back by assumption. destruct a. reflexivity.
Qed.

Lemma drawing_round_trip (a b : Drawing.T) :
  int_range (Drawing.x a) /\ int_range (Drawing.y a) ->
  int_range (Drawing.x b) /\ int_range (Drawing.y b) ->
  Scene.scale_drawing (Scene.get_origin self) s a = Ok b ->
  Scene.scale_drawing (Scene.get_origin mid) s' b = Ok a.
Proof.
  intros [Hx Hy] Hb H. rewrite EntityFacts.scale_drawing_position in H.
  apply bind_Ok in H as (p & Hp & H). injection H as <-.
  apply position_forward in Hp; [|assumption..]. subst p.
  cbn [fst snd Drawing.x Drawing.y Drawing.with_xy] in Hb.
  destruct Hb as [Hbx Hby].
  rewrite EntityFacts.scale_drawing_position.
  cbn [fst snd Drawing.x Drawing.y Drawing.with_xy].
  rewrite position_back by assumption. destruct a. reflexivity.
Qed.

Lemma wall_round_trip (a b : Wall.T) :
  wall_range a -> List.length (Wall.c a) = 4%nat -> wall_range b ->
  Scene.scale_wall (Scene.get_origin self) s a = Ok b ->
  Scene.scale_wall (Scene.get_origin mid) s' b = Ok a.
Proof.
  intros (x1 & y1 & x2 & y2 & rest & Hc & Hx1 & Hy1 & Hx2 & Hy2) Hlen Hb H.
  rewrite Hc in Hlen. destruct rest; [|discriminate].
  rewrite (EntityFacts.scale_wall_position _ _ _ _ _ _ _ _ Hc) in H.
  apply bind_Ok in H as (p1 & Hp1 & H). apply bind_Ok in H as (p2 & Hp2 & H).
  injection H as <-.
  apply position_forward in Hp1; [|assumption..].
  apply position_forward in Hp2; [|assumption..]. subst p1 p2.
  cbn [fst snd] in *.
  destruct Hb as (u1 & v1 & u2 & v2 & rest' & Hc' & Hu1 & Hv1 & Hu2 & Hv2).
  cbn [Wall.c Wall.with_c] in Hc'. injection Hc' as <- <- <- <- _.
  rewrite (EntityFacts.scale_wall_position (Scene.get_origin mid) s'
             (Wall.with_c a [n * x1; n * y1; n * x2; n * y2])
             (n * x1) (n * y1) (n * x2) (n * y2) [] eq_refl).
  rewrite !position_back by assumption. cbn [bind fst snd].
  destruct a. cbn [Wall.c] in Hc. subst. reflexivity.
Qed.

End RoundTrip.

Lemma scene_round_trip (self mid : Scene.T) (s s' : t) (n : Z) :
  short_scale s -> short_scale s' ->
  (to_Q s == inject_Z n)%Q -> (to_Q s * to_Q s' == 1)%Q ->
  scene_range self -> four_coordinates self ->
  Scene.shift_x self = 0 -> Scene.shift_y self = 0 ->
  Scene.scale_scene self s = Ok mid -> scene_range mid ->
  Scene.scale_scene mid s' = Ok self.
Proof.
  intros Hs Hs' Hn Hinv
    (Hw & Hh & Hg & Hsx & Hsy & Ht & Hwl & Hl & Hso & Hno & Hd)
    Hfour Hx0 Hy0 H
    (Hw' & Hh' & Hg' & Hsx' & Hsy' & Ht' & Hwl' & Hl' & Hso' & Hno' & Hd').
  pose proof (scale_scene_inv _ _ _ H) as St.
  pose proof (FrameFacts.scene_frame _ _ _ H) as Hframe.
  pose proof (scale_int_forward s n Hs Hn _ _ Hw (step_width _ _ _ St)) as Ew.
  pose proof (scale_int_forward s n Hs Hn _ _ Hh (step_height _ _ _ St)) as Eh.
  pose proof (scale_int_forward s n Hs Hn _ _ Hg (step_grid _ _ _ St)) as Eg.
  pose proof (scale_int_forward s n Hs Hn _ _ Hsx (step_shift_x _ _ _ St))
    as Esx.
  pose proof (scale_int_forward s n Hs Hn _ _ Hsy (step_shift_y _ _ _ St))
    as Esy.
  assert (Hmx0 : Scene.shift_x mid = 0) by (rewrite Esx, Hx0; lia).
  assert (Hmy0 : Scene.shift_y mid = 0) by (rewrite Esy, Hy0; lia).
  pose proof (step_tokens _ _ _ St) as Et.
  pose proof (step_walls _ _ _ St) as Ewl.
  pose proof (step_lights _ _ _ St) as El.
  pose proof (step_sounds _ _ _ St) as Eso.
  pose proof (step_notes _ _ _ St) as Eno.
  pose proof (step_drawings _ _ _ St) as Ed.
  unfold Scene._scale_tokens, Scene._scale_walls, Scene._scale_lights,
    Scene._scale_sounds, Scene._scale_notes, Scene._scale_drawings in *.
  rewrite Forall_forall in Ht, Hwl, Hl, Hso, Hno, Hd,
    Ht', Hwl', Hl', Hso', Hno', Hd'.
  unfold four_coordinates in Hfour. rewrite Forall_forall in Hfour.
  unfold Scene.scale_scene, Scene._scale_tokens, Scene._scale_walls,
    Scene._scale_lights, Scene._scale_sounds, Scene._scale_notes,
    Scene._scale_drawings.
  rewrite (for_each_inverse _ _ _ _ Et)
    by (intros a b Ha Hb; apply (token_round_trip s s' n); auto).
  rewrite (for_each_inverse _ _ _ _ Ewl)
    by (intros a b Ha Hb; apply (wall_round_trip s s' n); auto).
  rewrite (for_each_inverse _ _ _ _ El)
    by (intros a b Ha Hb; apply (light_round_trip s s' n); auto).
  rewrite (for_each_inverse _ _ _ _ Eso)
    by (intros a b Ha Hb; apply (sound_round_trip s s' n); auto).
  rewrite (for_each_inverse _ _ _ _ Eno)
    by (intros a b Ha Hb; apply (note_round_trip s s' n); auto).
  rewrite (for_each_inverse _ _ _ _ Ed)
    by (intros a b Ha Hb; apply (drawing_round_trip s s' n); auto).
  cbn [bind].
  rewrite Ew, Eh, Eg, Esx, Esy in *.
  rewrite !(scale_int_back s s' n) by assumption.
  cbn [bind]. unfold same_but_geometry in Hframe.
  decompose [and] Hframe. clear Hframe.
  repeat match goal with
         | Hf : _ mid = _ self |- _ => rewrite Hf; clear Hf
         end.
  destruct self. reflexivity.
Qed.

End RoundTripFacts.

(** X19: scaling up and down again.  In a scene whose grid shift is
    (0, 0), scaling by a whole ratio n (2, 4, 5, 8 or 10) and then by its
    inverse 1/n gives the scene back: every position, every sizing field
    and every other field.  The scene has integers of at most 20 digits
    and walls of exactly four coordinates, before and after the first
    scaling. *)
Theorem X19_round_trip (self mid : Scene.T) (s s' : Decimal.t) (n : Z) :
  short_scale s -> short_scale s' ->
  (Decimal.to_Q s == inject_Z n)%Q ->
  (Decimal.to_Q s * Decimal.to_Q s' == 1)%Q ->
  scene_range self -> four_coordinates self ->
  Scene.shift_x self = 0 -> Scene.shift_y self = 0 ->
  Scene.scale_scene self s = Ok mid -> scene_range mid ->
  Scene.scale_scene mid s' = Ok self.
Proof. apply RoundTripFacts.scene_round_trip. Qed.

Lemma X19_round_trip_witness :
  let self := Sample.scene 1000 800 100 0 0 [Sample.token 125 25]
                [Sample.wall [0; 0; 100; 100]] in
  exists mid,
    Scene.scale_scene self Sample.two = Ok mid
    /\ Scene.width mid = 2000
    /\ Scene.scale_scene mid Sample.one_half = Ok self.
Proof.
  intros self. eexists. split; [vm_compute; reflexivity|].
  split; [reflexivity|].
  apply (X19_round_trip self _ Sample.two Sample.one_half 2).
  - split; [split|]; vm_compute; discriminate.
  - split; [split|]; vm_compute; discriminate.
  - vm_compute. reflexivity.
  - vm_compute. reflexivity.
  - scene_in_range.
  - repeat constructor.
  - reflexivity.
  - reflexivity.
  - vm_compute. reflexivity.
  - scene_in_range.
Defined.

(** ** The round trip in a scene with a grid shift *)

Module DriftFacts.
Import Decimal DecimalFacts.

Section Drift.
Variables (s s' : t) (n : Z).
Hypothesis Hs : short_scale s.
Hypothesis Hs' : short_scale s'.
Hypothesis Hn : (to_Q s == inject_Z n)%Q.
Hypothesis Hinv : (to_Q s * to_Q s' == 1)%Q.

Lemma whole_inverse : (inject_Z n * to_Q s' == 1)%Q.
Proof. rewrite <- Hn. exact Hinv. Qed.

Lemma dilated_forward (h x : Z) :
  (dilated (2 * h) x s == inject_Z (h * (1 - n) + n * x))%Q.
Proof.
  unfold dilated, Z.sub.
  rewrite !inject_Z_plus, !inject_Z_mult, inject_Z_plus, inject_Z_opp, Hn.
  change (inject_Z 2) with 2%Q. change (inject_Z 1) with 1%Q. field.
Qed.

Lemma dilated_back (h x : Z) :
  (dilated (n * (2 * h)) (h * (1 - n) + n * x) s'
   == inject_Z x + drift h n s')%Q.
Proof.
  unfold dilated, drift, Z.sub.
  rewrite !inject_Z_plus, !inject_Z_mult, inject_Z_plus, inject_Z_opp.
  change (inject_Z 2) with 2%Q. change (inject_Z 1) with 1%Q.
  transitivity (inject_Z x + inject_Z h * (inject_Z n - 2 + to_Q s')
                + (inject_Z n * to_Q s' - 1)
                  * (inject_Z x - 2 * inject_Z h))%Q; [field|].
  rewrite whole_inverse. ring.
Qed.

Lemma position_drift (self mid : Scene.T) (h k x y : Z) :
  Scene.shift_x self = 2 * h -> Scene.shift_y self = 2 * k ->
  int_range (2 * h) -> int_range (2 * k) -> int_range x -> int_range y ->
  Scene.scale_scene self s = Ok mid ->
  int_range (Scene.shift_x mid) -> int_range (Scene.shift_y mid) ->
  int_range (h * (1 - n) + n * x) -> int_range (k * (1 - n) + n * y) ->
  scaled_position (Scene.get_origin self) s x y
  = Ok (h * (1 - n) + n * x, k * (1 - n) + n * y)
  /\ scaled_position (Scene.get_origin mid) s'
       (h * (1 - n) + n * x) (k * (1 - n) + n * y)
     = Ok (Qround_half_even (inject_Z x + drift h n s'),
           Qround_half_even (inject_Z y + drift k n s')).
Proof.
  intros Hx0 Hy0 Hh Hk Hx Hy H Hmx Hmy Hpx Hpy.
  pose proof (scale_scene_inv _ _ _ H) as St.
  pose proof (step_shift_x _ _ _ St) as Esx.
  pose proof (step_shift_y _ _ _ St) as Esy.
  rewrite Hx0 in Esx. rewrite Hy0 in Esy.
  apply (RoundTripFacts.scale_int_forward s n Hs Hn _ _ Hh) in Esx.
  apply (RoundTripFacts.scale_int_forward s n Hs Hn _ _ Hk) in Esy.
  split.
  - rewrite ExactFacts.position_short
      by (rewrite ?Hx0, ?Hy0; assumption).
    rewrite Hx0, Hy0.
    do 2 f_equal; apply NearestFacts.Qround_half_even_integer;
      apply dilated_forward.
  - rewrite ExactFacts.position_short by assumption.
    rewrite Esx, Esy.
    do 2 f_equal; apply Qround_half_even_comp; apply dilated_back.
Qed.

End Drift.

End DriftFacts.

(** X20: the round trip in a scene with a grid shift.  In a scene of even
    grid shift (2h, 2k), scaling by a whole ratio n puts an entity at
    (x, y) exactly at [(h * (1 - n) + n * x, k * (1 - n) + n * y)];
    scaling the result by the inverse 1/n, about the origin of the scaled
    scene, puts it at [x + h * (n - 2 + 1/n)] and [y + k * (n - 2 + 1/n)],
    rounded half to even: the entity comes back to (x, y) when the grid
    shift is zero and is moved otherwise, because the origin itself has
    moved with the scaled grid shift. *)
Theorem X20_round_trip_drift (self mid : Scene.T) (s s' : Decimal.t)
    (n h k x y : Z) :
  short_scale s -> short_scale s' ->
  (Decimal.to_Q s == inject_Z n)%Q ->
  (Decimal.to_Q s * Decimal.to_Q s' == 1)%Q ->
  Scene.shift_x self = 2 * h -> Scene.shift_y self = 2 * k ->
  int_range (2 * h) -> int_range (2 * k) -> int_range x -> int_range y ->
  Scene.scale_scene self s = Ok mid ->
  int_range (Scene.shift_x mid) -> int_range (Scene.shift_y mid) ->
  int_range (h * (1 - n) + n * x) -> int_range (k * (1 - n) + n * y) ->
  scaled_position (Scene.get_origin self) s x y
  = Ok (h * (1 - n) + n * x, k * (1 - n) + n * y)
  /\ scaled_position (Scene.get_origin mid) s'
       (h * (1 - n) + n * x) (k * (1 - n) + n * y)
     = Ok (Decimal.Qround_half_even (inject_Z x + drift h n s'),
           Decimal.Qround_half_even (inject_Z y + drift k n s')).
Proof.
  intros. apply (DriftFacts.position_drift s s' n); assumption.
Qed.

Lemma X20_round_trip_drift_witness :
  exists mid,
    Scene.scale_scene Sample.cave Sample.two = Ok mid
    /\ scaled_position (Scene.get_origin Sample.cave) Sample.two 125 25
       = Ok (225, 25)
    /\ scaled_position (Scene.get_origin mid) Sample.one_half 225 25
       = Ok (138, 38).
Proof.
  eexists. split; [vm_compute; reflexivity|].
  refine (X20_round_trip_drift Sample.cave _ Sample.two Sample.one_half
            2 25 25 125 25 _ _ _ _ _ _ _ _ _ _ _ _ _ _ _);
    try reflexivity; try in_range;
    try (split; [split|]; vm_compute; discriminate).
Defined.
